(** * medscan: questionnaire_analyzer.py

    A shallow embedding of [src/questionnaire_analyzer.py] and the
    properties of its pipeline: crop, prompt, remote call, tolerant JSON
    extraction and per-region aggregation.

    Python values are modelled as follows.
    - [str] is a sequence of Unicode code points (what [len] and slicing
      count), so a string is a [list N]; literals are written as Rocq
      strings and decoded from UTF-8 by [u].
    - An exception is a value of [exn]; code that may raise returns an
      [outcome].
    - The objects produced by [json.loads] and the dictionaries the program
      builds are values of [pyval]; a [dict] keeps insertion order.
    - Library code the program calls ([re], [json], Pillow, the Gemini
      client) is not part of the repository.  [re.search], [json.loads]
      and [json.dumps] are modelled after CPython 3.11.  The properties of
      the extractor that do not depend on the decoder are proved for an
      arbitrary [json_loads]; those that do, and the runs of the program
      on concrete texts, use the concrete decoder. *)

From Stdlib Require Import Ascii String.
From Stdlib Require Import List NArith ZArith Arith Bool Lia.
From Stdlib Require DecimalString DecimalPos DecimalFacts.
Import ListNotations.

Set Implicit Arguments.
Set Warnings "-register-all".

(* ================================================================== *)
(** * Python strings *)

Module Str.

Definition char := N.
Definition str := list char.

(** UTF-8 decoding of a source literal, byte by byte: [need] continuation
    bytes are still expected for the code point accumulated in [acc]. *)
Record dec_state := DecState { need : nat; acc : N; out : list char }.

Definition dec_step (st : dec_state) (b : N) : dec_state :=
  match need st with
  | O =>
      if (b <? 128)%N then DecState 0 0 (b :: out st)
      else if (b <? 192)%N then DecState 0 0 (b :: out st)
      else if (b <? 224)%N then DecState 1 (N.land b 31) (out st)
      else if (b <? 240)%N then DecState 2 (N.land b 15) (out st)
      else DecState 3 (N.land b 7) (out st)
  | S k =>
      let a := N.lor (N.shiftl (acc st) 6) (N.land b 63) in
      match k with
      | O => DecState 0 0 (a :: out st)
      | _ => DecState k a (out st)
      end
  end.

Definition bytes_of (s : string) : list N :=
  map N_of_ascii (list_ascii_of_string s).

Definition u (s : string) : str :=
  List.rev (out (fold_left dec_step (bytes_of s) (DecState 0 0 []))).

Definition eqb (a b : str) : bool :=
  if list_eq_dec N.eq_dec a b then true else false.

(** [s[i:j]] for [0 <= i <= j]. *)
Definition slice (s : str) (i j : nat) : str := firstn (j - i) (skipn i s).

(** [s.startswith(p)]. *)
Fixpoint starts_with (p s : str) : bool :=
  match p, s with
  | [], _ => true
  | _ :: _, [] => false
  | a :: p', b :: s' => (a =? b)%N && starts_with p' s'
  end.

(** [t in s]: some position of [s] starts with [t]. *)
Fixpoint contains (t s : str) : bool :=
  starts_with t s ||
  match s with
  | [] => false
  | _ :: s' => contains t s'
  end.

(** Decimal rendering of a natural number, as [%d] does. *)
Definition of_nat (n : nat) : str :=
  u (DecimalString.NilEmpty.string_of_uint (Nat.to_uint n)).

(** The double quote, which a Rocq literal cannot hold unescaped. *)
Definition dq : string := String (ascii_of_nat 34) EmptyString.
Definition q (s : string) : string := (dq ++ s ++ dq)%string.
Definition nl : string := String (ascii_of_nat 10) EmptyString.

End Str.

Import Str.

(* ================================================================== *)
(** * Exceptions and outcomes *)

(** The exception classes the program distinguishes.  [JSONDecodeError] is
    the only one it names in a handler; [Exception] stands for every other
    subclass of Python's [Exception]; an [exn] is an instance of
    [Exception]. *)
Inductive exn_class :=
| JSONDecodeError
| KeyError
| ValueError
| TypeError
| Exception.

(** [exn_str e] is [str(e)]. *)
Record exn := Exn { exn_cls : exn_class; exn_str : str }.

Definition is_JSONDecodeError (e : exn) : bool :=
  match exn_cls e with JSONDecodeError => true | _ => false end.

Inductive outcome (A : Type) :=
| Ok (a : A)
| Raise (e : exn).
Arguments Ok {A} a.
Arguments Raise {A} e.

(* ================================================================== *)
(** * Python values *)

Inductive pyval :=
| PNone
| PBool (b : bool)
| PInt (z : Z)
| PFloat (lexeme : str)      (* a float, kept as the text it was read from *)
| PStr (s : str)
| PList (l : list pyval)
| PDict (d : list (str * pyval)).

Module Dict.

Definition dict := list (str * pyval).

Fixpoint get (d : dict) (k : str) : option pyval :=
  match d with
  | [] => None
  | (k', v) :: d' => if Str.eqb k' k then Some v else get d' k
  end.

Definition mem (k : str) (d : dict) : bool :=
  match get d k with Some _ => true | None => false end.

(** [d[k] = v]: an existing key keeps its position, a new key goes last. *)
Fixpoint set (d : dict) (k : str) (v : pyval) : dict :=
  match d with
  | [] => [(k, v)]
  | (k', v') :: d' =>
      if Str.eqb k' k then (k', v) :: d' else (k', v') :: set d' k v
  end.

Definition keys (d : dict) : list str := map fst d.

(** [dict(pairs)]. *)
Definition of_pairs (pairs : list (str * pyval)) : dict :=
  fold_left (fun d kv => set d (fst kv) (snd kv)) pairs [].

End Dict.

(* ================================================================== *)
(** * [re]: the fragment of regular expressions the program uses *)

Module Re.

(** One-character classes: a literal, [\s], and [.] under [re.DOTALL]. *)
Inductive cclass :=
| CChar (c : char)
| CSpace
| CAny.

(** [\s] on a [str] pattern is [Py_UNICODE_ISSPACE]. *)
Definition isspace (c : char) : bool :=
  ((9 <=? c) && (c <=? 13) || (28 <=? c) && (c <=? 32) || (c =? 133)
   || (c =? 160) || (c =? 5760) || (8192 <=? c) && (c <=? 8202)
   || (c =? 8232) || (c =? 8233) || (c =? 8239) || (c =? 8287)
   || (c =? 12288))%N.

Definition cmatch (k : cclass) (c : char) : bool :=
  match k with
  | CChar x => (x =? c)%N
  | CSpace => isspace c
  | CAny => true
  end.

(** Pattern items: one character, a starred class (greedy [c*] or lazy
    [c*?]), and the two ends of capture group 1. *)
Inductive item :=
| One (k : cclass)
| Star (greedy : bool) (k : cclass)
| Open1
| Close1.

Definition pattern := list item.

(** Positions recorded for group 1. *)
Record marks := Marks { g1_start : nat; g1_end : nat }.

Section Star.

Variable k : cclass.
(** What follows the star in the pattern. *)
Variable rest : str -> nat -> option (nat * marks).

(** [k*]: the longest run of [k] first, then shorter ones. *)
Fixpoint star_greedy (s : str) (i : nat) : option (nat * marks) :=
  match s with
  | c :: s' =>
      if cmatch k c then
        match star_greedy s' (S i) with
        | Some r => Some r
        | None => rest s i
        end
      else rest s i
  | [] => rest s i
  end.

(** [k*?]: the empty run first, then longer ones. *)
Fixpoint star_lazy (s : str) (i : nat) : option (nat * marks) :=
  match rest s i with
  | Some r => Some r
  | None =>
      match s with
      | c :: s' => if cmatch k c then star_lazy s' (S i) else None
      | [] => None
      end
  end.

End Star.

(** Backtracking match of [p] against the suffix [s] that starts at
    position [i] of the subject; the result is the end position and the
    marks of the first way to match that the search order reaches. *)
Fixpoint match_here (p : pattern) (s : str) (i : nat) (g : marks)
  : option (nat * marks) :=
  match p with
  | [] => Some (i, g)
  | One k :: p' =>
      match s with
      | c :: s' => if cmatch k c then match_here p' s' (S i) g else None
      | [] => None
      end
  | Star true k :: p' =>
      star_greedy k (fun s i => match_here p' s i g) s i
  | Star false k :: p' =>
      star_lazy k (fun s i => match_here p' s i g) s i
  | Open1 :: p' => match_here p' s i (Marks i (g1_end g))
  | Close1 :: p' => match_here p' s i (Marks (g1_start g) i)
  end.

(** A match object: the subject and the spans of group 0 and group 1. *)
Record match_obj := MatchObj
  { subject : str; m_start : nat; m_end : nat; m_marks : marks }.

Definition group0 (m : match_obj) : str :=
  slice (subject m) (m_start m) (m_end m).

Definition group1 (m : match_obj) : str :=
  slice (subject m) (g1_start (m_marks m)) (g1_end (m_marks m)).

(** [re.search]: the match at the leftmost position that has one. *)
Fixpoint search_from (p : pattern) (whole s : str) (i : nat)
  : option match_obj :=
  match match_here p s i (Marks 0 0) with
  | Some (e, g) => Some (MatchObj whole i e g)
  | None =>
      match s with
      | [] => None
      | _ :: s' => search_from p whole s' (S i)
      end
  end.

Definition search (p : pattern) (s : str) : option match_obj :=
  search_from p s s 0.

Definition lit (s : string) : pattern := map (fun c => One (CChar c)) (u s).

End Re.

(* ================================================================== *)
(** * [json.loads]

    The decoder of CPython 3.11's [json] package ([json/decoder.py],
    [json/scanner.py], with digits read as the C scanner reads them: ASCII
    only, and with the messages and positions of the C string scanner).
    A float is not evaluated, its text is kept.  An integer literal is
    converted by [int], which since Python 3.11 refuses more than
    [sys.get_int_max_str_digits()] digits with a [ValueError]; the limit
    on the depth of recursion is not modelled. *)

Module Json.

Definition ch (a : ascii) : char := N_of_ascii a.
Definition quote : char := 34%N.
Definition backslash : char := 92%N.

(** The ways a scanning function ends: a value with the rest of the text
    and the index after it, [StopIteration(idx)],
    [JSONDecodeError(msg, s, pos)], or an exception of another class. *)
Inductive res (A : Type) :=
| Got (a : A) (rest : str) (end_ : nat)
| Stop (idx : nat)
| Err (msg : str) (pos : nat)
| Fail (e : exn).
Arguments Got {A} a rest end_.
Arguments Stop {A} idx.
Arguments Err {A} msg pos.
Arguments Fail {A} e.

(** [WHITESPACE_STR = ' \t\n\r'] *)
Definition is_ws (c : char) : bool :=
  ((c =? 32) || (c =? 9) || (c =? 10) || (c =? 13))%N.

(** [_w(s, end).end()] *)
Fixpoint skip_ws (s : str) (i : nat) : str * nat :=
  match s with
  | c :: s' => if is_ws c then skip_ws s' (S i) else (s, i)
  | [] => ([], i)
  end.

Definition is_digit (c : char) : bool := ((48 <=? c) && (c <=? 57))%N.

Definition hex_digit (c : char) : option N :=
  if ((48 <=? c) && (c <=? 57))%N then Some (c - 48)%N
  else if ((97 <=? c) && (c <=? 102))%N then Some (c - 87)%N
  else if ((65 <=? c) && (c <=? 70))%N then Some (c - 55)%N
  else None.

(** [_decode_uXXXX]: the value of the four characters after the [u]. *)
Definition decode_uXXXX (a b c d : char) : option N :=
  match hex_digit a, hex_digit b, hex_digit c, hex_digit d with
  | Some x, Some y, Some z, Some w =>
      Some (((x * 16 + y) * 16 + z) * 16 + w)%N
  | _, _, _, _ => None
  end.

(** [BACKSLASH] *)
Definition unescape (c : char) : option char :=
  if (c =? quote)%N then Some quote
  else if (c =? backslash)%N then Some backslash
  else if (c =? ch "/")%N then Some (ch "/")
  else if (c =? ch "b")%N then Some 8%N
  else if (c =? ch "f")%N then Some 12%N
  else if (c =? ch "n")%N then Some 10%N
  else if (c =? ch "r")%N then Some 13%N
  else if (c =? ch "t")%N then Some 9%N
  else None.

(** [scanstring(s, end)] with [strict=True], as the C scanner does it;
    [s] is the text from index [end_] on, [begin] the index of the opening
    quote and [chunks] the characters decoded so far.  An escape
    [\uXXXX] must be followed by at least one more character, and a
    second one is read as the low half of a surrogate pair only when at
    least seven characters follow the first. *)
Fixpoint scanstring (s : str) (end_ begin : nat) (chunks : str) : res str :=
  match s with
  | [] => Err (u "Unterminated string starting at") begin
  | c :: s1 =>
      if (c =? quote)%N then Got chunks s1 (S end_)
      else if (c =? backslash)%N then
        match s1 with
        | [] => Err (u "Unterminated string starting at") begin
        | esc :: s2 =>
            if (esc =? ch "u")%N then
              match s2 with
              | a1 :: a2 :: a3 :: a4 :: ((_ :: _) as s3) =>
                  match decode_uXXXX a1 a2 a3 a4 with
                  | None => Err (u "Invalid \uXXXX escape") (S end_)
                  | Some uni =>
                      let single :=
                        scanstring s3 (end_ + 6) begin (chunks ++ [uni]) in
                      if ((55296 <=? uni) && (uni <=? 56319))%N then
                        match s3 with
                        | b2 :: u2 :: h1 :: h2 :: h3 :: h4 :: ((_ :: _) as s5) =>
                            if ((b2 =? backslash) && (u2 =? ch "u"))%N then
                              match decode_uXXXX h1 h2 h3 h4 with
                              | None =>
                                  Err (u "Invalid \uXXXX escape") (end_ + 7)
                              | Some uni2 =>
                                  if ((56320 <=? uni2) && (uni2 <=? 57343))%N
                                  then
                                    scanstring s5 (end_ + 12) begin
                                      (chunks ++
                                       [(65536 + N.lor
                                           (N.shiftl (uni - 55296) 10)
                                           (uni2 - 56320))%N])
                                  else single
                              end
                            else single
                        | _ => single
                        end
                      else single
                  end
              | _ => Err (u "Invalid \uXXXX escape") (S end_)
              end
            else
              match unescape esc with
              | Some c' => scanstring s2 (end_ + 2) begin (chunks ++ [c'])
              | None => Err (u "Invalid \escape") end_
              end
        end
      else if (c <? 32)%N then Err (u "Invalid control character at") end_
      else scanstring s1 (S end_) begin (chunks ++ [c])
  end.

(** The run of digits at the front of [s]. *)
Fixpoint digits (s : str) : str * str :=
  match s with
  | c :: s' =>
      if is_digit c then let (d, r) := digits s' in (c :: d, r) else ([], s)
  | [] => ([], [])
  end.

(** The value of a sequence of ASCII digits. *)
Definition int_of_digits (d : str) : Z :=
  fold_left (fun a c => (a * 10 + Z.of_N (c - 48))%Z) d 0%Z.

(** [NUMBER_RE] is an optional minus sign and either 0 or a digit string
    without leading zero (group 1), optionally a dot and digits (group 2),
    optionally an exponent (group 3).  Each part below returns what it
    matched and the rest of the text; an optional part that does not match
    takes nothing. *)
Definition number_sign (s : str) : str * str :=
  match s with
  | c :: s' => if (c =? ch "-")%N then ([c], s') else ([], s)
  | [] => ([], s)
  end.

Definition number_integer (s : str) : option (str * str) :=
  match s with
  | c :: s' =>
      if (c =? ch "0")%N then Some ([c], s')
      else if is_digit c then
        let (d, r) := digits s' in Some (c :: d, r)
      else None
  | [] => None
  end.

Definition number_frac (s : str) : str * str :=
  match s with
  | c :: s' =>
      if (c =? ch ".")%N then
        match digits s' with
        | ([], _) => ([], s)
        | (d, r) => (c :: d, r)
        end
      else ([], s)
  | [] => ([], s)
  end.

Definition number_exp (s : str) : str * str :=
  match s with
  | c :: s' =>
      if ((c =? ch "e") || (c =? ch "E"))%N then
        let (sg, s'') :=
          match s' with
          | c2 :: t =>
              if ((c2 =? ch "-") || (c2 =? ch "+"))%N
              then ([c2], t) else ([], s')
          | [] => ([], s')
          end in
        match digits s'' with
        | ([], _) => ([], s)
        | (d, r) => (c :: sg ++ d, r)
        end
      else ([], s)
  | [] => ([], s)
  end.

(** [NUMBER_RE.match]: the three groups (an absent group is empty) and
    the rest of the text. *)
Definition match_number (s : str) : option (str * str * str * str) :=
  let (sign, s0) := number_sign s in
  match number_integer s0 with
  | None => None
  | Some (int_part, s1) =>
      let (frac, s2) := number_frac s1 in
      let (exp, s3) := number_exp s2 in
      Some (sign ++ int_part, frac, exp, s3)
  end.

(** The default of [sys.get_int_max_str_digits()]. *)
Definition int_max_str_digits : nat := 4300.

(** [int(text)] for an optional minus sign and ASCII digits. *)
Definition parse_int (integer : str) : outcome pyval :=
  let (negative, d) :=
    match integer with
    | c :: d' => if (c =? ch "-")%N then (true, d') else (false, integer)
    | [] => (false, integer)
    end in
  if int_max_str_digits <? length d then
    Raise (Exn ValueError
             (u ("Exceeds the limit (4300 digits) for integer string "
                 ++ "conversion: value has ")
                ++ Str.of_nat (length d)
                ++ u (" digits; use sys.set_int_max_str_digits() to "
                      ++ "increase the limit")))
  else Ok (PInt (if negative then - int_of_digits d else int_of_digits d)).

Definition number_value (integer frac exp : str) : outcome pyval :=
  match frac, exp with
  | [], [] => parse_int integer
  | _, _ => Ok (PFloat (integer ++ frac ++ exp))
  end.

Definition next_is (c : char) (s : str) : bool :=
  match s with
  | c' :: _ => (c =? c')%N
  | [] => false
  end.

(** [_scan_once], [JSONObject] and [JSONArray]; the last two are entered
    after the opening bracket, their loops are [object_loop] and
    [array_loop].  Every call of one of the five uses one unit of [fuel];
    the [3 * len(s) + 1] units that [loads] starts with are never used
    up. *)
Fixpoint scan_once (fuel : nat) (s : str) (idx : nat) : res pyval :=
  match fuel with
  | O => Err (u "Expecting value") idx
  | S fuel =>
      match s with
      | [] => Stop idx
      | c :: s' =>
          if (c =? quote)%N then
            match scanstring s' (S idx) idx [] with
            | Got v r e => Got (PStr v) r e
            | Stop i => Stop i
            | Err m p => Err m p
            | Fail e => Fail e
            end
          else if (c =? ch "{")%N then JSONObject fuel s' (S idx)
          else if (c =? ch "[")%N then JSONArray fuel s' (S idx)
          else if starts_with (u "null") s then
            Got PNone (skipn 4 s) (idx + 4)
          else if starts_with (u "true") s then
            Got (PBool true) (skipn 4 s) (idx + 4)
          else if starts_with (u "false") s then
            Got (PBool false) (skipn 5 s) (idx + 5)
          else
            match match_number s with
            | Some (integer, frac, exp, r) =>
                match number_value integer frac exp with
                | Ok v =>
                    Got v r (idx + length integer + length frac + length exp)
                | Raise e => Fail e
                end
            | None =>
                if starts_with (u "NaN") s then
                  Got (PFloat (u "NaN")) (skipn 3 s) (idx + 3)
                else if starts_with (u "Infinity") s then
                  Got (PFloat (u "Infinity")) (skipn 8 s) (idx + 8)
                else if starts_with (u "-Infinity") s then
                  Got (PFloat (u "-Infinity")) (skipn 9 s) (idx + 9)
                else Stop idx
            end
      end
  end

with JSONObject (fuel : nat) (s : str) (end_ : nat) : res pyval :=
  match fuel with
  | O => Err (u "Expecting value") end_
  | S fuel =>
      if next_is quote s then object_loop fuel (skipn 1 s) (S end_) []
      else
        let (s1, e1) := skip_ws s end_ in
        if next_is (ch "}") s1 then Got (PDict []) (skipn 1 s1) (S e1)
        else if next_is quote s1 then
          object_loop fuel (skipn 1 s1) (S e1) []
        else
          Err (u "Expecting property name enclosed in double quotes") e1
  end

with object_loop (fuel : nat) (s : str) (end_ : nat)
                 (pairs : list (str * pyval)) : res pyval :=
  match fuel with
  | O => Err (u "Expecting value") end_
  | S fuel =>
      match scanstring s end_ (end_ - 1) [] with
      | Stop i => Stop i
      | Err m p => Err m p
      | Fail e => Fail e
      | Got key s1 e1 =>
          let (s2, e2) := skip_ws s1 e1 in
          if negb (next_is (ch ":") s2) then
            Err (u "Expecting ':' delimiter") e2
          else
            let (s3, e3) := skip_ws (skipn 1 s2) (S e2) in
            match scan_once fuel s3 e3 with
            | Stop i => Err (u "Expecting value") i
            | Err m p => Err m p
            | Fail e => Fail e
            | Got value s4 e4 =>
                let pairs := pairs ++ [(key, value)] in
                let (s5, e5) := skip_ws s4 e4 in
                if next_is (ch "}") s5 then
                  Got (PDict (Dict.of_pairs pairs)) (skipn 1 s5) (S e5)
                else if negb (next_is (ch ",") s5) then
                  Err (u "Expecting ',' delimiter") e5
                else
                  let (s6, e6) := skip_ws (skipn 1 s5) (S e5) in
                  if next_is quote s6 then
                    object_loop fuel (skipn 1 s6) (S e6) pairs
                  else
                    Err (u "Expecting property name enclosed in double quotes")
                        e6
            end
      end
  end

with JSONArray (fuel : nat) (s : str) (end_ : nat) : res pyval :=
  match fuel with
  | O => Err (u "Expecting value") end_
  | S fuel =>
      let (s1, e1) := skip_ws s end_ in
      if next_is (ch "]") s1 then Got (PList []) (skipn 1 s1) (S e1)
      else array_loop fuel s1 e1 []
  end

with array_loop (fuel : nat) (s : str) (end_ : nat) (values : list pyval)
  : res pyval :=
  match fuel with
  | O => Err (u "Expecting value") end_
  | S fuel =>
      match scan_once fuel s end_ with
      | Stop i => Err (u "Expecting value") i
      | Err m p => Err m p
      | Fail e => Fail e
      | Got value s1 e1 =>
          let values := values ++ [value] in
          let (s2, e2) := skip_ws s1 e1 in
          if next_is (ch "]") s2 then Got (PList values) (skipn 1 s2) (S e2)
          else if negb (next_is (ch ",") s2) then
            Err (u "Expecting ',' delimiter") e2
          else
            let (s3, e3) := skip_ws (skipn 1 s2) (S e2) in
            array_loop fuel s3 e3 values
      end
  end.

(** [JSONDecodeError.__init__]: the text of the exception. *)
Definition errmsg (msg doc : str) (pos : nat) : str :=
  let before := firstn pos doc in
  let lineno := S (count_occ N.eq_dec before 10%N) in
  let after_newline :=
    (fix go (l : str) (col : nat) : nat :=
       match l with
       | [] => col
       | c :: l' => go l' (if (c =? 10)%N then 0 else S col)
       end) before 0 in
  let colno := (pos - length before) + S after_newline in
  msg ++ u ": line " ++ Str.of_nat lineno ++ u " column " ++ Str.of_nat colno
      ++ u " (char " ++ Str.of_nat pos ++ u ")".

Definition decode_error (msg doc : str) (pos : nat) : exn :=
  Exn JSONDecodeError (errmsg msg doc pos).

(** [json.loads(s)] for a [str]. *)
Definition loads (s : str) : outcome pyval :=
  if next_is 65279%N s then
    Raise (decode_error (u "Unexpected UTF-8 BOM (decode using utf-8-sig)") s 0)
  else
    let (s0, i0) := skip_ws s 0 in
    match scan_once (3 * length s + 1) s0 i0 with
    | Stop i => Raise (decode_error (u "Expecting value") s i)
    | Err m p => Raise (decode_error m s p)
    | Fail e => Raise e
    | Got obj s1 e1 =>
        let (s2, e2) := skip_ws s1 e1 in
        match s2 with
        | [] => Ok obj
        | _ :: _ => Raise (decode_error (u "Extra data") s e2)
        end
    end.

End Json.

(* ================================================================== *)
(** * Pillow images

    An image is its size and its pixels in row-major order; an image object
    lives in a store and is passed by reference.  [crop] follows
    [Image.crop]: a box whose right or lower edge lies before the left or
    upper one is refused, otherwise a new image of the size of the box is
    created, filled with zero where the box leaves the source. *)

Module PIL.

Definition pixel := N.

Record Image := MkImage { width : Z; height : Z; data : list pixel }.

Definition size (im : Image) : Z * Z := (width im, height im).

(** The invariant of an image object. *)
Definition well_formed (im : Image) : Prop :=
  (0 <= width im)%Z /\ (0 <= height im)%Z /\
  length (data im) = Z.to_nat (width im * height im).

Definition inside (im : Image) (x y : Z) : bool :=
  ((0 <=? x) && (x <? width im) && (0 <=? y) && (y <? height im))%Z.

(** [im.getpixel((x, y))], zero outside the image. *)
Definition getpixel (im : Image) (x y : Z) : pixel :=
  if inside im x y then nth (Z.to_nat (y * width im + x)) (data im) 0%N
  else 0%N.

Definition box := (Z * Z * Z * Z)%type.

Definition crop_data (im : Image) (x0 y0 x1 y1 : Z) : list pixel :=
  flat_map
    (fun j =>
       map (fun i => getpixel im (x0 + Z.of_nat i) (y0 + Z.of_nat j))
           (seq 0 (Z.to_nat (x1 - x0))))
    (seq 0 (Z.to_nat (y1 - y0))).

(** [im.crop(b)] with [b = (left, upper, right, lower)]. *)
Definition crop (im : Image) (b : box) : outcome Image :=
  let '(x0, y0, x1, y1) := b in
  if (x1 <? x0)%Z then
    Raise (Exn ValueError (u "Coordinate 'right' is less than 'left'"))
  else if (y1 <? y0)%Z then
    Raise (Exn ValueError (u "Coordinate 'lower' is less than 'upper'"))
  else
    Ok (MkImage (x1 - x0) (y1 - y0) (crop_data im x0 y0 x1 y1)).

End PIL.

(* ================================================================== *)
(** * The program state and its effects *)

Definition ref := nat.
Definition bytes := list N.

(** The calls the program makes into its libraries, in the order made. *)
Inductive event :=
| EvCrop (image : ref) (b : PIL.box)
| EvConfigure (api_key : str)
| EvSave (image : ref)
| EvGenerativeModel (model_name : str)
| EvGenerateContent (prompt : str) (mime_type : str) (payload : bytes)
| EvText.

(** The libraries behind the adapter: the Gemini client, whose calls may
    change the outside world [W], and the PNG encoder of Pillow. *)
Record library (W Model Response : Type) := Library
  { genai_configure : str -> W -> outcome unit * W;
    genai_GenerativeModel : str -> W -> outcome Model * W;
    generate_content : Model -> str -> str -> bytes -> W
                       -> outcome Response * W;
    response_text : Response -> outcome str;
    save_png : PIL.Image -> outcome bytes }.

Section State.

Variable W : Type.

Record state := State
  { images : list PIL.Image;   (* the image objects, by reference *)
    world : W;
    trace : list event }.

(** A computation that may raise; the state it leaves survives a raise. *)
Definition M (A : Type) := state -> outcome A * state.

Definition ret {A} (a : A) : M A := fun s => (Ok a, s).

Definition raise {A} (e : exn) : M A := fun s => (Raise e, s).

Definition bind {A B} (c : M A) (k : A -> M B) : M B :=
  fun s =>
    match c s with
    | (Ok a, s') => k a s'
    | (Raise e, s') => (Raise e, s')
    end.

(** [try: c  except Exception as e: handler(e)] *)
Definition try_except {A} (c : M A) (handler : exn -> M A) : M A :=
  fun s =>
    match c s with
    | (Ok a, s') => (Ok a, s')
    | (Raise e, s') => handler e s'
    end.

Definition lift {A} (o : outcome A) : M A := fun s => (o, s).

Definition log (ev : event) : M unit :=
  fun s => (Ok tt, State (images s) (world s) (trace s ++ [ev])).

(** A library call that acts on the outside world. *)
Definition call {A} (f : W -> outcome A * W) : M A :=
  fun s =>
    let (r, w) := f (world s) in
    (r, State (images s) w (trace s)).

(** Reading an image object. *)
Definition deref (image : ref) : M PIL.Image :=
  fun s =>
    match nth_error (images s) image with
    | Some im => (Ok im, s)
    | None => (Raise (Exn Exception (u "no such object")), s)
    end.

(** Creating an image object. *)
Definition alloc (im : PIL.Image) : M ref :=
  fun s => (Ok (length (images s)),
            State (images s ++ [im]) (world s) (trace s)).

End State.

Arguments ret {W A} a.
Arguments raise {W A} e.
Arguments lift {W A} o.
Arguments log {W} ev.
Arguments call {W A} f.
Arguments deref {W} image.
Arguments alloc {W} im.

Declare Scope monad_scope.
Delimit Scope monad_scope with monad.
Notation "x <- c ;; k" := (bind c (fun x => k))
  (at level 61, c at next level, right associativity) : monad_scope.
Notation "c ;; k" := (bind c (fun _ => k))
  (at level 61, right associativity) : monad_scope.

(* ================================================================== *)
(** * questionnaire_analyzer.py *)

Open Scope monad_scope.

(** A source literal of several lines. *)
Definition text (lines : list string) : str := u (String.concat nl lines).

(** [BBOX_COORDINATES], in the order of the literal. *)
Definition BBOX_COORDINATES : list (str * list Z) :=
  [(u "A", [47; 156; 880; 499]);
   (u "B", [47; 504; 880; 902]);
   (u "C", [47; 906; 881; 1083]);
   (u "D", [45; 1083; 320; 1200])]%Z.

(** [x1, y1, x2, y2 = bbox] on a sequence of another length. *)
Definition unpack_error (n : nat) : exn :=
  Exn ValueError
    (if n <? 4 then
       u "not enough values to unpack (expected 4, got " ++ Str.of_nat n
         ++ u ")"
     else u "too many values to unpack (expected 4)").

(** [image.crop(b)] on an image object: a new object is created. *)
Definition Image_crop {W} (image : ref) (b : PIL.box) : M W ref :=
  log (EvCrop image b) ;;
  im <- deref image ;;
  cropped <- lift (PIL.crop im b) ;;
  alloc cropped.

Definition crop_image_by_bbox {W} (image : ref) (bbox : list Z) : M W ref :=
  match bbox with
  | [x1; y1; x2; y2] => Image_crop image (x1, y1, x2, y2)
  | _ => raise (unpack_error (length bbox))
  end.

(** The two patterns of [extract_json_from_response], both searched with
    [re.DOTALL]:  ```json\s*(.*?)\s*```  and  \{.*\}  *)
Definition fenced_re : Re.pattern :=
  Re.lit "```json"
  ++ [Re.Star true Re.CSpace; Re.Open1; Re.Star false Re.CAny; Re.Close1;
      Re.Star true Re.CSpace]
  ++ Re.lit "```".

Definition brace_re : Re.pattern :=
  Re.lit "{" ++ [Re.Star true Re.CAny] ++ Re.lit "}".

(** The opening fence with its tag, the closing fence, and the part of
    [fenced_re] after the tag. *)
Definition tag : str := u "```json".
Definition fence : str := u "```".

Definition after_tag : Re.pattern :=
  [Re.Star true Re.CSpace; Re.Open1; Re.Star false Re.CAny; Re.Close1;
   Re.Star true Re.CSpace] ++ Re.lit "```".

(** [response_text[:500] + "..." if len(response_text) > 500
     else response_text] *)
Definition raw_response (response_text : str) : str :=
  if 500 <? length response_text then firstn 500 response_text ++ u "..."
  else response_text.

(** The dictionary returned when nothing parses. *)
Definition parse_failure (response_text : str) : pyval :=
  PDict [(u "error", PStr (u "JSON解析エラー"));
         (u "raw_response", PStr (raw_response response_text))].

Section Extractor.

Variable json_loads : str -> outcome pyval.

(** [try: return json.loads(t)  except json.JSONDecodeError: otherwise] *)
Definition try_loads (t : str) (otherwise : outcome pyval) : outcome pyval :=
  match json_loads t with
  | Ok v => Ok v
  | Raise e => if is_JSONDecodeError e then otherwise else Raise e
  end.

Definition extract_json_from_response (response_text : str)
  : outcome pyval :=
  try_loads response_text
    (let json_match := Re.search fenced_re response_text in
     let after_fenced :=
       let brace_match := Re.search brace_re response_text in
       let after_brace := Ok (parse_failure response_text) in
       match brace_match with
       | Some m => try_loads (Re.group0 m) after_brace
       | None => after_brace
       end in
     match json_match with
     | Some m => try_loads (Re.group1 m) after_fenced
     | None => after_fenced
     end).

End Extractor.

Definition prompt_A : str :=
  text
    ["";
     "            この画像はアンケートの「あなたの仕事について」のセクションです。";
     "            各質問項目について、どの選択肢（そうだ、まあそうだ、ややちがう、ちがう）にチェックが入っているかを読み取ってください。";
     "";
     "            重要: 必ず以下のJSON形式で回答してください。他の説明は不要です。";
     "";
     "            {";
     "                " ++ q "section" ++ ": " ++ q "A" ++ ",";
     "                " ++ q "title" ++ ": " ++ q "あなたの仕事について" ++ ",";
     "                " ++ q "questions" ++ ": [";
     "                    {";
     "                        " ++ q "number" ++ ": 1,";
     "                        " ++ q "question" ++ ": " ++ q "非常にたくさんの仕事をしなければならない" ++ ",";
     "                        " ++ q "answer" ++ ": " ++ q "そうだ";
     "                    }";
     "                ]";
     "            }";
     "            "]%string.

Definition prompt_B : str :=
  text
    ["";
     "            この画像はアンケートの「最近1か月間のあなたの状態について」のセクションです。";
     "            各質問項目について、どの選択肢（ほとんどいつもあった、しばしばあった、ときどきあった、ほとんどなかった）にチェックが入っているかを読み取ってください。";
     "";
     "            重要: 必ず以下のJSON形式で回答してください。他の説明は不要です。";
     "";
     "            {";
     "                " ++ q "section" ++ ": " ++ q "B" ++ ",";
     "                " ++ q "title" ++ ": " ++ q "最近1か月間のあなたの状態について" ++ ",";
     "                " ++ q "questions" ++ ": [";
     "                    {";
     "                        " ++ q "number" ++ ": 1,";
     "                        " ++ q "question" ++ ": " ++ q "活気がわいてくる" ++ ",";
     "                        " ++ q "answer" ++ ": " ++ q "ほとんどなかった";
     "                    }";
     "                ]";
     "            }";
     "            "]%string.

Definition prompt_C : str :=
  text
    ["";
     "            この画像はアンケートの「あなたの周りの方々について」のセクションです。";
     "            各質問項目について、どの選択肢（非常に、かなり、多少、ない、全くない）にチェックが入っているかを読み取ってください。";
     "";
     "            重要: 必ず以下のJSON形式で回答してください。他の説明は不要です。";
     "";
     "            {";
     "                " ++ q "section" ++ ": " ++ q "C" ++ ",";
     "                " ++ q "title" ++ ": " ++ q "あなたの周りの方々について" ++ ",";
     "                " ++ q "questions" ++ ": [";
     "                    {";
     "                        " ++ q "number" ++ ": 1,";
     "                        " ++ q "question" ++ ": " ++ q "上司" ++ ",";
     "                        " ++ q "answer" ++ ": " ++ q "非常に";
     "                    }";
     "                ]";
     "            }";
     "            "]%string.

Definition prompt_D : str :=
  text
    ["";
     "            この画像はアンケートの「満足度について」のセクションです。";
     "            各質問項目について、どの選択肢（満足、まあ満足、やや不満足、不満足）にチェックが入っているかを読み取ってください。";
     "";
     "            重要: 必ず以下のJSON形式で回答してください。他の説明は不要です。";
     "";
     "            {";
     "                " ++ q "section" ++ ": " ++ q "D" ++ ",";
     "                " ++ q "title" ++ ": " ++ q "満足度について" ++ ",";
     "                " ++ q "questions" ++ ": [";
     "                    {";
     "                        " ++ q "number" ++ ": 1,";
     "                        " ++ q "question" ++ ": " ++ q "仕事に満足だ" ++ ",";
     "                        " ++ q "answer" ++ ": " ++ q "満足";
     "                    }";
     "                ]";
     "            }";
     "            "]%string.

(** The dictionary [prompts] of [analyze_section_with_gemini]. *)
Definition prompts : list (str * str) :=
  [(u "A", prompt_A); (u "B", prompt_B); (u "C", prompt_C);
   (u "D", prompt_D)].

Definition missing_key_error : pyval :=
  PDict [(u "error", PStr (u "Gemini APIキーが設定されていません"))].

(** [{"error": f"Gemini API エラー: {str(e)}"}] *)
Definition api_error (e : exn) : pyval :=
  PDict [(u "error", PStr (u "Gemini API エラー: " ++ exn_str e))].

Section Adapter.

Variables W Model Response : Type.
Variable lib : library W Model Response.
Variable json_loads : str -> outcome pyval.
(** The builtin [repr] on a string, the text of a [KeyError]. *)
Variable py_repr : str -> str.

(** [prompts[section_name]] *)
Definition prompts_getitem (section_name : str) : outcome str :=
  match find (fun kv => Str.eqb (fst kv) section_name) prompts with
  | Some kv => Ok (snd kv)
  | None => Raise (Exn KeyError (py_repr section_name))
  end.

(** The body of the [try] block, from [genai.configure] on. *)
Definition call_gemini (image : ref) (section_name api_key model_name : str)
  : M W pyval :=
  log (EvConfigure api_key) ;;
  call (genai_configure lib api_key) ;;
  log (EvSave image) ;;
  im <- deref image ;;
  img_byte_arr <- lift (save_png lib im) ;;
  log (EvGenerativeModel model_name) ;;
  model <- call (genai_GenerativeModel lib model_name) ;;
  prompt <- lift (prompts_getitem section_name) ;;
  log (EvGenerateContent prompt (u "image/png") img_byte_arr) ;;
  response <- call (generate_content lib model prompt (u "image/png")
                                     img_byte_arr) ;;
  log EvText ;;
  response_text <- lift (response_text lib response) ;;
  result <- lift (extract_json_from_response json_loads response_text) ;;
  ret result.

(** [api_key] is [None] when no key was given; [not api_key] holds for
    [None] and for the empty string. *)
Definition analyze_section_with_gemini
  (image : ref) (section_name : str) (api_key : option str)
  (model_name : str) : M W pyval :=
  match api_key with
  | None | Some [] => ret missing_key_error
  | Some key =>
      try_except (call_gemini image section_name key model_name)
                 (fun e => ret (api_error e))
  end.

End Adapter.

(** Sequencing of steps that may raise but touch no state. *)
Definition and_then {A B} (o : outcome A) (k : A -> outcome B) : outcome B :=
  match o with
  | Ok a => k a
  | Raise e => Raise e
  end.

(** [type(v).__name__] *)
Definition type_name (v : pyval) : str :=
  match v with
  | PNone => u "NoneType"
  | PBool _ => u "bool"
  | PInt _ => u "int"
  | PFloat _ => u "float"
  | PStr _ => u "str"
  | PList _ => u "list"
  | PDict _ => u "dict"
  end.

(** [k in v] for a string [k]: key of a dict, element of a list, substring
    of a string; the other values are not iterable. *)
Definition py_in (k : str) (v : pyval) : outcome bool :=
  match v with
  | PDict d => Ok (Dict.mem k d)
  | PList l =>
      Ok (existsb (fun x => match x with
                            | PStr s => Str.eqb s k
                            | _ => false
                            end) l)
  | PStr s => Ok (Str.contains k s)
  | _ =>
      Raise (Exn TypeError
               (u "argument of type '" ++ type_name v
                  ++ u "' is not iterable"))
  end.

Section Main.

Variables W Model Response : Type.
Variable lib : library W Model Response.
Variable json_loads : str -> outcome pyval.
Variable py_repr : str -> str.

(** [v[k]] for a string [k]. *)
Definition py_getitem (v : pyval) (k : str) : outcome pyval :=
  match v with
  | PDict d =>
      match Dict.get d k with
      | Some x => Ok x
      | None => Raise (Exn KeyError (py_repr k))
      end
  | PList _ =>
      Raise (Exn TypeError
               (u "list indices must be integers or slices, not str"))
  | PStr _ =>
      Raise (Exn TypeError (u "string indices must be integers, not 'str'"))
  | _ =>
      Raise (Exn TypeError
               (u "'" ++ type_name v ++ u "' object is not subscriptable"))
  end.

(** The display of one result in [main] (from [if "error" in result:] to
    the end of the loop body).  The Streamlit calls draw on the page and
    are left out; what remains are the tests and subscripts on [result],
    which may raise. *)
Definition show_result (result : pyval) : outcome unit :=
  and_then (py_in (u "error") result) (fun has_error =>
  if has_error : bool then
    and_then (py_getitem result (u "error")) (fun _ =>
    and_then (py_in (u "raw_response") result) (fun has_raw =>
    if has_raw : bool then
      and_then (py_getitem result (u "raw_response")) (fun _ => Ok tt)
    else Ok tt))
  else Ok tt).

(** The loop [for section, bbox in BBOX_COORDINATES.items()] of [main],
    started with the dictionary [results]. *)
Fixpoint main_loop (items : list (str * list Z)) (image : ref)
  (api_key : option str) (model_name : str) (results : Dict.dict)
  : M W Dict.dict :=
  match items with
  | [] => ret results
  | (section, bbox) :: items' =>
      cropped_image <- crop_image_by_bbox image bbox ;;
      result <- analyze_section_with_gemini lib json_loads py_repr
                  cropped_image section api_key model_name ;;
      let results := Dict.set results section result in
      lift (show_result result) ;;
      main_loop items' image api_key model_name results
  end.

(** What [main] does when the button is pressed: nothing without an API
    key, otherwise [results = {}], the loop, and the aggregate [results]
    that is shown and offered for download. *)
Definition main (image : ref) (api_key : option str) (model_name : str)
  : M W (option Dict.dict) :=
  match api_key with
  | None | Some [] => ret None
  | Some _ =>
      results <- main_loop BBOX_COORDINATES image api_key model_name [] ;;
      ret (Some results)
  end.

(** An entry of the aggregate that is the result of a call of the
    adapter for the region it is filed under. *)
Definition adapter_result (api_key : option str) (model_name : str)
  (entry : str * pyval) : Prop :=
  exists cropped_image s s',
    analyze_section_with_gemini lib json_loads py_repr cropped_image
      (fst entry) api_key model_name s
    = (Ok (snd entry), s').

End Main.

(** The number of calls of [generate_content] in a trace. *)
Definition remote_calls (t : list event) : nat :=
  length (filter (fun ev => match ev with
                            | EvGenerateContent _ _ _ => true
                            | _ => false
                            end) t).

(* ================================================================== *)
(** * [json.dumps]

    [json.dumps(obj, indent=2, ensure_ascii=False)] of CPython 3.11, which
    [main] applies to the aggregate for the download: with an indent the
    encoder is the one of [json/encoder.py] ([_make_iterencode]), the item
    separator is a comma and the key separator a colon and a space.  The
    text of a float is [float.__repr__] of its value, which is left to the
    parameter [floatstr]; [int.__repr__] refuses more than
    [sys.get_int_max_str_digits()] digits with a [ValueError]. *)

Module Encoder.

Definition hex_char (n : N) : char :=
  if (n <? 10)%N then (48 + n)%N else (87 + n)%N.

(** [ESCAPE_DCT] on a character that [ESCAPE] matches, the character
    itself otherwise. *)
Definition escape (c : char) : str :=
  if (c =? Json.backslash)%N then [Json.backslash; Json.backslash]
  else if (c =? Json.quote)%N then [Json.backslash; Json.quote]
  else if (c =? 8)%N then [Json.backslash; Json.ch "b"]
  else if (c =? 12)%N then [Json.backslash; Json.ch "f"]
  else if (c =? 10)%N then [Json.backslash; Json.ch "n"]
  else if (c =? 13)%N then [Json.backslash; Json.ch "r"]
  else if (c =? 9)%N then [Json.backslash; Json.ch "t"]
  else if (c <? 32)%N then
    [Json.backslash; Json.ch "u"; Json.ch "0"; Json.ch "0";
     hex_char (c / 16); hex_char (c mod 16)]
  else [c].

(** [encode_basestring(s)] *)
Definition encode_basestring (s : str) : str :=
  Json.quote :: flat_map escape s ++ [Json.quote].

Fixpoint uint_chars (d : Decimal.uint) : str :=
  match d with
  | Decimal.Nil => []
  | Decimal.D0 d => 48%N :: uint_chars d
  | Decimal.D1 d => 49%N :: uint_chars d
  | Decimal.D2 d => 50%N :: uint_chars d
  | Decimal.D3 d => 51%N :: uint_chars d
  | Decimal.D4 d => 52%N :: uint_chars d
  | Decimal.D5 d => 53%N :: uint_chars d
  | Decimal.D6 d => 54%N :: uint_chars d
  | Decimal.D7 d => 55%N :: uint_chars d
  | Decimal.D8 d => 56%N :: uint_chars d
  | Decimal.D9 d => 57%N :: uint_chars d
  end.

(** [int.__repr__(z)] *)
Definition intstr (z : Z) : outcome str :=
  let (sign, d) :=
    match Z.to_int z with
    | Decimal.Pos d => ([], uint_chars d)
    | Decimal.Neg d => ([Json.ch "-"], uint_chars d)
    end in
  if Json.int_max_str_digits <? length d then
    Raise (Exn ValueError
             (u ("Exceeds the limit (4300 digits) for integer string "
                 ++ "conversion; use sys.set_int_max_str_digits() to "
                 ++ "increase the limit")))
  else Ok (sign ++ d).

(** The chunks of a list of steps that may raise, up to the first that
    does. *)
Fixpoint sequence {A} (l : list (outcome A)) : outcome (list A) :=
  match l with
  | [] => Ok []
  | o :: l' =>
      and_then o (fun a => and_then (sequence l') (fun r => Ok (a :: r)))
  end.

(** [newline_indent] at a nesting level, for [indent=2]. *)
Definition newline_indent (level : nat) : str :=
  10%N :: repeat 32%N (2 * level).

(** The text of a non-empty container at nesting level [level]: the
    items, each on a line of its own one level deeper, between the
    brackets. *)
Definition container (open_ close : char) (level : nat) (items : list str)
  : str :=
  [open_]
  ++ concat (map (fun '(first, item) =>
                    (if first : bool then newline_indent (S level)
                     else Json.ch "," :: newline_indent (S level)) ++ item)
               (combine (true :: repeat false (length items)) items))
  ++ newline_indent level ++ [close].

Section Iterencode.

(** [float.__repr__] of the float read from a lexeme ([NaN], [Infinity]
    and [-Infinity] for the values that are no numbers). *)
Variable floatstr : str -> str.

(** [_iterencode(o, _current_indent_level)], its chunks joined. *)
Fixpoint iterencode (o : pyval) (level : nat) : outcome str :=
  match o with
  | PStr s => Ok (encode_basestring s)
  | PNone => Ok (u "null")
  | PBool true => Ok (u "true")
  | PBool false => Ok (u "false")
  | PInt z => intstr z
  | PFloat lexeme => Ok (floatstr lexeme)
  | PList [] => Ok (u "[]")
  | PList lst =>
      and_then
        (sequence (map (fun value => iterencode value (S level)) lst))
        (fun items => Ok (container (Json.ch "[") (Json.ch "]") level items))
  | PDict [] => Ok (u "{}")
  | PDict dct =>
      and_then
        (sequence
           (map (fun '(key, value) =>
                   and_then (iterencode value (S level)) (fun chunk =>
                   Ok (encode_basestring key ++ u ": " ++ chunk)))
                dct))
        (fun items => Ok (container (Json.ch "{") (Json.ch "}") level items))
  end.

(** [json.dumps(obj, indent=2, ensure_ascii=False)] *)
Definition dumps (obj : pyval) : outcome str := iterencode obj 0.

End Iterencode.

(** What the decoder gives back unchanged: values without a float, with
    integers that [int.__repr__] accepts, and with dictionaries whose keys
    are distinct, as the keys of a Python [dict] are. *)
Fixpoint distinct (keys : list str) : bool :=
  match keys with
  | [] => true
  | k :: keys' => negb (existsb (Str.eqb k) keys') && distinct keys'
  end.

Fixpoint plain (o : pyval) : bool :=
  match o with
  | PFloat _ => false
  | PInt z => match intstr z with Ok _ => true | Raise _ => false end
  | PList lst => forallb plain lst
  | PDict dct =>
      distinct (map fst dct) && forallb (fun '(_, value) => plain value) dct
  | _ => true
  end.

End Encoder.

(** Shapes of the texts that the encoder writes, for the comparison
    with what the decoder reads. *)

(** A decimal numeral as [int.__repr__] writes it: one digit at least and
    no leading zero. *)
Definition canonical (d : Decimal.uint) : Prop :=
  match d with
  | Decimal.Nil => False
  | Decimal.D0 Decimal.Nil => True
  | Decimal.D0 _ => False
  | _ => True
  end.

(** What may follow a number without being read as part of it. *)
Definition ends_number (rest : str) : Prop :=
  match rest with
  | [] => True
  | c :: _ => c = Json.ch "," \/ c = 10%N \/ c = Json.ch "]" \/ c = Json.ch "}"
  end.

(** A text that does not begin with JSON white space. *)
Definition no_space_first (s : str) : Prop :=
  match s with
  | [] => True
  | c :: _ => Json.is_ws c = false
  end.

(** The first character of an encoded value. *)
Definition value_first (t : str) : Prop :=
  match t with
  | [] => False
  | c :: _ =>
      Json.is_ws c = false /\ c <> Json.ch "]" /\ c <> 65279%N
      /\ c <> Json.ch "}"
  end.

(* ================================================================== *)
(** * A scripted library, to run the program

    The world is the list of the outcomes the successive calls of
    [generate_content] will have; a response is its text, and the PNG
    payload of an image is taken to be its pixels. *)

Module Script.

Definition world := list (outcome str).

Definition generate (w : world) : outcome str * world :=
  match w with
  | o :: w' => (o, w')
  | [] => (Raise (Exn Exception (u "no response left")), [])
  end.

Definition lib : library world str str :=
  {| genai_configure := fun _ w => (Ok tt, w);
     genai_GenerativeModel := fun name w => (Ok name, w);
     generate_content := fun _ _ _ _ w => generate w;
     response_text := fun r => Ok r;
     save_png := fun im => Ok (PIL.data im) |}.

(** [repr] of a string that needs no escape. *)
Definition repr (s : str) : str := u "'" ++ s ++ u "'".

(** A 3 x 2 image. *)
Definition image0 : PIL.Image := PIL.MkImage 3 2 [1; 2; 3; 4; 5; 6]%N.

Definition start (w : world) : state world := State [image0] w [].

Definition analyze (image : ref) (section_name : str) (api_key : option str)
  (model_name : str) : M world pyval :=
  analyze_section_with_gemini lib Json.loads repr image section_name api_key
    model_name.

(** A response that is a structured record and carries an [error] too. *)
Definition both_shapes : string :=
  "{" ++ q "section" ++ ": " ++ q "A" ++ ", " ++ q "title" ++ ": " ++ q "t"
      ++ ", " ++ q "questions" ++ ": [], " ++ q "error" ++ ": " ++ q "e"
      ++ "}".

(** A response that is a JSON object, and what it decodes to. *)
Definition sample_object : string := "{" ++ q "a" ++ ":1}".
Definition sample_value : pyval := PDict [(u "a", PInt 1)].

Definition run_main (api_key : option str) (w : world)
  : outcome (option Dict.dict) * state world :=
  main lib Json.loads repr 0 api_key (u "gemini-2.5-pro") (start w).

End Script.

(* ================================================================== *)
(** * The specification's descriptions

    Definitions that follow the words of the specification, to be compared
    with what the program computes. *)

Module Spec.

(** The text before and after the first occurrence of [c]. *)
Fixpoint split_first (c : char) (s : str) : option (str * str) :=
  match s with
  | [] => None
  | x :: s' =>
      if (x =? c)%N then Some ([], s')
      else
        match split_first c s' with
        | Some (pre, post) => Some (x :: pre, post)
        | None => None
        end
  end.

(** The text before and after the last occurrence of [c]. *)
Fixpoint split_last (c : char) (s : str) : option (str * str) :=
  match s with
  | [] => None
  | x :: s' =>
      match split_last c s' with
      | Some (pre, post) => Some (x :: pre, post)
      | None => if (x =? c)%N then Some ([], s') else None
      end
  end.

(** The text before and after the first occurrence of the string [p]. *)
Fixpoint find_sub (p s : str) : option (str * str) :=
  if starts_with p s then Some ([], skipn (length p) s)
  else
    match s with
    | [] => None
    | x :: s' =>
        match find_sub p s' with
        | Some (pre, post) => Some (x :: pre, post)
        | None => None
        end
    end.

(** Removal of leading and trailing white space. *)
Fixpoint lstrip (s : str) : str :=
  match s with
  | c :: s' => if Re.isspace c then lstrip s' else s
  | [] => []
  end.

Fixpoint rstrip (s : str) : str :=
  match s with
  | c :: s' =>
      match rstrip s' with
      | [] => if Re.isspace c then [] else [c]
      | r => c :: r
      end
  | [] => []
  end.

Definition strip (s : str) : str := rstrip (lstrip s).

(** "a fenced code block specifically tagged as JSON, using the first such
    match; extract its inner text": the text between the first opening
    fence with its tag and the next closing fence, without the white space
    around it. *)
Definition fenced_block (text : str) : option str :=
  match find_sub (u "```json") text with
  | None => None
  | Some (_, body) =>
      match find_sub (u "```") body with
      | None => None
      | Some (inner, _) => Some (strip inner)
      end
  end.

(** "the first [{] through the last [}]". *)
Definition brace_span (text : str) : option str :=
  match split_first (Json.ch "{") text with
  | None => None
  | Some (_, after_open) =>
      match split_last (Json.ch "}") after_open with
      | None => None
      | Some (mid, _) => Some (Json.ch "{" :: mid ++ [Json.ch "}"])
      end
  end.

(** The texts that the extractor may hand to [json.loads]: the whole
    text, the inner text of the fenced block, the brace span. *)
Definition candidates (text : str) : list str :=
  text
  :: match fenced_block text with Some t => [t] | None => [] end
  ++ match brace_span text with Some t => [t] | None => [] end.

Section Attempts.

Variable json_loads : str -> outcome pyval.

(** [json.loads(t)] raises [JSONDecodeError]. *)
Definition decode_fails (t : str) : Prop :=
  exists e, json_loads t = Raise e /\ is_JSONDecodeError e = true.

(** A strategy fails when it finds no candidate text or when its candidate
    does not decode. *)
Definition strategy_fails (candidate : option str) : Prop :=
  match candidate with
  | None => True
  | Some t => decode_fails t
  end.

(** On the texts of [l], [json.loads] raises nothing but
    [JSONDecodeError]. *)
Definition decode_errors_only (l : list str) : Prop :=
  forall t, In t l ->
            forall e, json_loads t = Raise e -> is_JSONDecodeError e = true.

(** Every value that [json.loads] returns is a dictionary. *)
Definition decodes_dicts : Prop :=
  forall t v, json_loads t = Ok v -> exists d, v = PDict d.

End Attempts.

(** The two shapes of an analysis result: the structured record
    [{section, title, questions: [{number, question, answer}]}] and the
    error record, a dictionary with the key [error]. *)
Definition has_keys (ks : list string) (d : Dict.dict) : bool :=
  forallb (fun k => Dict.mem (u k) d) ks.

Definition is_question (v : pyval) : bool :=
  match v with
  | PDict d => has_keys ["number"; "question"; "answer"]%string d
  | _ => false
  end.

Definition is_structured (v : pyval) : bool :=
  match v with
  | PDict d =>
      has_keys ["section"; "title"; "questions"]%string d
      && match Dict.get d (u "questions") with
         | Some (PList l) => forallb is_question l
         | _ => false
         end
  | _ => false
  end.

Definition is_error_record (v : pyval) : bool :=
  match v with
  | PDict d => Dict.mem (u "error") d
  | _ => false
  end.

(** "Exactly one of the two shapes is populated". *)
Definition one_shape (v : pyval) : bool :=
  xorb (is_structured v) (is_error_record v).

(** The title and the answer choices of each region.  The program holds
    them only inside the prompt of the region: the title is the [title] of
    the example object, the choices are those listed between the
    parentheses of the instruction. *)
Definition region_title : list (string * string) :=
  [("A", "あなたの仕事について");
   ("B", "最近1か月間のあなたの状態について");
   ("C", "あなたの周りの方々について");
   ("D", "満足度について")]%string.

Definition region_vocabulary : list (string * list string) :=
  [("A", ["そうだ"; "まあそうだ"; "ややちがう"; "ちがう"]);
   ("B", ["ほとんどいつもあった"; "しばしばあった"; "ときどきあった";
          "ほとんどなかった"]);
   ("C", ["非常に"; "かなり"; "多少"; "ない"; "全くない"]);
   ("D", ["満足"; "まあ満足"; "やや不満足"; "不満足"])]%string.

End Spec.

(* ================================================================== *)
(** * Properties *)

Unset Implicit Arguments.
Arguments Re.isspace : simpl never.

(** ** The decoder never runs out of fuel *)

Ltac case_if :=
  match goal with
  | |- context [if ?b then _ else _] => destruct b eqn:?
  end.

Lemma skip_ws_length s i : length (fst (Json.skip_ws s i)) <= length s.
Proof.
  revert i. induction s as [|c s IH]; intros i; simpl; [lia|].
  destruct (Json.is_ws c); simpl; [|lia].
  specialize (IH (S i)). lia.
Qed.

Lemma digits_length s : length (snd (Json.digits s)) <= length s.
Proof.
  induction s as [|c s IH]; simpl; [lia|].
  destruct (Json.is_digit c); simpl; [|lia].
  destruct (Json.digits s). simpl in *. lia.
Qed.

Lemma number_sign_length s : length (snd (Json.number_sign s)) <= length s.
Proof.
  destruct s as [|c s]; simpl; [lia|]. case_if; simpl; lia.
Qed.

Lemma number_integer_length s d r :
  Json.number_integer s = Some (d, r) -> length r <= length s.
Proof.
  destruct s as [|c s]; simpl; [discriminate|].
  case_if; [intros [= _ <-]; lia|].
  case_if; [|discriminate].
  pose proof (digits_length s) as H. destruct (Json.digits s) as [d' r'].
  intros [= _ <-]. simpl in H. lia.
Qed.

Lemma number_frac_length s : length (snd (Json.number_frac s)) <= length s.
Proof.
  destruct s as [|c s]; simpl; [lia|].
  case_if; [|simpl; lia].
  pose proof (digits_length s) as H. destruct (Json.digits s) as [[|x d] r];
    simpl in *; lia.
Qed.

Lemma number_exp_length s : length (snd (Json.number_exp s)) <= length s.
Proof.
  destruct s as [|c s]; cbn [Json.number_exp]; [simpl; lia|].
  case_if; [|simpl; lia].
  destruct s as [|c2 t].
  - simpl. lia.
  - case_if.
    + pose proof (digits_length t) as H.
      destruct (Json.digits t) as [[|x d] r]; simpl in *; lia.
    + pose proof (digits_length (c2 :: t)) as H.
      destruct (Json.digits (c2 :: t)) as [[|x d] r]; simpl in *; lia.
Qed.

Lemma match_number_length s integer frac exp r :
  Json.match_number s = Some (integer, frac, exp, r) ->
  length r <= length s.
Proof.
  unfold Json.match_number.
  pose proof (number_sign_length s) as H0.
  destruct (Json.number_sign s) as [sign s0]. simpl in H0.
  destruct (Json.number_integer s0) as [[int_part s1]|] eqn:E1;
    [|discriminate].
  apply number_integer_length in E1.
  pose proof (number_frac_length s1) as H2.
  destruct (Json.number_frac s1) as [fr s2]. simpl in H2.
  pose proof (number_exp_length s2) as H3.
  destruct (Json.number_exp s2) as [ex s3]. simpl in H3.
  intros [= _ _ _ <-]. lia.
Qed.

(** The rest that [scanstring] returns is a part of its text. *)
Lemma scanstring_length n :
  forall s end_ begin chunks v r e,
    length s <= n ->
    Json.scanstring s end_ begin chunks = Json.Got v r e ->
    length r <= length s.
Proof.
  induction n as [|n IH]; intros s end_ begin chunks v r e Hn.
  - destruct s; [discriminate | cbn [length] in Hn; lia].
  - destruct s as [|c s1]; [discriminate|].
    cbn [length] in Hn. cbn [Json.scanstring].
    destruct (c =? Json.quote)%N; [intros [= _ <- _]; cbn [length]; lia|].
    destruct (c =? Json.backslash)%N.
    + destruct s1 as [|esc s2]; [discriminate|].
      destruct (esc =? Json.ch "u")%N.
      * destruct s2 as [|a1 [|a2 [|a3 [|a4 [|x s3]]]]]; try discriminate.
        destruct (Json.decode_uXXXX a1 a2 a3 a4) as [uni|]; [|discriminate].
        cbv zeta.
        assert (Hsingle :
          Json.scanstring (x :: s3) (end_ + 6) begin (chunks ++ [uni])
          = Json.Got v r e -> length r <= length (c :: esc :: a1 :: a2 :: a3 :: a4 :: x :: s3)).
        { intros H. apply IH in H; cbn [length] in *; lia. }
        destruct ((55296 <=? uni) && (uni <=? 56319))%N; [|exact Hsingle].
        destruct s3 as [|u2 [|h1 [|h2 [|h3 [|h4 [|y s5]]]]]];
          try exact Hsingle.
        destruct ((x =? Json.backslash) && (u2 =? Json.ch "u"))%N;
          [|exact Hsingle].
        destruct (Json.decode_uXXXX h1 h2 h3 h4) as [uni2|]; [|discriminate].
        destruct ((56320 <=? uni2) && (uni2 <=? 57343))%N; [|exact Hsingle].
        intros H. apply IH in H; cbn [length] in *; lia.
      * destruct (Json.unescape esc); [|discriminate].
        intros H. apply IH in H; cbn [length] in *; lia.
    + destruct (c <? 32)%N; [discriminate|].
      intros H. apply IH in H; cbn [length] in *; lia.
Qed.

Lemma scanstring_rest s end_ begin chunks v r e :
  Json.scanstring s end_ begin chunks = Json.Got v r e ->
  length r <= length s.
Proof. now apply (scanstring_length (length s)). Qed.

Lemma skip_ws_rest s i s' i' :
  Json.skip_ws s i = (s', i') -> length s' <= length s.
Proof. intros H. pose proof (skip_ws_length s i). now rewrite H in *. Qed.

Lemma skipn_rest {A} n (l : list A) : length (skipn n l) <= length l.
Proof. rewrite length_skipn. lia. Qed.

Lemma next_is_length c s : Json.next_is c s = true -> 1 <= length s.
Proof. destruct s; [discriminate | simpl; lia]. Qed.

Lemma got_rest {A} (v v' : A) r r' e e' :
  Json.Got v r e = Json.Got v' r' e' -> r' = r.
Proof. now intros [= _ <- _]. Qed.

Ltac head_if :=
  match goal with
  | |- (if ?b then _ else _) = _ -> _ => destruct b eqn:?
  end.

Ltac rest_of_skip :=
  repeat match goal with
         | |- context [Json.skip_ws ?s ?i] =>
             let H := fresh "Hws" in
             let s' := fresh "s" in
             let i' := fresh "i" in
             destruct (Json.skip_ws s i) as [s' i'] eqn:H;
             apply skip_ws_rest in H
         end.

(** The rest that a scanning function returns is a part of its text. *)
Lemma scan_rest f :
  (forall s i v r e,
      Json.scan_once f s i = Json.Got v r e -> length r <= length s)
  /\ (forall s i v r e,
        Json.JSONObject f s i = Json.Got v r e -> length r <= length s)
  /\ (forall s i p v r e,
        Json.object_loop f s i p = Json.Got v r e -> length r <= length s)
  /\ (forall s i v r e,
        Json.JSONArray f s i = Json.Got v r e -> length r <= length s)
  /\ (forall s i p v r e,
        Json.array_loop f s i p = Json.Got v r e -> length r <= length s).
Proof.
  induction f as [|f (IHs & IHo & IHol & IHa & IHal)].
  - repeat split; intros; discriminate.
  - repeat split.
    + intros s i v r e. cbn [Json.scan_once].
      destruct s as [|c s']; [discriminate|].
      head_if.
      { destruct (Json.scanstring s' (S i) i []) eqn:E; try discriminate.
        intros Hg; apply got_rest in Hg; subst r.
        apply scanstring_rest in E. cbn [length]. lia. }
      head_if; [intros H; apply IHo in H; cbn [length]; lia|].
      head_if; [intros H; apply IHa in H; cbn [length]; lia|].
      repeat (head_if;
              [intros H; apply got_rest in H; subst r; apply skipn_rest|]).
      destruct (Json.match_number (c :: s')) as [[[[integer frac] exp] r0]|]
        eqn:E.
      { apply match_number_length in E.
        destruct (Json.number_value integer frac exp); [|discriminate].
        intros Hg; apply got_rest in Hg; now subst r. }
      repeat (head_if;
              [intros H; apply got_rest in H; subst r; apply skipn_rest|]).
      discriminate.
    + intros s i v r e. cbn [Json.JSONObject].
      head_if.
      { intros H. apply IHol in H. pose proof (skipn_rest 1 s). lia. }
      rest_of_skip.
      head_if.
      { intros Hg; apply got_rest in Hg; subst r. pose proof (skipn_rest 1 s0). lia. }
      head_if; [|discriminate].
      intros H. apply IHol in H. pose proof (skipn_rest 1 s0). lia.
    + intros s i p v r e. cbn [Json.object_loop].
      destruct (Json.scanstring s i (i - 1) []) as [key s1 e1| | |] eqn:E;
        try discriminate.
      apply scanstring_rest in E.
      rest_of_skip. head_if; [discriminate|].
      rest_of_skip. pose proof (skipn_rest 1 s0).
      destruct (Json.scan_once f s2 i1) as [value s4 e4| | |] eqn:E2;
        try discriminate.
      apply IHs in E2. rest_of_skip.
      head_if.
      { intros Hg; apply got_rest in Hg; subst r. pose proof (skipn_rest 1 s3). lia. }
      head_if; [discriminate|].
      rest_of_skip. pose proof (skipn_rest 1 s3).
      head_if; [|discriminate].
      intros H'. apply IHol in H'. pose proof (skipn_rest 1 s5). lia.
    + intros s i v r e. cbn [Json.JSONArray].
      rest_of_skip. head_if.
      { intros Hg; apply got_rest in Hg; subst r. pose proof (skipn_rest 1 s0). lia. }
      intros H. apply IHal in H. lia.
    + intros s i p v r e. cbn [Json.array_loop].
      destruct (Json.scan_once f s i) as [value s1 e1| | |] eqn:E;
        try discriminate.
      apply IHs in E. rest_of_skip.
      head_if.
      { intros Hg; apply got_rest in Hg; subst r. pose proof (skipn_rest 1 s0). lia. }
      head_if; [discriminate|].
      rest_of_skip. pose proof (skipn_rest 1 s0).
      intros H'. apply IHal in H'. lia.
Qed.

Lemma next_is_skipn c s :
  Json.next_is c s = true -> S (length (skipn 1 s)) = length s.
Proof. destruct s; [discriminate | reflexivity]. Qed.

Ltac same_if :=
  match goal with
  | |- (if ?b then _ else _) = (if ?b then _ else _) => destruct b eqn:?
  end.

(** Two amounts of fuel that are both large enough for the text give the
    same result. *)
Lemma scan_fuel f1 :
  forall f2,
    (forall s i,
        3 * length s + 1 <= f1 -> 3 * length s + 1 <= f2 ->
        Json.scan_once f1 s i = Json.scan_once f2 s i)
    /\ (forall s i,
          3 * length s + 3 <= f1 -> 3 * length s + 3 <= f2 ->
          Json.JSONObject f1 s i = Json.JSONObject f2 s i)
    /\ (forall s i p,
          3 * length s + 1 <= f1 -> 3 * length s + 1 <= f2 ->
          Json.object_loop f1 s i p = Json.object_loop f2 s i p)
    /\ (forall s i,
          3 * length s + 3 <= f1 -> 3 * length s + 3 <= f2 ->
          Json.JSONArray f1 s i = Json.JSONArray f2 s i)
    /\ (forall s i p,
          3 * length s + 2 <= f1 -> 3 * length s + 2 <= f2 ->
          Json.array_loop f1 s i p = Json.array_loop f2 s i p).
Proof.
  induction f1 as [|f1 IH]; intros f2.
  - repeat split; intros; lia.
  - destruct f2 as [|f2]; [repeat split; intros; lia|].
    destruct (IH f2) as (IHs & IHo & IHol & IHa & IHal).
    pose proof (scan_rest f2) as (Rs & _).
    repeat split.
    + intros s i H1 H2. cbn [Json.scan_once].
      destruct s as [|c s']; [reflexivity|]. cbn [length] in H1, H2.
      same_if; [reflexivity|].
      same_if; [apply IHo; lia|].
      same_if; [apply IHa; lia|].
      reflexivity.
    + intros s i H1 H2. cbn [Json.JSONObject].
      pose proof (skipn_rest 1 s).
      same_if; [apply IHol; lia|].
      destruct (Json.skip_ws s i) as [s1 e1] eqn:Hws.
      apply skip_ws_rest in Hws. pose proof (skipn_rest 1 s1).
      same_if; [reflexivity|].
      same_if; [apply IHol; lia | reflexivity].
    + intros s i p H1 H2. cbn [Json.object_loop].
      destruct (Json.scanstring s i (i - 1) []) as [key s1 e1| | |] eqn:E;
        try reflexivity.
      apply scanstring_rest in E.
      destruct (Json.skip_ws s1 e1) as [s2 e2] eqn:Hws2.
      apply skip_ws_rest in Hws2.
      destruct (Json.next_is (Json.ch ":") s2) eqn:Hc; [|reflexivity].
      apply next_is_skipn in Hc. cbn [negb].
      destruct (Json.skip_ws (skipn 1 s2) (S e2)) as [s3 e3] eqn:Hws3.
      apply skip_ws_rest in Hws3.
      rewrite (IHs s3 e3) by lia.
      destruct (Json.scan_once f2 s3 e3) as [value s4 e4| | |] eqn:E2;
        try reflexivity.
      apply Rs in E2.
      destruct (Json.skip_ws s4 e4) as [s5 e5] eqn:Hws5.
      apply skip_ws_rest in Hws5. pose proof (skipn_rest 1 s5).
      same_if; [reflexivity|].
      same_if; [reflexivity|].
      destruct (Json.skip_ws (skipn 1 s5) (S e5)) as [s6 e6] eqn:Hws6.
      apply skip_ws_rest in Hws6. pose proof (skipn_rest 1 s6).
      same_if; [apply IHol; lia | reflexivity].
    + intros s i H1 H2. cbn [Json.JSONArray].
      destruct (Json.skip_ws s i) as [s1 e1] eqn:Hws.
      apply skip_ws_rest in Hws.
      same_if; [reflexivity | apply IHal; lia].
    + intros s i p H1 H2. cbn [Json.array_loop].
      rewrite (IHs s i) by lia.
      destruct (Json.scan_once f2 s i) as [value s1 e1| | |] eqn:E;
        try reflexivity.
      apply Rs in E.
      destruct (Json.skip_ws s1 e1) as [s2 e2] eqn:Hws2.
      apply skip_ws_rest in Hws2.
      same_if; [reflexivity|].
      destruct (Json.next_is (Json.ch ",") s2) eqn:Hc; [|reflexivity].
      apply next_is_skipn in Hc. cbn [negb].
      destruct (Json.skip_ws (skipn 1 s2) (S e2)) as [s3 e3] eqn:Hws3.
      apply skip_ws_rest in Hws3.
      apply IHal; lia.
Qed.

(** The fuel that [loads] gives is enough: more fuel changes nothing. *)
Lemma loads_fuel s extra :
  Json.scan_once (3 * length s + 1 + extra)
    (fst (Json.skip_ws s 0)) (snd (Json.skip_ws s 0))
  = Json.scan_once (3 * length s + 1)
      (fst (Json.skip_ws s 0)) (snd (Json.skip_ws s 0)).
Proof.
  pose proof (skip_ws_length s 0).
  apply (proj1 (scan_fuel _ _)); lia.
Qed.

(** ** Splitting a string at a character *)

Lemma split_first_spec c s pre post :
  Spec.split_first c s = Some (pre, post) <->
  s = pre ++ c :: post /\ ~ In c pre.
Proof.
  revert pre post. induction s as [|x s IH]; intros pre post; simpl.
  - split; [discriminate|]. intros [H _]. destruct pre; discriminate.
  - destruct (N.eqb_spec x c) as [->|Hne].
    + split.
      * intros [= <- <-]. split; [reflexivity | intros []].
      * intros [H Hn]. destruct pre as [|y pre]; simpl in H.
        -- injection H as <-. reflexivity.
        -- injection H as <- _. exfalso. apply Hn. now left.
    + destruct (Spec.split_first c s) as [[pre' post']|] eqn:E.
      * split.
        -- intros [= <- <-]. destruct (proj1 (IH pre' post') eq_refl) as [-> Hn].
           split; [reflexivity|]. intros [H|H]; [congruence | tauto].
        -- intros [H Hn]. destruct pre as [|y pre]; simpl in H.
           ++ injection H as H _. congruence.
           ++ injection H as <- H.
              assert (Some (pre', post') = Some (pre, post)) as [= -> ->].
              { apply IH. split; [exact H|]. intros Hi. apply Hn. now right. }
              reflexivity.
      * split; [discriminate|]. intros [H Hn].
        destruct pre as [|y pre]; simpl in H.
        -- injection H as H _. congruence.
        -- injection H as <- H. exfalso.
           assert (None = Some (pre, post)) by
             (apply IH; split; [exact H | intros Hi; apply Hn; now right]).
           discriminate.
Qed.

Lemma split_first_none c s : Spec.split_first c s = None <-> ~ In c s.
Proof.
  induction s as [|x s IH]; simpl.
  - tauto.
  - destruct (N.eqb_spec x c) as [->|Hne].
    + split; [discriminate | intros H; exfalso; apply H; now left].
    + destruct (Spec.split_first c s) as [[pre post]|].
      * split; [discriminate|]. intros H. exfalso.
        assert (Hs : Some (pre, post) = None) by (apply IH; tauto).
        discriminate.
      * split; [|reflexivity]. intros _ [H|H]; [congruence|].
        now apply (proj1 IH).
Qed.

Lemma split_last_none c s : Spec.split_last c s = None <-> ~ In c s.
Proof.
  induction s as [|x s IH]; simpl.
  - tauto.
  - destruct (Spec.split_last c s) as [[pre post]|].
    + split; [discriminate|]. intros H. exfalso.
      assert (Hs : Some (pre, post) = None) by (apply IH; tauto).
      discriminate.
    + destruct (N.eqb_spec x c) as [->|Hne].
      * split; [discriminate | intros H; exfalso; apply H; now left].
      * split; [|reflexivity]. intros _ [H|H]; [congruence|].
        now apply (proj1 IH).
Qed.

Lemma split_last_spec c s pre post :
  Spec.split_last c s = Some (pre, post) <->
  s = pre ++ c :: post /\ ~ In c post.
Proof.
  revert pre post. induction s as [|x s IH]; intros pre post; simpl.
  - split; [discriminate|]. intros [H _]. destruct pre; discriminate.
  - destruct (Spec.split_last c s) as [[pre' post']|] eqn:E.
    + destruct (proj1 (IH pre' post') eq_refl) as [Hs Hn].
      split.
      * intros [= <- <-]. split; [now rewrite Hs | exact Hn].
      * intros [H Hp]. destruct pre as [|y pre]; simpl in H.
        -- injection H as _ H. exfalso. apply Hp. rewrite <- H, Hs.
           apply in_or_app. right. now left.
        -- injection H as <- H.
           assert (Some (pre', post') = Some (pre, post)) as [= -> ->]
             by (apply IH; tauto).
           reflexivity.
    + pose proof (proj1 (split_last_none c s) E) as Hnot.
      destruct (N.eqb_spec x c) as [->|Hne].
      * split.
        -- intros [= <- <-]. split; [reflexivity | exact Hnot].
        -- intros [H Hp]. destruct pre as [|y pre]; simpl in H.
           ++ injection H as <-. reflexivity.
           ++ injection H as _ H. exfalso. apply Hnot. rewrite H.
              apply in_or_app. right. now left.
      * split; [discriminate|]. intros [H Hp].
        destruct pre as [|y pre]; simpl in H.
        -- injection H as H _. congruence.
        -- injection H as _ H. exfalso. apply Hnot. rewrite H.
           apply in_or_app. right. now left.
Qed.

(** ** The matcher, one item at a time *)

Lemma match_here_one k p c s i g :
  Re.match_here (Re.One k :: p) (c :: s) i g
  = if Re.cmatch k c then Re.match_here p s (S i) g else None.
Proof. reflexivity. Qed.

Lemma match_here_greedy k p s i g :
  Re.match_here (Re.Star true k :: p) s i g
  = Re.star_greedy k (fun s i => Re.match_here p s i g) s i.
Proof. reflexivity. Qed.

Lemma match_here_lazy k p s i g :
  Re.match_here (Re.Star false k :: p) s i g
  = Re.star_lazy k (fun s i => Re.match_here p s i g) s i.
Proof. reflexivity. Qed.

Lemma search_from_cons p whole c s i :
  Re.search_from p whole (c :: s) i
  = match Re.match_here p (c :: s) i (Re.Marks 0 0) with
    | Some (e, g) => Some (Re.MatchObj whole i e g)
    | None => Re.search_from p whole s (S i)
    end.
Proof. reflexivity. Qed.

(** ** The brace pattern *)

Lemma brace_re_items :
  brace_re = [Re.One (Re.CChar (Json.ch "{")); Re.Star true Re.CAny;
              Re.One (Re.CChar (Json.ch "}"))].
Proof. reflexivity. Qed.

(** A greedy [.*] followed by one character ends at the last occurrence
    of that character. *)
Lemma greedy_any_then_char c g s i :
  Re.star_greedy Re.CAny
    (fun s i => Re.match_here [Re.One (Re.CChar c)] s i g) s i
  = match Spec.split_last c s with
    | Some (mid, _) => Some (i + length mid + 1, g)
    | None => None
    end.
Proof.
  revert i. induction s as [|x s IH]; intros i; simpl.
  - reflexivity.
  - rewrite IH. destruct (Spec.split_last c s) as [[mid post]|].
    + simpl. do 2 f_equal. lia.
    + rewrite (N.eqb_sym c x). destruct (x =? c)%N; simpl.
      * do 2 f_equal. lia.
      * reflexivity.
Qed.

Lemma search_from_brace whole s i :
  Re.search_from brace_re whole s i
  = match Spec.split_first (Json.ch "{") s with
    | None => None
    | Some (pre, after_open) =>
        match Spec.split_last (Json.ch "}") after_open with
        | None => None
        | Some (mid, _) =>
            Some (Re.MatchObj whole (i + length pre)
                    (i + length pre + length mid + 2) (Re.Marks 0 0))
        end
    end.
Proof.
  rewrite brace_re_items.
  revert i. induction s as [|x s IH]; intros i.
  - reflexivity.
  - rewrite search_from_cons, match_here_one, match_here_greedy.
    cbn [Re.cmatch Spec.split_first].
    rewrite (N.eqb_sym (Json.ch "{") x).
    destruct (N.eqb_spec x (Json.ch "{")) as [->|Hne].
    + rewrite greedy_any_then_char.
      destruct (Spec.split_last (Json.ch "}") s) as [[mid post]|] eqn:E.
      * simpl. do 2 f_equal; lia.
      * rewrite IH.
        destruct (Spec.split_first (Json.ch "{") s) as [[pre ao]|] eqn:F;
          [|reflexivity].
        apply split_first_spec in F. destruct F as [-> _].
        destruct (Spec.split_last (Json.ch "}") ao) as [[mid post]|] eqn:G;
          [|reflexivity].
        apply split_last_spec in G. destruct G as [-> _].
        exfalso. apply (proj1 (split_last_none _ _) E).
        apply in_or_app. right. right. apply in_or_app. right. now left.
    + rewrite IH.
      destruct (Spec.split_first (Json.ch "{") s) as [[pre ao]|];
        [|reflexivity].
      destruct (Spec.split_last (Json.ch "}") ao) as [[mid post]|];
        [|reflexivity].
      simpl. do 2 f_equal; lia.
Qed.

(** The brace pattern finds the span the specification describes. *)
Lemma search_brace_span text :
  option_map Re.group0 (Re.search brace_re text) = Spec.brace_span text.
Proof.
  unfold Re.search, Spec.brace_span. rewrite search_from_brace.
  destruct (Spec.split_first (Json.ch "{") text) as [[pre ao]|] eqn:F;
    [|reflexivity].
  destruct (Spec.split_last (Json.ch "}") ao) as [[mid post]|] eqn:G;
    [|reflexivity].
  apply split_first_spec in F. destruct F as [-> _].
  apply split_last_spec in G. destruct G as [-> _].
  simpl. unfold Re.group0, slice. simpl.
  replace (length pre + length mid + 2 - length pre) with (S (length mid + 1))
    by lia.
  rewrite skipn_app, skipn_all, Nat.sub_diag. simpl.
  f_equal. f_equal.
  rewrite firstn_app.
  replace (length mid + 1 - length mid) with 1 by lia.
  rewrite firstn_all2 by lia. reflexivity.
Qed.

(** What the span is, in terms of the text. *)
Lemma brace_span_spec text span :
  Spec.brace_span text = Some span <->
  exists pre mid post,
    text = pre ++ span ++ post /\
    span = Json.ch "{" :: mid ++ [Json.ch "}"] /\
    ~ In (Json.ch "{") pre /\ ~ In (Json.ch "}") post.
Proof.
  unfold Spec.brace_span. split.
  - destruct (Spec.split_first (Json.ch "{") text) as [[pre ao]|] eqn:F;
      [|discriminate].
    destruct (Spec.split_last (Json.ch "}") ao) as [[mid post]|] eqn:G;
      [|discriminate].
    intros [= <-].
    apply split_first_spec in F. destruct F as [-> Hpre].
    apply split_last_spec in G. destruct G as [-> Hpost].
    exists pre, mid, post. repeat split; try assumption.
    simpl. now rewrite <- app_assoc.
  - intros (pre & mid & post & -> & -> & Hpre & Hpost).
    assert (F : Spec.split_first (Json.ch "{")
                  (pre ++ (Json.ch "{" :: mid ++ [Json.ch "}"]) ++ post)
                = Some (pre, mid ++ Json.ch "}" :: post)).
    { apply split_first_spec. split; [|exact Hpre].
      simpl. now rewrite <- app_assoc. }
    rewrite F.
    assert (G : Spec.split_last (Json.ch "}") (mid ++ Json.ch "}" :: post)
                = Some (mid, post)) by (apply split_last_spec; tauto).
    rewrite G. reflexivity.
Qed.

(** ** Prefixes, occurrences and white space *)

Lemma starts_with_spec p s :
  starts_with p s = true <-> exists t, s = p ++ t.
Proof.
  revert s. induction p as [|a p IH]; intros s; simpl.
  - split; [exists s; reflexivity | reflexivity].
  - destruct s as [|b s].
    + split; [discriminate | intros [t H]; discriminate].
    + rewrite andb_true_iff, N.eqb_eq, IH. split.
      * intros [-> [t ->]]. now exists t.
      * intros [t [= -> ->]]. split; [reflexivity | now exists t].
Qed.

Lemma starts_with_skipn p s :
  starts_with p s = true -> s = p ++ skipn (length p) s.
Proof.
  intros H. apply starts_with_spec in H. destruct H as [t ->].
  rewrite skipn_app, skipn_all, Nat.sub_diag. reflexivity.
Qed.

Lemma find_sub_cons p x s :
  Spec.find_sub p (x :: s)
  = if starts_with p (x :: s) then Some ([], skipn (length p) (x :: s))
    else match Spec.find_sub p s with
         | Some (pre, post) => Some (x :: pre, post)
         | None => None
         end.
Proof. reflexivity. Qed.

Lemma find_sub_nil p :
  Spec.find_sub p [] = if starts_with p [] then Some ([], skipn (length p) [])
                       else None.
Proof. reflexivity. Qed.

Lemma find_sub_some p s pre post :
  Spec.find_sub p s = Some (pre, post) -> s = pre ++ p ++ post.
Proof.
  revert pre post. induction s as [|x s IH]; intros pre post.
  - rewrite find_sub_nil. destruct (starts_with p []) eqn:E; [|discriminate].
    intros [= <- <-]. now apply starts_with_skipn.
  - rewrite find_sub_cons. destruct (starts_with p (x :: s)) eqn:E.
    + intros [= <- <-]. now apply starts_with_skipn.
    + destruct (Spec.find_sub p s) as [[pre' post']|]; [|discriminate].
      intros [= <- <-]. simpl. f_equal. now apply IH.
Qed.

Lemma find_sub_none p s :
  Spec.find_sub p s = None -> forall a b, s <> a ++ p ++ b.
Proof.
  induction s as [|x s IH].
  - rewrite find_sub_nil. destruct (starts_with p []) eqn:E; [discriminate|].
    intros _ a b H. destruct a; simpl in H.
    + assert (starts_with p [] = true) by (apply starts_with_spec; now exists b).
      congruence.
    + discriminate.
  - rewrite find_sub_cons. destruct (starts_with p (x :: s)) eqn:E;
      [discriminate|].
    destruct (Spec.find_sub p s) as [[pre post]|] eqn:F; [discriminate|].
    intros _ a b H. destruct a as [|y a]; simpl in H.
    + assert (starts_with p (x :: s) = true)
        by (apply starts_with_spec; now exists b).
      congruence.
    + injection H as _ H. exact (IH eq_refl a b H).
Qed.

(** [find_sub] finds the first occurrence. *)
Lemma find_sub_first p s pre post :
  Spec.find_sub p s = Some (pre, post) ->
  forall a b, s = a ++ p ++ b -> length pre <= length a.
Proof.
  revert pre post. induction s as [|x s IH]; intros pre post.
  - rewrite find_sub_nil. destruct (starts_with p []); [|discriminate].
    intros [= <- _] a b _. simpl. lia.
  - rewrite find_sub_cons. destruct (starts_with p (x :: s)) eqn:E.
    + intros [= <- _] a b _. simpl. lia.
    + destruct (Spec.find_sub p s) as [[pre' post']|]; [|discriminate].
      intros [= <- _] a b H. destruct a as [|y a]; simpl in H.
      * assert (starts_with p (x :: s) = true)
          by (apply starts_with_spec; now exists b).
        congruence.
      * injection H as _ H. simpl. apply le_n_S.
        now apply (IH pre' post' eq_refl a b).
Qed.

Lemma app_same_length {A} (a a' b b' : list A) :
  length a = length a' -> a ++ b = a' ++ b' -> a = a' /\ b = b'.
Proof.
  revert a'. induction a as [|x a IH]; intros [|y a'] Hl H;
    try discriminate Hl.
  - now split.
  - injection H as -> H. injection Hl as Hl.
    destruct (IH a' Hl H) as [-> ->]. now split.
Qed.

Lemma find_sub_spec p s pre post :
  Spec.find_sub p s = Some (pre, post) <->
  s = pre ++ p ++ post
  /\ (forall a b, s = a ++ p ++ b -> length pre <= length a).
Proof.
  split.
  - intros H. split; [now apply find_sub_some|].
    exact (find_sub_first _ _ _ _ H).
  - intros [Hs Hmin].
    destruct (Spec.find_sub p s) as [[pre' post']|] eqn:E.
    + pose proof (find_sub_some _ _ _ _ E) as Hs'.
      pose proof (find_sub_first _ _ _ _ E pre post Hs) as H1.
      pose proof (Hmin pre' post' Hs') as H2.
      assert (Hlen : length pre = length pre') by lia.
      rewrite Hs in Hs'.
      destruct (app_same_length _ _ _ _ Hlen Hs') as [<- Hp].
      apply app_inv_head in Hp. now subst.
    + exfalso. exact (find_sub_none _ _ E pre post Hs).
Qed.

Lemma lstrip_length s : length (Spec.lstrip s) <= length s.
Proof.
  induction s as [|c s IH]; simpl; [lia|].
  destruct (Re.isspace c); simpl; lia.
Qed.

(** A string is its leading white space followed by what [lstrip] keeps. *)
Lemma lstrip_split s :
  s = firstn (length s - length (Spec.lstrip s)) s ++ Spec.lstrip s
  /\ forallb Re.isspace (firstn (length s - length (Spec.lstrip s)) s) = true.
Proof.
  induction s as [|c s [IH1 IH2]]; [simpl; auto|].
  pose proof (lstrip_length s).
  cbn [Spec.lstrip]. destruct (Re.isspace c) eqn:E.
  - cbn [length].
    replace (S (length s) - length (Spec.lstrip s))
      with (S (length s - length (Spec.lstrip s))) by lia.
    cbn [firstn forallb app]. rewrite E, IH2.
    split; [now rewrite <- IH1 | reflexivity].
  - rewrite Nat.sub_diag. simpl. auto.
Qed.

Lemma rstrip_nil_spaces s :
  Spec.rstrip s = [] <-> forallb Re.isspace s = true.
Proof.
  induction s as [|c s IH]; simpl; [tauto|].
  destruct (Spec.rstrip s) as [|r rs].
  - destruct (Re.isspace c); simpl.
    + split; [intros _; now apply IH | reflexivity].
    + split; discriminate.
  - split; [discriminate|]. rewrite andb_true_iff. intros [_ H].
    apply IH in H. discriminate.
Qed.

Lemma rstrip_cons c s :
  Spec.rstrip (c :: s)
  = if Re.isspace c && forallb Re.isspace s then [] else c :: Spec.rstrip s.
Proof.
  simpl. destruct (Spec.rstrip s) as [|r rs] eqn:E.
  - rewrite (proj1 (rstrip_nil_spaces s) E), andb_true_r.
    destruct (Re.isspace c); reflexivity.
  - destruct (forallb Re.isspace s) eqn:F.
    + apply rstrip_nil_spaces in F. congruence.
    + now rewrite andb_false_r.
Qed.

(** A string is what [rstrip] keeps followed by its trailing white space. *)
Lemma rstrip_prefix s : exists ws, s = Spec.rstrip s ++ ws.
Proof.
  induction s as [|c s [ws IH]].
  - now exists [].
  - rewrite rstrip_cons. destruct (Re.isspace c && forallb Re.isspace s).
    + now exists (c :: s).
    + exists ws. simpl. now rewrite <- IH.
Qed.

Lemma lstrip_spaces_app ws t :
  forallb Re.isspace ws = true -> Spec.lstrip (ws ++ t) = Spec.lstrip t.
Proof.
  induction ws as [|c ws IH]; simpl; [reflexivity|].
  rewrite andb_true_iff. intros [-> H]. now apply IH.
Qed.

Lemma lstrip_head_not_space c s :
  Re.isspace c = false -> Spec.lstrip (c :: s) = c :: s.
Proof. intros H. simpl. now rewrite H. Qed.

(** ** The fenced-block pattern *)

Lemma match_here_chars l p s i g :
  Re.match_here (map (fun c => Re.One (Re.CChar c)) l ++ p) s i g
  = if starts_with l s
    then Re.match_here p (skipn (length l) s) (i + length l) g
    else None.
Proof.
  revert s i. induction l as [|a l IH]; intros s i.
  - simpl. now rewrite Nat.add_0_r.
  - destruct s as [|b s]; [reflexivity|].
    cbn [map app]. rewrite match_here_one. cbn [Re.cmatch starts_with].
    destruct (a =? b)%N; [|reflexivity].
    rewrite IH. cbn [andb skipn length]. now rewrite Nat.add_succ_r.
Qed.

Lemma match_here_fence s i g :
  Re.match_here (Re.lit "```") s i g
  = if starts_with fence s then Some (i + 3, g) else None.
Proof.
  unfold Re.lit. rewrite <- (app_nil_r (map _ _)).
  rewrite match_here_chars. reflexivity.
Qed.

Lemma space_not_backtick c s :
  Re.isspace c = true -> starts_with fence (c :: s) = false.
Proof.
  intros H. change fence with [96; 96; 96]%N. cbn [starts_with].
  destruct (N.eqb_spec 96 c) as [<-|]; [discriminate H | reflexivity].
Qed.

(** [\s*] followed by the closing fence: the fence must come right after
    the white space. *)
Lemma greedy_space_then_fence g s i :
  Re.star_greedy Re.CSpace
    (fun s i => Re.match_here (Re.lit "```") s i g) s i
  = if starts_with fence (Spec.lstrip s)
    then Some (i + (length s - length (Spec.lstrip s)) + 3, g)
    else None.
Proof.
  revert i. induction s as [|c s IH]; intros i.
  - cbn [Re.star_greedy]. rewrite match_here_fence. reflexivity.
  - cbn [Re.star_greedy Re.cmatch Spec.lstrip].
    pose proof (lstrip_length s).
    destruct (Re.isspace c) eqn:E.
    + rewrite IH. destruct (starts_with fence (Spec.lstrip s)).
      * cbn [length]. do 2 f_equal. lia.
      * rewrite match_here_fence, space_not_backtick by exact E. reflexivity.
    + rewrite match_here_fence. rewrite Nat.sub_diag, Nat.add_0_r.
      reflexivity.
Qed.

Lemma find_fence_after_spaces ws t :
  forallb Re.isspace ws = true -> starts_with fence t = true ->
  Spec.find_sub fence (ws ++ t) = Some (ws, skipn 3 t).
Proof.
  intros Hws Ht. induction ws as [|c ws IH].
  - simpl app. destruct t as [|x t]; [discriminate Ht|].
    rewrite find_sub_cons, Ht. reflexivity.
  - simpl in Hws. apply andb_true_iff in Hws. destruct Hws as [Hc Hws].
    cbn [app]. rewrite find_sub_cons, space_not_backtick by exact Hc.
    now rewrite IH.
Qed.

(** [.*?] followed by the end of the group, [\s*] and the closing fence:
    the match ends at the first fence, and the group ends before the white
    space that precedes it. *)
Lemma lazy_any_then_fence g s i :
  Re.star_lazy Re.CAny
    (fun s i =>
       Re.match_here (Re.Close1 :: Re.Star true Re.CSpace :: Re.lit "```")
                     s i g) s i
  = match Spec.find_sub fence s with
    | None => None
    | Some (inner, _) =>
        Some (i + length inner + 3,
              Re.Marks (Re.g1_start g) (i + length (Spec.rstrip inner)))
    end.
Proof.
  revert i. induction s as [|c s IH]; intros i.
  - cbn [Re.star_lazy Re.match_here]. rewrite greedy_space_then_fence.
    reflexivity.
  - cbn [Re.star_lazy Re.match_here Re.cmatch].
    rewrite greedy_space_then_fence.
    destruct (starts_with fence (Spec.lstrip (c :: s))) eqn:E.
    + destruct (lstrip_split (c :: s)) as [Hs Hws].
      set (n := length (c :: s) - length (Spec.lstrip (c :: s))) in *.
      pose proof (find_fence_after_spaces _ _ Hws E) as Hf.
      rewrite <- Hs in Hf. rewrite Hf.
      apply rstrip_nil_spaces in Hws. rewrite Hws.
      rewrite firstn_length_le by (unfold n; lia).
      simpl. rewrite Nat.add_0_r. reflexivity.
    + rewrite IH, find_sub_cons.
      assert (F : starts_with fence (c :: s) = false).
      { destruct (Re.isspace c) eqn:Hc; [now apply space_not_backtick|].
        now rewrite lstrip_head_not_space in E. }
      rewrite F.
      destruct (Spec.find_sub fence s) as [[inner post]|] eqn:G;
        [|reflexivity].
      rewrite rstrip_cons.
      destruct (Re.isspace c && forallb Re.isspace inner) eqn:Hsp.
      * exfalso. apply andb_true_iff in Hsp. destruct Hsp as [Hc Hi].
        apply find_sub_some in G. subst s.
        change (c :: inner ++ fence ++ post)
          with ((c :: inner) ++ fence ++ post) in E.
        rewrite lstrip_spaces_app in E by (simpl; now rewrite Hc, Hi).
        discriminate E.
      * cbn [length]. f_equal; f_equal; [lia | f_equal; lia].
Qed.

Lemma match_here_open p s i g :
  Re.match_here (Re.Open1 :: p) s i g
  = Re.match_here p s i (Re.Marks i (Re.g1_end g)).
Proof. reflexivity. Qed.

Lemma match_group_then_fence g s i :
  Re.match_here
    (Re.Open1 :: Re.Star false Re.CAny :: Re.Close1
       :: Re.Star true Re.CSpace :: Re.lit "```") s i g
  = match Spec.find_sub fence s with
    | None => None
    | Some (inner, _) =>
        Some (i + length inner + 3,
              Re.Marks i (i + length (Spec.rstrip inner)))
    end.
Proof.
  rewrite match_here_open, match_here_lazy. apply lazy_any_then_fence.
Qed.

Lemma match_after_tag g s i :
  Re.match_here after_tag s i g
  = match Spec.find_sub fence s with
    | None => None
    | Some (inner, _) =>
        let start := i + (length inner - length (Spec.lstrip inner)) in
        Some (i + length inner + 3,
              Re.Marks start (start + length (Spec.strip inner)))
    end.
Proof.
  unfold after_tag. cbn [app]. rewrite match_here_greedy.
  revert i. induction s as [|c s IH]; intros i.
  - cbn [Re.star_greedy]. rewrite match_group_then_fence. reflexivity.
  - cbn [Re.star_greedy Re.cmatch].
    destruct (Re.isspace c) eqn:Hc.
    + rewrite IH, find_sub_cons, space_not_backtick by exact Hc.
      destruct (Spec.find_sub fence s) as [[inner post]|] eqn:G.
      * unfold Spec.strip. cbn [Spec.lstrip length]. rewrite Hc.
        pose proof (lstrip_length inner).
        cbv zeta. f_equal; f_equal; [lia | f_equal; lia].
      * rewrite match_group_then_fence, find_sub_cons.
        rewrite space_not_backtick by exact Hc. now rewrite G.
    + rewrite match_group_then_fence, find_sub_cons.
      destruct (starts_with fence (c :: s)).
      * cbv zeta. simpl. now rewrite !Nat.add_0_r.
      * destruct (Spec.find_sub fence s) as [[inner post]|]; [|reflexivity].
        unfold Spec.strip. rewrite lstrip_head_not_space by exact Hc.
        cbv zeta. rewrite Nat.sub_diag, Nat.add_0_r.
        reflexivity.
Qed.

Lemma fenced_re_split : fenced_re = Re.lit "```json" ++ after_tag.
Proof. reflexivity. Qed.

Lemma match_here_fenced g s i :
  Re.match_here fenced_re s i g
  = if starts_with tag s
    then Re.match_here after_tag (skipn 7 s) (i + 7) g
    else None.
Proof.
  rewrite fenced_re_split. unfold Re.lit. rewrite match_here_chars.
  reflexivity.
Qed.

(** A second tag that begins inside the text of the first puts a fence
    after the first. *)
Lemma tag_after_tag body pre body' :
  skipn 1 tag ++ body = pre ++ tag ++ body' ->
  exists a b, body = a ++ fence ++ b.
Proof.
  change tag with [96; 96; 96; 106; 115; 111; 110]%N.
  change fence with [96; 96; 96]%N. cbn [skipn app].
  intros H.
  do 6 (destruct pre as [|? pre]; [simpl in H; discriminate H|];
        simpl in H; injection H as <- H).
  exists pre, ([106; 115; 111; 110]%N ++ body'). exact H.
Qed.

Lemma search_from_fenced whole s i :
  Re.search_from fenced_re whole s i
  = match Spec.find_sub tag s with
    | None => None
    | Some (pre, body) =>
        match Spec.find_sub fence body with
        | None => None
        | Some (inner, _) =>
            let start :=
              i + length pre + 7
              + (length inner - length (Spec.lstrip inner)) in
            Some (Re.MatchObj whole (i + length pre)
                    (i + length pre + 7 + length inner + 3)
                    (Re.Marks start (start + length (Spec.strip inner))))
        end
    end.
Proof.
  revert i. induction s as [|c s IH]; intros i.
  - reflexivity.
  - rewrite search_from_cons, match_here_fenced, find_sub_cons.
    destruct (starts_with tag (c :: s)) eqn:E.
    + rewrite match_after_tag. change (length tag) with 7.
      destruct (Spec.find_sub fence (skipn 7 (c :: s)))
        as [[inner post]|] eqn:G.
      * cbv zeta. cbn [length]. f_equal; f_equal; [lia | lia |].
        f_equal; lia.
      * rewrite IH.
        destruct (Spec.find_sub tag s) as [[pre body]|] eqn:F;
          [|reflexivity].
        exfalso. apply find_sub_some in F.
        apply starts_with_skipn in E. change (length tag) with 7 in E.
        assert (H : skipn 1 tag ++ skipn 7 (c :: s) = pre ++ tag ++ body).
        { rewrite <- F. set (X := skipn 7 (c :: s)) in *.
          change tag with (96%N :: skipn 1 tag) in E.
          cbn [app] in E. injection E as _ E. symmetry. exact E. }
        apply tag_after_tag in H. destruct H as (a & b & H).
        exact (find_sub_none _ _ G a b H).
    + rewrite IH.
      destruct (Spec.find_sub tag s) as [[pre body]|]; [|reflexivity].
      destruct (Spec.find_sub fence body) as [[inner post]|]; [|reflexivity].
      cbv zeta. cbn [length]. f_equal; f_equal; [lia | lia |].
      f_equal; lia.
Qed.

(** The fenced pattern finds the block the specification describes; its
    group 1 is the inner text without the white space around it. *)
Lemma search_fenced_block text :
  option_map Re.group1 (Re.search fenced_re text) = Spec.fenced_block text.
Proof.
  unfold Re.search, Spec.fenced_block. rewrite search_from_fenced.
  change (u "```json") with tag. change (u "```") with fence.
  destruct (Spec.find_sub tag text) as [[pre body]|] eqn:F; [|reflexivity].
  destruct (Spec.find_sub fence body) as [[inner post]|] eqn:G;
    [|reflexivity].
  cbv zeta. cbn [option_map]. f_equal.
  unfold Re.group1, slice. cbn [Re.subject Re.m_marks Re.g1_start Re.g1_end].
  apply find_sub_some in F. apply find_sub_some in G. subst text body.
  destruct (lstrip_split inner) as [Hs _].
  set (n := length inner - length (Spec.lstrip inner)) in *.
  destruct (rstrip_prefix (Spec.lstrip inner)) as [ws Hr].
  fold (Spec.strip inner) in Hr.
  assert (Hskip :
    skipn (0 + length pre + 7 + n)
      (pre ++ tag ++ inner ++ fence ++ post)
    = Spec.strip inner ++ ws ++ fence ++ post).
  { replace (0 + length pre + 7 + n) with (length pre + (7 + n)) by lia.
    rewrite skipn_app, skipn_all2 by lia.
    replace (length pre + (7 + n) - length pre) with (7 + n) by lia.
    cbn [app]. change (skipn (7 + n) (tag ++ inner ++ fence ++ post))
      with (skipn n (inner ++ fence ++ post)).
    rewrite Hs at 1. rewrite <- app_assoc.
    rewrite skipn_app.
    assert (Hn : length (firstn n inner) = n).
    { apply firstn_length_le. unfold n. lia. }
    rewrite Hn, Nat.sub_diag, skipn_all2 by lia.
    cbn [app skipn]. rewrite Hr at 1. now rewrite <- app_assoc. }
  rewrite Hskip.
  replace (0 + length pre + 7 + n + length (Spec.strip inner)
           - (0 + length pre + 7 + n)) with (length (Spec.strip inner))
    by lia.
  rewrite firstn_app, Nat.sub_diag, firstn_all. simpl.
  now rewrite app_nil_r.
Qed.

(** What the block is, in terms of the text: the tag at its first
    occurrence, then the raw inner text up to the first closing fence. *)
Lemma fenced_block_spec text inner :
  Spec.fenced_block text = Some inner <->
  exists pre raw post,
    text = pre ++ tag ++ raw ++ fence ++ post
    /\ inner = Spec.strip raw
    /\ (forall a b, text = a ++ tag ++ b -> length pre <= length a)
    /\ (forall a b, raw ++ fence ++ post = a ++ fence ++ b ->
                    length raw <= length a).
Proof.
  unfold Spec.fenced_block. change (u "```json") with tag.
  change (u "```") with fence. split.
  - destruct (Spec.find_sub tag text) as [[pre body]|] eqn:F; [|discriminate].
    destruct (Spec.find_sub fence body) as [[raw post]|] eqn:G;
      [|discriminate].
    intros [= <-]. apply find_sub_spec in F, G.
    destruct F as [-> Hf]. destruct G as [-> Hg].
    exists pre, raw, post. auto.
  - intros (pre & raw & post & Ht & -> & Hf & Hg).
    assert (F : Spec.find_sub tag text = Some (pre, raw ++ fence ++ post))
      by (apply find_sub_spec; auto).
    rewrite F.
    assert (G : Spec.find_sub fence (raw ++ fence ++ post) = Some (raw, post))
      by (apply find_sub_spec; auto).
    now rewrite G.
Qed.

(** ** The response extractor *)

Section ExtractorFacts.

Variable json_loads : str -> outcome pyval.

Local Abbreviation extract := (extract_json_from_response json_loads).
Local Abbreviation decode_fails := (Spec.decode_fails json_loads).
Local Abbreviation strategy_fails := (Spec.strategy_fails json_loads).

Lemma try_loads_ok t v otherwise :
  json_loads t = Ok v -> try_loads json_loads t otherwise = Ok v.
Proof. unfold try_loads. now intros ->. Qed.

Lemma extract_direct text v :
  json_loads text = Ok v -> extract text = Ok v.
Proof. unfold extract_json_from_response. apply try_loads_ok. Qed.

Lemma try_loads_fails t otherwise :
  decode_fails t -> try_loads json_loads t otherwise = otherwise.
Proof. unfold try_loads. intros (e & -> & ->). reflexivity. Qed.

Lemma try_loads_other t e otherwise :
  json_loads t = Raise e -> is_JSONDecodeError e = false ->
  try_loads json_loads t otherwise = Raise e.
Proof. unfold try_loads. now intros -> ->. Qed.

(** An exception of [json.loads] that is not a [JSONDecodeError] is not
    caught: it leaves the extractor. *)
Lemma extract_propagates_other text e :
  json_loads text = Raise e -> is_JSONDecodeError e = false ->
  extract text = Raise e.
Proof. unfold extract_json_from_response. apply try_loads_other. Qed.

(** The extractor as a chain over the candidates that the specification
    names: the whole text, the fenced block, the brace span. *)
Lemma extract_chain text :
  extract text
  = try_loads json_loads text
      (let after_fenced :=
         match Spec.brace_span text with
         | Some span => try_loads json_loads span (Ok (parse_failure text))
         | None => Ok (parse_failure text)
         end in
       match Spec.fenced_block text with
       | Some inner => try_loads json_loads inner after_fenced
       | None => after_fenced
       end).
Proof.
  unfold extract_json_from_response.
  rewrite <- search_fenced_block, <- search_brace_span.
  destruct (Re.search fenced_re text), (Re.search brace_re text); reflexivity.
Qed.

Lemma strategy_fails_chain candidate otherwise :
  strategy_fails candidate ->
  match candidate with
  | Some t => try_loads json_loads t otherwise
  | None => otherwise
  end = otherwise.
Proof.
  destruct candidate as [t|]; simpl; [apply try_loads_fails | reflexivity].
Qed.

End ExtractorFacts.

Lemma raw_response_length text :
  500 < length text -> length (raw_response text) = 503.
Proof.
  intros H. unfold raw_response.
  destruct (Nat.ltb_spec 500 (length text)); [|lia].
  rewrite length_app, firstn_length_le by lia. reflexivity.
Qed.

(** Sample texts. *)



(** C1. The two searches of the extractor find what the specification
    describes: the inner text of the first fenced block tagged json and
    the brace span.  The extractor tries the whole text first and returns
    what it decodes to; when the whole text does not decode it tries the
    inner text of the fenced block and returns what that decodes to; when
    there is no such block or its inner text does not decode, what is left
    is the brace-span attempt on the original text, followed by the error
    object for the original text. *)
Theorem extract_precedence (json_loads : str -> outcome pyval) (text : str) :
  option_map Re.group1 (Re.search fenced_re text) = Spec.fenced_block text
  /\ option_map Re.group0 (Re.search brace_re text) = Spec.brace_span text
  /\ (forall v,
        json_loads text = Ok v ->
        extract_json_from_response json_loads text = Ok v)
  /\ (forall inner v,
        Spec.decode_fails json_loads text ->
        Spec.fenced_block text = Some inner ->
        json_loads inner = Ok v ->
        extract_json_from_response json_loads text = Ok v)
  /\ (Spec.decode_fails json_loads text ->
      Spec.strategy_fails json_loads (Spec.fenced_block text) ->
      extract_json_from_response json_loads text
      = match Spec.brace_span text with
        | Some span => try_loads json_loads span (Ok (parse_failure text))
        | None => Ok (parse_failure text)
        end).
Proof.
  split; [apply search_fenced_block|]. split; [apply search_brace_span|].
  rewrite extract_chain. repeat split.
  - intros v H. now apply try_loads_ok.
  - intros inner v H1 H2 H3.
    rewrite try_loads_fails by exact H1. rewrite H2.
    now apply try_loads_ok.
  - intros H1 H2. rewrite try_loads_fails by exact H1.
    cbv zeta. now rewrite strategy_fails_chain.
Qed.

Lemma extract_precedence_witness :
  extract_json_from_response Json.loads (u Script.sample_object)
  = Ok Script.sample_value
  /\ extract_json_from_response Json.loads
       (u ("noise ```json" ++ nl ++ Script.sample_object ++ nl
           ++ "``` noise"))
     = Ok Script.sample_value
  /\ extract_json_from_response Json.loads (u "no fence, no brace")
     = Ok (parse_failure (u "no fence, no brace")).
Proof.
  split; [|split].
  - apply (proj1 (proj2 (proj2
             (extract_precedence Json.loads (u Script.sample_object))))).
    vm_compute. reflexivity.
  - apply (proj1 (proj2 (proj2 (proj2 (extract_precedence Json.loads _))))
             (u Script.sample_object)).
    + eexists. split; vm_compute; reflexivity.
    + vm_compute. reflexivity.
    + vm_compute. reflexivity.
  - refine (eq_trans
              (proj2 (proj2 (proj2 (proj2
                 (extract_precedence Json.loads
                    (u "no fence, no brace"))))) _ _) _).
    + eexists. split; vm_compute; reflexivity.
    + vm_compute. exact I.
    + reflexivity.
Defined.

(** C2. When the whole text, the fenced block and the brace span all fail,
    the result is the object with the two fields [error] and
    [raw_response]; the latter is the text itself when it has at most 500
    characters, and otherwise its first 500 characters followed by three
    dots, 503 characters in all. *)
Theorem extract_fallback (json_loads : str -> outcome pyval) (text : str) :
  Spec.decode_fails json_loads text ->
  Spec.strategy_fails json_loads (Spec.fenced_block text) ->
  Spec.strategy_fails json_loads (Spec.brace_span text) ->
  exists r,
    extract_json_from_response json_loads text
    = Ok (PDict [(u "error", PStr (u "JSON解析エラー"));
                 (u "raw_response", PStr r)])
    /\ (length text <= 500 -> r = text)
    /\ (500 < length text ->
        r = firstn 500 text ++ u "..." /\ length r = 503)
    /\ (length text = 600 -> length r = 503).
Proof.
  intros H1 H2 H3. exists (raw_response text). split.
  - rewrite extract_chain, try_loads_fails by exact H1. cbv zeta.
    rewrite !strategy_fails_chain by assumption.
    reflexivity.
  - split; [|split].
    + intros H. unfold raw_response.
      destruct (Nat.ltb_spec 500 (length text)); [lia | reflexivity].
    + intros H. split; [|now apply raw_response_length].
      unfold raw_response.
      destruct (Nat.ltb_spec 500 (length text)); [reflexivity | lia].
    + intros H. apply raw_response_length. lia.
Qed.

Lemma extract_fallback_witness :
  exists r,
    extract_json_from_response Json.loads (repeat (Json.ch "x") 600)
    = Ok (PDict [(u "error", PStr (u "JSON解析エラー"));
                 (u "raw_response", PStr r)])
    /\ length r = 503.
Proof.
  destruct (extract_fallback Json.loads (repeat (Json.ch "x") 600))
    as (r & H1 & _ & _ & H2).
  - eexists. split; vm_compute; reflexivity.
  - vm_compute. exact I.
  - vm_compute. exact I.
  - exists r. split; [exact H1 | apply H2; vm_compute; reflexivity].
Defined.

(** C3. The substring that the brace pattern selects runs from the first
    opening brace of the text through its last closing brace; when the
    brace-span step is reached and that substring decodes, the decoded
    value is returned; on a text with two separate objects the substring
    covers both and what lies between them. *)
Theorem brace_span_attempt (json_loads : str -> outcome pyval) (text : str) :
  (forall span,
      option_map Re.group0 (Re.search brace_re text) = Some span <->
      exists pre mid post,
        text = pre ++ span ++ post /\
        span = Json.ch "{" :: mid ++ [Json.ch "}"] /\
        ~ In (Json.ch "{") pre /\ ~ In (Json.ch "}") post)
  /\ (forall span v,
        Spec.decode_fails json_loads text ->
        Spec.strategy_fails json_loads (Spec.fenced_block text) ->
        option_map Re.group0 (Re.search brace_re text) = Some span ->
        json_loads span = Ok v ->
        extract_json_from_response json_loads text = Ok v)
  /\ (forall pre a gap b post,
        text = pre ++ (Json.ch "{" :: a ++ [Json.ch "}"]) ++ gap
                   ++ (Json.ch "{" :: b ++ [Json.ch "}"]) ++ post ->
        ~ In (Json.ch "{") pre -> ~ In (Json.ch "}") post ->
        option_map Re.group0 (Re.search brace_re text)
        = Some ((Json.ch "{" :: a ++ [Json.ch "}"]) ++ gap
                  ++ (Json.ch "{" :: b ++ [Json.ch "}"]))).
Proof.
  rewrite search_brace_span. split; [|split].
  - intros span. apply brace_span_spec.
  - intros span v H1 H2 H3 H4.
    rewrite extract_chain, try_loads_fails by exact H1. cbv zeta.
    rewrite strategy_fails_chain by assumption. rewrite H3.
    now apply try_loads_ok.
  - intros pre a gap b post -> Hpre Hpost. apply brace_span_spec.
    exists pre, (a ++ [Json.ch "}"] ++ gap ++ Json.ch "{" :: b), post.
    repeat split; try assumption.
    + repeat (rewrite <- app_assoc || rewrite <- app_comm_cons).
      reflexivity.
    + repeat (rewrite <- app_assoc || rewrite <- app_comm_cons).
      reflexivity.
Qed.

Lemma brace_span_attempt_witness :
  extract_json_from_response Json.loads
    (u ("blah " ++ Script.sample_object ++ " blah")) = Ok Script.sample_value
  /\ option_map Re.group0
       (Re.search brace_re (u (Script.sample_object ++ " and " ++ Script.sample_object)))
     = Some (u (Script.sample_object ++ " and " ++ Script.sample_object)).
Proof.
  split.
  - apply (proj1 (proj2 (brace_span_attempt Json.loads _)) (u Script.sample_object)).
    + eexists. split; vm_compute; reflexivity.
    + vm_compute. exact I.
    + vm_compute. reflexivity.
    + vm_compute. reflexivity.
  - apply (proj2 (proj2 (brace_span_attempt Json.loads _))
             [] (u (q "a" ++ ":1")) (u " and ") (u (q "a" ++ ":1")) []).
    + vm_compute. reflexivity.
    + intros [].
    + intros [].
Defined.

(** C10, as stated, fails: an integer literal of 4301 digits is a text on
    which [json.loads] raises [ValueError], which the handlers of the
    extractor, written for [JSONDecodeError], do not catch. *)
Lemma extract_raises_on_long_integer :
  exists e,
    extract_json_from_response Json.loads (repeat (Json.ch "1") 4301)
    = Raise e
    /\ exn_cls e = ValueError
    /\ exn_str e
       = u ("Exceeds the limit (4300 digits) for integer string "
            ++ "conversion: value has 4301 digits; use "
            ++ "sys.set_int_max_str_digits() to increase the limit").
Proof.
  eexists. split; [|split].
  - vm_compute. reflexivity.
  - reflexivity.
  - vm_compute. reflexivity.
Qed.

(** C10, amended.  On a text for which [json.loads] raises nothing but
    [JSONDecodeError] on the candidates, the extractor returns, and what
    it returns is the value decoded from the text, from its fenced block
    or from its brace span, or else the error object. *)
Theorem extract_total (json_loads : str -> outcome pyval) (text : str) :
  Spec.decode_errors_only json_loads (Spec.candidates text) ->
  exists v,
    extract_json_from_response json_loads text = Ok v
    /\ (json_loads text = Ok v
        \/ (exists inner,
               Spec.fenced_block text = Some inner /\ json_loads inner = Ok v)
        \/ (exists span,
               Spec.brace_span text = Some span /\ json_loads span = Ok v)
        \/ v = parse_failure text).
Proof.
  unfold Spec.decode_errors_only, Spec.candidates. intros Honly.
  rewrite extract_chain. unfold try_loads.
  destruct (json_loads text) as [v|e] eqn:E1; [exists v; auto|].
  rewrite (Honly text (or_introl eq_refl) _ E1). cbv zeta.
  assert (Hbrace :
    exists v,
      match Spec.brace_span text with
      | Some span =>
          match json_loads span with
          | Ok v => Ok v
          | Raise e =>
              if is_JSONDecodeError e then Ok (parse_failure text)
              else Raise e
          end
      | None => Ok (parse_failure text)
      end = Ok v
      /\ ((exists span,
              Spec.brace_span text = Some span /\ json_loads span = Ok v)
          \/ v = parse_failure text)).
  { destruct (Spec.brace_span text) as [span|]; [|eauto].
    destruct (json_loads span) as [v|e3] eqn:E3; [eauto 6|].
    rewrite (Honly span) with (e := e3); [eauto | | exact E3].
    right. apply in_or_app. right. now left. }
  destruct Hbrace as (vb & Hb & Hb').
  destruct (Spec.fenced_block text) as [inner|].
  - destruct (json_loads inner) as [v|e2] eqn:E2; [exists v; eauto 7|].
    rewrite (Honly inner) with (e := e2); [| right; now left | exact E2].
    exists vb. tauto.
  - exists vb. tauto.
Qed.

Lemma extract_total_witness :
  exists v,
    extract_json_from_response Json.loads (u "no json here") = Ok v
    /\ (Json.loads (u "no json here") = Ok v
        \/ (exists inner,
               Spec.fenced_block (u "no json here") = Some inner
               /\ Json.loads inner = Ok v)
        \/ (exists span,
               Spec.brace_span (u "no json here") = Some span
               /\ Json.loads span = Ok v)
        \/ v = parse_failure (u "no json here")).
Proof.
  apply (extract_total Json.loads (u "no json here")).
  intros t Ht e. vm_compute in Ht. destruct Ht as [<- | []].
  vm_compute. intros [= <-]. reflexivity.
Defined.

(** ** The model client adapter *)

Lemma remote_calls_app t1 t2 :
  remote_calls (t1 ++ t2) = remote_calls t1 + remote_calls t2.
Proof. unfold remote_calls. now rewrite filter_app, length_app. Qed.

Section AdapterFacts.

Variables W Model Response : Type.
Variable lib : library W Model Response.
Variable json_loads : str -> outcome pyval.
Variable py_repr : str -> str.

Local Abbreviation analyze :=
  (analyze_section_with_gemini lib json_loads py_repr).
Local Abbreviation body := (call_gemini lib json_loads py_repr).

(** Without a key the adapter is the constant error object. *)
Lemma analyze_without_key image section_name api_key model_name s :
  api_key = None \/ api_key = Some [] ->
  analyze image section_name api_key model_name s = (Ok missing_key_error, s).
Proof. intros [-> | ->]; reflexivity. Qed.

(** With a key it is the [try] block and its handler. *)
Lemma analyze_with_key image section_name c key model_name s :
  analyze image section_name (Some (c :: key)) model_name s
  = match body image section_name (c :: key) model_name s with
    | (Ok v, s') => (Ok v, s')
    | (Raise e, s') => (Ok (api_error e), s')
    end.
Proof.
  unfold analyze_section_with_gemini, try_except.
  destruct (call_gemini _ _ _ _ _ _ _ _) as [[v|e] s']; reflexivity.
Qed.

(** The adapter never raises. *)
Lemma analyze_returns image section_name api_key model_name s :
  exists v s', analyze image section_name api_key model_name s = (Ok v, s').
Proof.
  destruct api_key as [[|c key]|]; try (do 2 eexists; reflexivity).
  rewrite analyze_with_key.
  destruct (call_gemini _ _ _ _ _ _ _ _) as [[v|e] s']; eauto.
Qed.

(** The [try] block leaves the image objects alone, adds events to the
    trace, and calls [generate_content] at most once. *)
Lemma call_gemini_trace image section_name key model_name s r s' :
  body image section_name key model_name s = (r, s') ->
  images s' = images s
  /\ exists evs, trace s' = trace s ++ evs /\ remote_calls evs <= 1.
Proof.
  unfold call_gemini, bind, log, call, deref, lift, ret.
  destruct s as [ims w tr]. cbn [images world trace].
  destruct (genai_configure lib key w) as [[[]|e] w1];
    [|intros [= <- <-]; split; [reflexivity|];
      exists [EvConfigure key]; split; [reflexivity | cbv; lia]].
  cbn [images world trace].
  destruct (nth_error ims image) as [im|];
    [|intros [= <- <-]; split; [reflexivity|]; rewrite <- app_assoc;
      eexists; split; [reflexivity | cbv; lia]].
  destruct (save_png lib im) as [data|e];
    [|intros [= <- <-]; split; [reflexivity|]; rewrite <- app_assoc;
      eexists; split; [reflexivity | cbv; lia]].
  cbn [images world trace].
  destruct (genai_GenerativeModel lib model_name w1) as [[model|e] w2];
    [|intros [= <- <-]; split; [reflexivity|]; rewrite <- !app_assoc;
      eexists; split; [reflexivity | cbv; lia]].
  destruct (prompts_getitem py_repr section_name) as [prompt|e];
    [|intros [= <- <-]; split; [reflexivity|]; rewrite <- !app_assoc;
      eexists; split; [reflexivity | cbv; lia]].
  cbn [images world trace].
  destruct (generate_content lib model prompt (u "image/png") data w2)
    as [[response|e] w3];
    [|intros [= <- <-]; split; [reflexivity|]; rewrite <- !app_assoc;
      eexists; split; [reflexivity | cbv; lia]].
  cbn [images world trace].
  destruct (response_text lib response) as [t|e];
    [|intros [= <- <-]; split; [reflexivity|]; rewrite <- !app_assoc;
      eexists; split; [reflexivity | cbv; lia]].
  destruct (extract_json_from_response json_loads t) as [v|e];
    intros [= <- <-]; (split; [reflexivity|]); rewrite <- !app_assoc;
    eexists; (split; [reflexivity | cbv; lia]).
Qed.

Lemma analyze_trace image section_name api_key model_name s r s' :
  analyze image section_name api_key model_name s = (r, s') ->
  images s' = images s
  /\ remote_calls (trace s') <= S (remote_calls (trace s)).
Proof.
  destruct api_key as [[|c key]|].
  - intros [= <- <-]. split; [reflexivity | lia].
  - rewrite analyze_with_key.
    destruct (call_gemini _ _ _ _ _ _ _ _) as [r0 s0] eqn:E.
    apply call_gemini_trace in E. destruct E as (Hi & evs & Ht & Hn).
    intros H. assert (s' = s0) as -> by (destruct r0; congruence).
    split; [exact Hi|]. rewrite Ht, remote_calls_app. lia.
  - intros [= <- <-]. split; [reflexivity | lia].
Qed.

(** The adapter when every step up to the remote call succeeds. *)
Lemma call_gemini_remote image section_name key model_name s im data model
      prompt w1 w2 :
  genai_configure lib key (world s) = (Ok tt, w1) ->
  nth_error (images s) image = Some im ->
  save_png lib im = Ok data ->
  genai_GenerativeModel lib model_name w1 = (Ok model, w2) ->
  prompts_getitem py_repr section_name = Ok prompt ->
  body image section_name key model_name s
  = match generate_content lib model prompt (u "image/png") data w2 with
    | (Raise e, w3) =>
        (Raise e,
         State (images s) w3
           (trace s ++ [EvConfigure key; EvSave image;
                        EvGenerativeModel model_name;
                        EvGenerateContent prompt (u "image/png") data]))
    | (Ok response, w3) =>
        let s' :=
          State (images s) w3
            (trace s ++ [EvConfigure key; EvSave image;
                         EvGenerativeModel model_name;
                         EvGenerateContent prompt (u "image/png") data;
                         EvText]) in
        match response_text lib response with
        | Raise e => (Raise e, s')
        | Ok t => (extract_json_from_response json_loads t, s')
        end
    end.
Proof.
  intros H1 H2 H3 H4 H5.
  unfold call_gemini, bind, log, call, deref, lift, ret.
  destruct s as [ims w tr]. cbn [images world trace] in *.
  rewrite H1. cbn [images world trace]. rewrite H2, H3.
  cbn [images world trace]. rewrite H4, H5. cbn [images world trace].
  destruct (generate_content lib model prompt (u "image/png") data w2)
    as [[response|e] w3]; cbn [images world trace].
  - cbv zeta. rewrite <- !app_assoc. cbn [app].
    destruct (response_text lib response) as [t|e]; [|reflexivity].
    destruct (extract_json_from_response json_loads t); reflexivity.
  - rewrite <- !app_assoc. reflexivity.
Qed.

End AdapterFacts.

Arguments analyze_without_key {W Model Response}.
Arguments analyze_with_key {W Model Response}.
Arguments analyze_returns {W Model Response}.
Arguments call_gemini_trace {W Model Response}.
Arguments analyze_trace {W Model Response}.
Arguments call_gemini_remote {W Model Response}.

(** C4. With no API key, or an empty one, the adapter returns the error
    object that says so and leaves the state as it found it: the world is
    untouched and the trace has no new event, so nothing was configured,
    encoded, initialised or sent. *)
Theorem missing_key_short_circuit
  {W Model Response : Type} (lib : library W Model Response)
  (json_loads : str -> outcome pyval) (py_repr : str -> str)
  (image : ref) (section_name : str) (api_key : option str)
  (model_name : str) (s : state W) :
  api_key = None \/ api_key = Some [] ->
  analyze_section_with_gemini lib json_loads py_repr image section_name
    api_key model_name s
  = (Ok (PDict [(u "error", PStr (u "Gemini APIキーが設定されていません"))]),
     s).
Proof. apply analyze_without_key. Qed.

Lemma missing_key_short_circuit_witness :
  Script.analyze 0 (u "A") (Some []) (u "gemini-2.5-pro")
    (Script.start [Ok (u "unused")])
  = (Ok (PDict [(u "error", PStr (u "Gemini APIキーが設定されていません"))]),
     Script.start [Ok (u "unused")]).
Proof.
  apply (missing_key_short_circuit Script.lib Json.loads Script.repr).
  right. reflexivity.
Defined.




(** The results of the adapter: its three error objects, and the values
    that [json.loads] decodes. *)
Lemma analyze_cases
  {W Model Response : Type} (lib : library W Model Response)
  (json_loads : str -> outcome pyval) (py_repr : str -> str)
  (image : ref) (section_name : str) (api_key : option str)
  (model_name : str) (s : state W) :
  exists v s',
    analyze_section_with_gemini lib json_loads py_repr image section_name
      api_key model_name s = (Ok v, s')
    /\ ((Spec.is_error_record v = true /\ Spec.is_structured v = false
         /\ (v = PDict [(u "error",
                         PStr (u "Gemini APIキーが設定されていません"))]
             \/ (exists e,
                    v = PDict [(u "error",
                                PStr (u "Gemini API エラー: " ++ exn_str e))])
             \/ (exists text,
                    v = PDict [(u "error", PStr (u "JSON解析エラー"));
                               (u "raw_response",
                                PStr (raw_response text))])))
        \/ (exists t, json_loads t = Ok v)).
Proof.
  destruct api_key as [[|c key]|].
  - do 2 eexists. split; [reflexivity|]. left. repeat split. now left.
  - rewrite analyze_with_key.
    destruct (call_gemini _ _ _ _ _ _ _ _) as [[v|e] s'] eqn:E.
    + exists v, s'. split; [reflexivity|].
      revert E. unfold call_gemini, bind, log, call, deref, lift, ret.
      destruct s as [ims w tr]. cbn [images world trace].
      destruct (genai_configure lib (c :: key) w) as [[[]|e] w1];
        [|discriminate].
      cbn [images world trace].
      destruct (nth_error ims image) as [im|]; [|discriminate].
      destruct (save_png lib im) as [data|e]; [|discriminate].
      cbn [images world trace].
      destruct (genai_GenerativeModel lib model_name w1) as [[model|e] w2];
        [|discriminate].
      destruct (prompts_getitem py_repr section_name) as [prompt|e];
        [|discriminate].
      cbn [images world trace].
      destruct (generate_content lib model prompt (u "image/png") data w2)
        as [[response|e] w3]; [|discriminate].
      cbn [images world trace].
      destruct (response_text lib response) as [t|e]; [|discriminate].
      destruct (extract_json_from_response json_loads t) as [v'|e] eqn:X;
        [|discriminate].
      intros [= <- _].
      revert X. unfold extract_json_from_response, try_loads.
      repeat match goal with
             | |- context [json_loads ?a] =>
                 let F := fresh "F" in
                 destruct (json_loads a) as [?|?] eqn:F
             | |- context [is_JSONDecodeError ?a] =>
                 destruct (is_JSONDecodeError a)
             | |- context [Re.search ?p ?a] => destruct (Re.search p a)
             end;
        intros [= <-]; eauto;
        left; repeat split; right; right; now exists t.
    + exists (api_error e), s'. split; [reflexivity|].
      left. repeat split. right. left. now exists e.
  - do 2 eexists. split; [reflexivity|]. left. repeat split. now left.
Qed.


(** ** The image cropper *)

Lemma flat_map_rows_length {A} (f : nat -> list A) w a rows :
  (forall k, length (f k) = w) ->
  length (flat_map f (seq a rows)) = rows * w.
Proof.
  intros Hf. revert a. induction rows as [|r IH]; intros a; simpl.
  - reflexivity.
  - now rewrite length_app, Hf, IH.
Qed.

(** Element [j * w + i] of rows of width [w] laid end to end is element
    [i] of row [j]. *)
Lemma nth_flat_map_rows {A} (f : nat -> list A) w rows a j i d :
  (forall k, length (f k) = w) -> j < rows -> i < w ->
  nth (j * w + i) (flat_map f (seq a rows)) d = nth i (f (a + j)) d.
Proof.
  intros Hf. revert a j. induction rows as [|r IH]; intros a j Hj Hi.
  - lia.
  - simpl. destruct j as [|j].
    + simpl. rewrite app_nth1 by (rewrite Hf; exact Hi).
      now rewrite Nat.add_0_r.
    + rewrite app_nth2 by (rewrite Hf; simpl; lia).
      rewrite Hf. replace (S j * w + i - w) with (j * w + i) by (simpl; lia).
      rewrite IH by lia. f_equal. f_equal. lia.
Qed.

Lemma nth_map_seq {A} (g : nat -> A) n i d :
  i < n -> nth i (map g (seq 0 n)) d = g i.
Proof.
  intros H.
  rewrite (nth_indep _ d (g 0)) by (rewrite length_map, length_seq; exact H).
  rewrite map_nth, seq_nth by exact H. reflexivity.
Qed.

Lemma crop_data_length im x0 y0 x1 y1 :
  length (PIL.crop_data im x0 y0 x1 y1)
  = Z.to_nat (y1 - y0) * Z.to_nat (x1 - x0).
Proof.
  unfold PIL.crop_data. apply flat_map_rows_length.
  intros k. now rewrite length_map, length_seq.
Qed.

Lemma crop_data_nth im x0 y0 x1 y1 i j :
  i < Z.to_nat (x1 - x0) -> j < Z.to_nat (y1 - y0) ->
  nth (j * Z.to_nat (x1 - x0) + i) (PIL.crop_data im x0 y0 x1 y1) 0%N
  = PIL.getpixel im (x0 + Z.of_nat i) (y0 + Z.of_nat j).
Proof.
  intros Hi Hj. unfold PIL.crop_data.
  rewrite (nth_flat_map_rows _ (Z.to_nat (x1 - x0)))
    by (try assumption; intros k; now rewrite length_map, length_seq).
  now rewrite nth_map_seq.
Qed.

(** What [Image.crop] returns for a box with its edges in order. *)
Lemma crop_ordered im x0 y0 x1 y1 :
  (x0 <= x1)%Z -> (y0 <= y1)%Z ->
  PIL.crop im (x0, y0, x1, y1)
  = Ok (PIL.MkImage (x1 - x0) (y1 - y0) (PIL.crop_data im x0 y0 x1 y1)).
Proof.
  intros Hx Hy. unfold PIL.crop.
  destruct (Z.ltb_spec x1 x0); [lia|].
  destruct (Z.ltb_spec y1 y0); [lia|]. reflexivity.
Qed.

Lemma crop_well_formed im x0 y0 x1 y1 :
  (x0 <= x1)%Z -> (y0 <= y1)%Z ->
  PIL.well_formed
    (PIL.MkImage (x1 - x0) (y1 - y0) (PIL.crop_data im x0 y0 x1 y1)).
Proof.
  intros Hx Hy. unfold PIL.well_formed. simpl.
  rewrite crop_data_length. repeat split; try lia.
  rewrite Z2Nat.inj_mul by lia. lia.
Qed.

Lemma crop_getpixel im x0 y0 x1 y1 i j :
  (0 <= i < x1 - x0)%Z -> (0 <= j < y1 - y0)%Z ->
  PIL.getpixel
    (PIL.MkImage (x1 - x0) (y1 - y0) (PIL.crop_data im x0 y0 x1 y1)) i j
  = PIL.getpixel im (x0 + i) (y0 + j).
Proof.
  intros Hi Hj. unfold PIL.getpixel at 1. unfold PIL.inside. simpl.
  destruct (Z.leb_spec 0 i); [|lia].
  destruct (Z.ltb_spec i (x1 - x0)); [|lia].
  destruct (Z.leb_spec 0 j); [|lia].
  destruct (Z.ltb_spec j (y1 - y0)); [|lia]. simpl.
  replace (Z.to_nat (j * (x1 - x0) + i))
    with (Z.to_nat j * Z.to_nat (x1 - x0) + Z.to_nat i)
    by (rewrite Z2Nat.inj_add, Z2Nat.inj_mul; nia).
  rewrite crop_data_nth by lia.
  now rewrite !Z2Nat.id by lia.
Qed.

(** The cropper on an image object and a box with its edges in order: a
    new object is added to the store, nothing else changes. *)
Lemma crop_image_by_bbox_run {W} (s : state W) image im x1 y1 x2 y2 :
  nth_error (images s) image = Some im ->
  (x1 <= x2)%Z -> (y1 <= y2)%Z ->
  crop_image_by_bbox image [x1; y1; x2; y2] s
  = (Ok (length (images s)),
     State
       (images s
        ++ [PIL.MkImage (x2 - x1) (y2 - y1)
              (PIL.crop_data im x1 y1 x2 y2)])
       (world s) (trace s ++ [EvCrop image (x1, y1, x2, y2)])).
Proof.
  intros Him Hx Hy.
  unfold crop_image_by_bbox, Image_crop, bind, log, deref, lift, alloc.
  cbn [images world trace]. rewrite Him, crop_ordered by assumption.
  reflexivity.
Qed.



(** ** The loop over the regions *)

Lemma BBOX_COORDINATES_items :
  BBOX_COORDINATES
  = [([65%N], [47; 156; 880; 499]%Z); ([66%N], [47; 504; 880; 902]%Z);
     ([67%N], [47; 906; 881; 1083]%Z); ([68%N], [45; 1083; 320; 1200]%Z)].
Proof. reflexivity. Qed.

Section LoopFacts.

Variables W Model Response : Type.
Variable lib : library W Model Response.
Variable json_loads : str -> outcome pyval.
Variable py_repr : str -> str.

Local Abbreviation analyze :=
  (analyze_section_with_gemini lib json_loads py_repr).
Local Abbreviation loop := (main_loop lib json_loads py_repr).

(** One turn of the loop. *)
Lemma main_loop_cons section bbox items image api_key model_name results s :
  loop ((section, bbox) :: items) image api_key model_name results s
  = match crop_image_by_bbox image bbox s with
    | (Raise e, s1) => (Raise e, s1)
    | (Ok cropped_image, s1) =>
        match analyze cropped_image section api_key model_name s1 with
        | (Raise e, s2) => (Raise e, s2)
        | (Ok result, s2) =>
            match show_result py_repr result with
            | Raise e => (Raise e, s2)
            | Ok _ =>
                loop items image api_key model_name
                  (Dict.set results section result) s2
            end
        end
    end.
Proof.
  cbn [main_loop]. unfold bind at 1.
  destruct (crop_image_by_bbox image bbox s) as [[c|e] s1]; [|reflexivity].
  unfold bind at 1.
  destruct (analyze_section_with_gemini _ _ _ _ _ _ _ _) as [[r|e] s2];
    [|reflexivity].
  unfold bind, lift. destruct (show_result py_repr r); reflexivity.
Qed.

(** A result that is a dictionary is displayed without an exception. *)
Lemma show_result_dict d : show_result py_repr (PDict d) = Ok tt.
Proof.
  unfold show_result, and_then, py_in, py_getitem, Dict.mem.
  destruct (Dict.get d (u "error")); [|reflexivity].
  destruct (Dict.get d (u "raw_response")); reflexivity.
Qed.

(** A result that is a number, a truth value or [None] is not: the test
    [in] raises. *)
Lemma show_result_scalar v :
  match v with PDict _ | PList _ | PStr _ => False | _ => True end ->
  show_result py_repr v
  = Raise (Exn TypeError
             (u "argument of type '" ++ type_name v
                ++ u "' is not iterable")).
Proof. destruct v; intros H; try contradiction; reflexivity. Qed.

(** When every value that [json.loads] returns is a dictionary, every
    result of the adapter is one. *)
Lemma analyze_dict image section_name api_key model_name s v s' :
  Spec.decodes_dicts json_loads ->
  analyze image section_name api_key model_name s = (Ok v, s') ->
  exists d, v = PDict d.
Proof.
  intros Hd H.
  destruct (analyze_cases lib json_loads py_repr image section_name api_key
              model_name s) as (v0 & s0 & H0 & Hc).
  rewrite H in H0. injection H0 as <- <-.
  destruct Hc as [(_ & _ & [-> | [[e ->] | [t ->]]]) | [t Ht]]; eauto.
Qed.

(** The entries that the loop adds: one per item, in the order of the
    items, each the result of a call of the adapter on that item. *)
Lemma main_loop_runs image api_key model_name im items :
  Spec.decodes_dicts json_loads ->
  Forall (fun it => exists x1 y1 x2 y2,
              snd it = [x1; y1; x2; y2] /\ (x1 <= x2)%Z /\ (y1 <= y2)%Z)
         items ->
  forall results s,
    nth_error (images s) image = Some im ->
    exists entries s',
      loop items image api_key model_name results s
      = (Ok (fold_left (fun d kv => Dict.set d (fst kv) (snd kv))
                       entries results), s')
      /\ map fst entries = map fst items
      /\ Forall (adapter_result lib json_loads py_repr api_key model_name) entries
      /\ remote_calls (trace s')
         <= remote_calls (trace s) + length items.
Proof.
  intros Hd Hitems. induction Hitems as [|[section bbox] items Hb _ IH];
    intros results s Him.
  - exists [], s. simpl. repeat split; [constructor | lia].
  - destruct Hb as (x1 & y1 & x2 & y2 & Hbox & Hx & Hy).
    simpl in Hbox. subst bbox.
    rewrite main_loop_cons.
    rewrite (crop_image_by_bbox_run s image im x1 y1 x2 y2 Him Hx Hy).
    set (s1 := State _ _ _).
    destruct (analyze_returns lib json_loads py_repr (length (images s))
                section api_key model_name s1) as (v & s2 & Hv).
    rewrite Hv.
    destruct (analyze_dict _ _ _ _ _ _ _ Hd Hv) as [d ->].
    rewrite show_result_dict.
    pose proof (analyze_trace _ _ _ _ _ _ _ _ _ _ Hv) as [Hims Hcalls].
    assert (Him2 : nth_error (images s2) image = Some im).
    { rewrite Hims. unfold s1. cbn [images].
      rewrite nth_error_app1; [exact Him|].
      apply nth_error_Some. rewrite Him. discriminate. }
    destruct (IH (Dict.set results section (PDict d)) s2 Him2)
      as (entries & s' & Hrun & Hkeys & Hres & Hn).
    exists ((section, PDict d) :: entries), s'. repeat split.
    + exact Hrun.
    + simpl. now rewrite Hkeys.
    + constructor; [|exact Hres].
      exists (length (images s)), s1, s2. exact Hv.
    + assert (remote_calls (trace s1) = remote_calls (trace s)).
      { unfold s1. cbn [trace]. rewrite remote_calls_app.
        cbv [remote_calls filter length]. lia. }
      cbn [length]. lia.
Qed.

(** With a decoder that returns dictionaries only, [main] returns one
    entry for each of the four regions, in the order A, B, C, D, each the
    result of a call of the adapter for that region, after at most four
    remote calls. *)
Lemma main_all_regions image im c key model_name s :
  Spec.decodes_dicts json_loads ->
  nth_error (images s) image = Some im ->
  exists rA rB rC rD s',
    main lib json_loads py_repr image (Some (c :: key)) model_name s
    = (Ok (Some [(u "A", rA); (u "B", rB); (u "C", rC); (u "D", rD)]), s')
    /\ Forall (adapter_result lib json_loads py_repr (Some (c :: key)) model_name)
         [(u "A", rA); (u "B", rB); (u "C", rC); (u "D", rD)]
    /\ remote_calls (trace s') <= remote_calls (trace s) + 4.
Proof.
  intros Hd Him. unfold main, bind, ret.
  destruct (main_loop_runs image (Some (c :: key)) model_name im
              BBOX_COORDINATES Hd) with (results := @nil (str * pyval))
              (s := s)
    as (entries & s' & Hrun & Hkeys & Hres & Hn).
  - rewrite BBOX_COORDINATES_items.
    repeat constructor; do 4 eexists; (split; [reflexivity | split; lia]).
  - exact Him.
  - rewrite Hrun.
    rewrite BBOX_COORDINATES_items in Hkeys. cbn [map fst] in Hkeys.
    destruct entries as [|[kA rA] [|[kB rB] [|[kC rC] [|[kD rD] [|? ?]]]]];
      try discriminate Hkeys.
    cbn [map fst] in Hkeys. injection Hkeys as -> -> -> ->.
    exists rA, rB, rC, rD, s'. split; [reflexivity|].
    split; [exact Hres | exact Hn].
Qed.

End LoopFacts.

(** ** Runs with the scripted library *)

(** The adapter with the scripted library: the next scripted outcome is
    consumed, and the trace records the four calls before it and the
    reading of the text after it. *)
Lemma script_analyze image section_name c key model_name
      (s : state Script.world) im prompt o (w : Script.world) :
  nth_error (images s) image = Some im ->
  prompts_getitem Script.repr section_name = Ok prompt ->
  world s = o :: w ->
  Script.analyze image section_name (Some (c :: key)) model_name s
  = (match o with
     | Raise e => Ok (api_error e)
     | Ok t =>
         match extract_json_from_response Json.loads t with
         | Ok v => Ok v
         | Raise e => Ok (api_error e)
         end
     end,
     State (images s) w
       (trace s
        ++ [EvConfigure (c :: key); EvSave image;
            EvGenerativeModel model_name;
            EvGenerateContent prompt (u "image/png") (PIL.data im)]
        ++ match o with Ok _ => [EvText] | Raise _ => [] end)).
Proof.
  intros Him Hp Hw. unfold Script.analyze. rewrite analyze_with_key.
  rewrite (call_gemini_remote Script.lib Json.loads Script.repr image
             section_name (c :: key) model_name s im (PIL.data im)
             model_name prompt (world s) (world s)
             eq_refl Him eq_refl eq_refl Hp).
  cbn [generate_content Script.lib]. rewrite Hw. cbn [Script.generate].
  destruct o as [t|e]; [|reflexivity].
  cbv zeta. cbn [response_text Script.lib app].
  destruct (extract_json_from_response Json.loads t); reflexivity.
Qed.

(** One turn of the loop with the scripted library. *)
Lemma script_turn section x1 y1 x2 y2 items image im c key model_name
      results (s : state Script.world) prompt o (w : Script.world) :
  nth_error (images s) image = Some im ->
  (x1 <= x2)%Z -> (y1 <= y2)%Z ->
  prompts_getitem Script.repr section = Ok prompt ->
  world s = o :: w ->
  main_loop Script.lib Json.loads Script.repr
    ((section, [x1; y1; x2; y2]) :: items) image (Some (c :: key))
    model_name results s
  = let cropped :=
      PIL.MkImage (x2 - x1) (y2 - y1) (PIL.crop_data im x1 y1 x2 y2) in
    let result :=
      match o with
      | Raise e => Ok (api_error e)
      | Ok t =>
          match extract_json_from_response Json.loads t with
          | Ok v => Ok v
          | Raise e => Ok (api_error e)
          end
      end in
    let s2 :=
      State (images s ++ [cropped]) w
        ((trace s ++ [EvCrop image (x1, y1, x2, y2)])
         ++ [EvConfigure (c :: key); EvSave (length (images s));
             EvGenerativeModel model_name;
             EvGenerateContent prompt (u "image/png")
               (PIL.crop_data im x1 y1 x2 y2)]
         ++ match o with Ok _ => [EvText] | Raise _ => [] end) in
    match result with
    | Raise e => (Raise e, s2)
    | Ok r =>
        match show_result Script.repr r with
        | Raise e => (Raise e, s2)
        | Ok _ =>
            main_loop Script.lib Json.loads Script.repr items image
              (Some (c :: key)) model_name (Dict.set results section r) s2
        end
    end.
Proof.
  intros Him Hx Hy Hp Hw.
  rewrite main_loop_cons.
  rewrite (crop_image_by_bbox_run s image im x1 y1 x2 y2 Him Hx Hy).
  fold (Script.analyze (length (images s)) section (Some (c :: key))
          model_name).
  rewrite (script_analyze (length (images s)) section c key model_name _
             (PIL.MkImage (x2 - x1) (y2 - y1) (PIL.crop_data im x1 y1 x2 y2))
             prompt o w).
  - cbv zeta. cbn [images trace PIL.data].
    destruct o as [t|e]; [|reflexivity].
    destruct (extract_json_from_response Json.loads t); reflexivity.
  - cbn [images]. rewrite nth_error_app2 by lia.
    now rewrite Nat.sub_diag.
  - exact Hp.
  - exact Hw.
Qed.

Lemma sample_extract :
  extract_json_from_response Json.loads (u Script.sample_object)
  = Ok Script.sample_value.
Proof. vm_compute. reflexivity. Qed.

Lemma scalar_extract :
  extract_json_from_response Json.loads (u "1") = Ok (PInt 1).
Proof. vm_compute. reflexivity. Qed.

(** C6, at a failing input.  Region A answers with the text [1], a JSON
    number; the adapter returns it, the test ["error" in result] of the
    loop raises [TypeError], and [main] ends there: no aggregate result,
    and the regions B, C and D are never asked (one remote call, three
    scripted answers left). *)
Theorem aggregation_stops_on_scalar_result :
  exists s',
    Script.run_main (Some (u "key"))
      [Ok (u "1"); Ok (u Script.sample_object); Ok (u Script.sample_object);
       Ok (u Script.sample_object)]
    = (Raise (Exn TypeError (u "argument of type 'int' is not iterable")),
       s')
    /\ remote_calls (trace s') = 1
    /\ world s'
       = [Ok (u Script.sample_object); Ok (u Script.sample_object);
          Ok (u Script.sample_object)].
Proof.
  unfold Script.run_main, main, bind. change (u "key") with [107; 101; 121]%N.
  rewrite BBOX_COORDINATES_items.
  erewrite (script_turn [65%N] 47 156 880 499 _ 0 Script.image0);
    [|reflexivity|lia|lia|reflexivity|reflexivity].
  cbv beta iota zeta. rewrite scalar_extract.
  cbv beta iota. rewrite (show_result_scalar Script.repr (PInt 1) I).
  eexists. split; [reflexivity|]. split; reflexivity.
Qed.

(** The same run when every answer is a JSON object, except that the call
    for region B raises: four entries in the order A, B, C, D, the one of
    B an error object. *)
Lemma aggregation_isolates_failed_call :
  exists s',
    Script.run_main (Some (u "key"))
      [Ok (u Script.sample_object);
       Raise (Exn Exception (u "quota exceeded"));
       Ok (u Script.sample_object); Ok (u Script.sample_object)]
    = (Ok (Some
             [(u "A", Script.sample_value);
              (u "B",
               PDict [(u "error",
                       PStr (u "Gemini API エラー: quota exceeded"))]);
              (u "C", Script.sample_value);
              (u "D", Script.sample_value)]), s')
    /\ remote_calls (trace s') = 4
    /\ length (images s') = 5.
Proof.
  unfold Script.run_main, main, bind. change (u "key") with [107; 101; 121]%N.
  rewrite BBOX_COORDINATES_items.
  erewrite (script_turn [65%N] 47 156 880 499 _ 0 Script.image0);
    [|reflexivity|lia|lia|reflexivity|reflexivity].
  cbv beta iota zeta. rewrite sample_extract. cbv beta iota.
  unfold Script.sample_value at 1. rewrite show_result_dict.
  erewrite (script_turn [66%N] 47 504 880 902 _ 0 Script.image0);
    [|reflexivity|lia|lia|reflexivity|reflexivity].
  cbv beta iota zeta. unfold api_error at 1. rewrite show_result_dict.
  erewrite (script_turn [67%N] 47 906 881 1083 _ 0 Script.image0);
    [|reflexivity|lia|lia|reflexivity|reflexivity].
  cbv beta iota zeta. rewrite sample_extract. cbv beta iota.
  unfold Script.sample_value at 1. rewrite show_result_dict.
  erewrite (script_turn [68%N] 45 1083 320 1200 _ 0 Script.image0);
    [|reflexivity|lia|lia|reflexivity|reflexivity].
  cbv beta iota zeta. rewrite sample_extract. cbv beta iota.
  unfold Script.sample_value at 1. rewrite show_result_dict.
  eexists. split; [reflexivity|]. split; reflexivity.
Qed.

(** ** The prompts *)

Lemma contains_spec t s :
  Str.contains t s = true <-> exists a b, s = a ++ t ++ b.
Proof.
  induction s as [|x s IH]; simpl.
  - rewrite orb_false_r, starts_with_spec. split.
    + intros [b H]. now exists [], b.
    + intros (a & b & H). destruct a; [now exists b | discriminate].
  - rewrite orb_true_iff, starts_with_spec, IH. split.
    + intros [[b H] | (a & b & H)].
      * now exists [], b.
      * exists (x :: a), b. now rewrite H.
    + intros (a & b & H). destruct a as [|y a].
      * left. now exists b.
      * right. injection H as _ H. now exists a, b.
Qed.

Lemma prompt_checked py_repr id title vocabulary prompt :
  prompts_getitem py_repr (u id) = Ok prompt ->
  negb (Nat.eqb (length prompt) 0) && Str.contains (u title) prompt
  && forallb (fun term => Str.contains (u term) prompt) vocabulary = true ->
  exists prompt,
    prompts_getitem py_repr (u id) = Ok prompt
    /\ prompt <> []
    /\ (exists a b, prompt = a ++ u title ++ b)
    /\ (forall term, In term vocabulary ->
                     exists a b, prompt = a ++ u term ++ b).
Proof.
  intros Hp H. apply andb_true_iff in H. destruct H as [H Hv].
  apply andb_true_iff in H. destruct H as [Hn Ht].
  exists prompt. split; [exact Hp|]. split; [|split].
  - intros ->. discriminate Hn.
  - now apply contains_spec.
  - intros term Hin. apply contains_spec.
    rewrite forallb_forall in Hv. now apply Hv.
Qed.

(** C7. For each of the regions A, B, C and D the prompt exists, is not
    empty, contains the title of the region and contains every term of its
    answer choices. *)
Theorem prompts_name_title_and_vocabulary (py_repr : str -> str)
  (id title : string) (vocabulary : list string) :
  In (id, title) Spec.region_title ->
  In (id, vocabulary) Spec.region_vocabulary ->
  exists prompt,
    prompts_getitem py_repr (u id) = Ok prompt
    /\ prompt <> []
    /\ (exists a b, prompt = a ++ u title ++ b)
    /\ (forall term, In term vocabulary ->
                     exists a b, prompt = a ++ u term ++ b).
Proof.
  intros Ht Hv.
  unfold Spec.region_title in Ht. unfold Spec.region_vocabulary in Hv.
  cbn [In] in Ht, Hv.
  destruct Ht as [Ht | [Ht | [Ht | [Ht | []]]]];
    injection Ht as <- <-;
    destruct Hv as [Hv | [Hv | [Hv | [Hv | []]]]];
    try discriminate Hv; injection Hv as <-.
  - apply prompt_checked with prompt_A; vm_compute; reflexivity.
  - apply prompt_checked with prompt_B; vm_compute; reflexivity.
  - apply prompt_checked with prompt_C; vm_compute; reflexivity.
  - apply prompt_checked with prompt_D; vm_compute; reflexivity.
Qed.

Lemma prompts_name_title_and_vocabulary_witness :
  exists prompt,
    prompts_getitem Script.repr (u "A") = Ok prompt
    /\ prompt <> []
    /\ (exists a b, prompt = a ++ u "あなたの仕事について" ++ b)
    /\ (forall term,
          In term ["そうだ"; "まあそうだ"; "ややちがう"; "ちがう"]%string ->
          exists a b, prompt = a ++ u term ++ b).
Proof.
  apply (prompts_name_title_and_vocabulary Script.repr "A").
  - simpl. left. reflexivity.
  - simpl. left. reflexivity.
Defined.

(** The tables name the four regions of [BBOX_COORDINATES] and no other,
    and the prompts are kept under the same four names. *)
Lemma region_tables_cover :
  map (fun r => u (fst r)) Spec.region_title = map fst BBOX_COORDINATES
  /\ map (fun r => u (fst r)) Spec.region_vocabulary
     = map fst BBOX_COORDINATES
  /\ map fst prompts = map fst BBOX_COORDINATES.
Proof. repeat split. Qed.

(* ================================================================== *)
(** * Further properties of the program *)

(** ** What the extractor raises *)

(** X1.  Whatever [json_loads] is, an exception that leaves
    [extract_json_from_response] is never a [JSONDecodeError]: it is an
    exception of another class that [json_loads] raised on one of the
    texts handed to it (the whole response, the inner text of the fenced
    block, the brace span). *)
Theorem extract_raises_only_what_loads_raised
  (json_loads : str -> outcome pyval) (text : str) (e : exn) :
  extract_json_from_response json_loads text = Raise e ->
  is_JSONDecodeError e = false
  /\ exists t, In t (Spec.candidates text) /\ json_loads t = Raise e.
Proof.
  rewrite extract_chain. unfold Spec.candidates, try_loads. cbn zeta.
  destruct (json_loads text) as [v|e0] eqn:Hw; [discriminate|].
  destruct (is_JSONDecodeError e0) eqn:He0.
  2:{ intros [= <-]. split; [assumption|]. exists text. split; [now left|assumption]. }
  destruct (Spec.fenced_block text) as [inner|].
  - destruct (json_loads inner) as [v|e1] eqn:Hi; [discriminate|].
    destruct (is_JSONDecodeError e1) eqn:He1.
    2:{ intros [= <-]. split; [assumption|]. exists inner.
        split; [right; now left|assumption]. }
    destruct (Spec.brace_span text) as [span|]; [|discriminate].
    destruct (json_loads span) as [v|e2] eqn:Hs; [discriminate|].
    destruct (is_JSONDecodeError e2) eqn:He2; [discriminate|].
    intros [= <-]. split; [assumption|]. exists span.
    split; [right; right; now left|assumption].
  - destruct (Spec.brace_span text) as [span|]; [|discriminate].
    destruct (json_loads span) as [v|e2] eqn:Hs; [discriminate|].
    destruct (is_JSONDecodeError e2) eqn:He2; [discriminate|].
    intros [= <-]. split; [assumption|]. exists span.
    split; [right; now left|assumption].
Qed.

Lemma extract_raises_only_what_loads_raised_witness :
  exists e,
    extract_json_from_response Json.loads
      (u "```json" ++ repeat (Json.ch "1") 4301 ++ u "```") = Raise e
    /\ is_JSONDecodeError e = false
    /\ exists t,
         In t (Spec.candidates
                 (u "```json" ++ repeat (Json.ch "1") 4301 ++ u "```"))
         /\ Json.loads t = Raise e.
Proof.
  eexists. split; [vm_compute; reflexivity|].
  apply (extract_raises_only_what_loads_raised Json.loads
           (u "```json" ++ repeat (Json.ch "1") 4301 ++ u "```")).
  vm_compute. reflexivity.
Defined.

(** ** Responses of a known form *)

Lemma first_occurrence_of_char (c : char) (x y a z : str) :
  ~ In c x -> x ++ c :: y = a ++ c :: z -> length x <= length a.
Proof.
  revert a. induction x as [|b x IH]; intros a Hn H; [simpl; lia|].
  destruct a as [|b' a].
  - simpl in H. injection H as Hb _. exfalso. apply Hn. now left.
  - simpl in H. injection H as _ H. simpl.
    apply le_n_S, IH; [|exact H]. intros Hin. apply Hn. now right.
Qed.

Lemma tag_head : tag = Json.ch "`" :: u "``json".
Proof. reflexivity. Qed.

Lemma fence_head : fence = Json.ch "`" :: u "``".
Proof. reflexivity. Qed.

(** The fenced block of a text whose first backtick opens the tagged
    fence and whose block holds no backtick. *)
Lemma fenced_block_of_wrapped (pre body post : str) :
  ~ In (Json.ch "`") pre -> ~ In (Json.ch "`") body ->
  Spec.fenced_block (pre ++ tag ++ body ++ fence ++ post)
  = Some (Spec.strip body).
Proof.
  intros Hpre Hbody. apply fenced_block_spec.
  exists pre, body, post. split; [reflexivity|]. split; [reflexivity|].
  split.
  - intros a b. rewrite tag_head. cbn [app]. intros H.
    exact (first_occurrence_of_char _ _ _ _ _ Hpre H).
  - intros a b. rewrite fence_head. cbn [app]. intros H.
    exact (first_occurrence_of_char _ _ _ _ _ Hbody H).
Qed.



(** A character of white space starts no JSON value. *)
Lemma scan_once_space (fuel : nat) (c : char) (s : str) (i : nat) :
  Re.isspace c = true -> Json.is_ws c = false ->
  Json.scan_once (S fuel) (c :: s) i = Json.Stop i.
Proof.
  unfold Re.isspace, Json.is_ws. intros Hs Hw.
  assert (Hc : ((9 <= c <= 13) \/ (28 <= c <= 32) \/ 133 <= c)%N).
  { rewrite !orb_true_iff, !andb_true_iff, !N.leb_le, !N.eqb_eq in Hs. lia. }
  assert (Hne : forall k : N, (33 <= k < 133)%N -> (c =? k)%N = false).
  { intros k Hk. apply N.eqb_neq. lia. }
  assert (Hne' : forall k : N, (33 <= k < 133)%N -> (k =? c)%N = false).
  { intros k Hk. apply N.eqb_neq. lia. }
  cbn [Json.scan_once].
  unfold Json.quote, Json.ch. cbn [N_of_ascii N_of_digits N.add N.mul].
  rewrite !Hne by lia.
  change (u "null") with [110; 117; 108; 108]%N.
  change (u "true") with [116; 114; 117; 101]%N.
  change (u "false") with [102; 97; 108; 115; 101]%N.
  change (u "NaN") with [78; 97; 78]%N.
  change (u "Infinity") with [73; 110; 102; 105; 110; 105; 116; 121]%N.
  change (u "-Infinity") with [45; 73; 110; 102; 105; 110; 105; 116; 121]%N.
  cbn [starts_with]. rewrite !Hne' by lia. cbn [andb].
  unfold Json.match_number, Json.number_sign, Json.number_integer,
    Json.is_digit, Json.ch. cbn [N_of_ascii N_of_digits N.add N.mul].
  rewrite !Hne by lia.
  replace ((48 <=? c)%N && (c <=? 57)%N) with false; [reflexivity|].
  symmetry. apply andb_false_iff. rewrite !N.leb_gt. lia.
Qed.

Lemma skip_ws_blank (s : str) (i : nat) :
  forallb Re.isspace s = true ->
  match fst (Json.skip_ws s i) with
  | [] => True
  | c :: _ => Re.isspace c = true /\ Json.is_ws c = false
  end.
Proof.
  revert i. induction s as [|c s IH]; intros i H; [exact I|].
  cbn [forallb] in H. apply andb_true_iff in H as [Hc Hs].
  cbn [Json.skip_ws]. destruct (Json.is_ws c) eqn:Hw.
  - apply IH, Hs.
  - cbn [fst]. now split.
Qed.

Lemma space_is_no_delimiter (c : char) (s : str) :
  forallb Re.isspace s = true -> (33 <= c < 133)%N -> ~ In c s.
Proof.
  intros H Hc Hin. rewrite forallb_forall in H. specialize (H c Hin).
  unfold Re.isspace in H.
  rewrite !orb_true_iff, !andb_true_iff, !N.leb_le, !N.eqb_eq in H. lia.
Qed.

(** [json.loads] on an empty or blank text. *)
Lemma loads_blank (text : str) :
  forallb Re.isspace text = true ->
  exists e, Json.loads text = Raise e /\ is_JSONDecodeError e = true.
Proof.
  intros H. unfold Json.loads.
  destruct (Json.next_is 65279%N text) eqn:Hb.
  - eexists. split; reflexivity.
  - pose proof (skip_ws_blank text 0 H) as Hs.
    destruct (Json.skip_ws text 0) as [s0 i0]. cbn [fst] in Hs.
    destruct s0 as [|c s0].
    + cbn [Json.scan_once Nat.add Nat.mul]. rewrite Nat.add_comm.
      cbn [Nat.add Json.scan_once]. eexists. split; reflexivity.
    + destruct Hs as [Hc Hw]. rewrite Nat.add_comm. cbn [Nat.add].
      rewrite (scan_once_space _ _ _ _ Hc Hw).
      eexists. split; reflexivity.
Qed.

(** X3.  An empty response, or one of white space only, holds no JSON:
    with CPython's decoder the extractor returns the parse-failure record,
    whose [raw_response] is the response itself when it has at most 500
    characters. *)
Theorem blank_response_is_parse_failure (text : str) :
  forallb Re.isspace text = true ->
  extract_json_from_response Json.loads text = Ok (parse_failure text)
  /\ (length text <= 500 ->
      parse_failure text
      = PDict [(u "error", PStr (u "JSON解析エラー"));
               (u "raw_response", PStr text)]).
Proof.
  intros H. split.
  - rewrite extract_chain.
    destruct (loads_blank text H) as (e & He & Hd).
    unfold try_loads at 1. rewrite He, Hd. cbv zeta.
    assert (Hf : Spec.fenced_block text = None).
    { unfold Spec.fenced_block.
      destruct (Spec.find_sub (u "```json") text) as [[pre body]|] eqn:Hfs;
        [|reflexivity].
      apply find_sub_some in Hfs. exfalso.
      apply (space_is_no_delimiter (Json.ch "`") text H);
        [vm_compute; split; [discriminate|reflexivity]|].
      rewrite Hfs. apply in_or_app. right. now left. }
    assert (Hb : Spec.brace_span text = None).
    { unfold Spec.brace_span.
      destruct (Spec.split_first (Json.ch "{") text) as [[pre post]|] eqn:Hsf;
        [|reflexivity].
      apply split_first_spec in Hsf as [Hsf _]. exfalso.
      apply (space_is_no_delimiter (Json.ch "{") text H);
        [vm_compute; split; [discriminate|reflexivity]|].
      rewrite Hsf. apply in_or_app. right. now left. }
    now rewrite Hf, Hb.
  - intros Hlen. unfold parse_failure, raw_response.
    destruct (500 <? length text) eqn:Hlt; [|reflexivity].
    apply Nat.ltb_lt in Hlt. lia.
Qed.

Lemma blank_response_is_parse_failure_witness :
  extract_json_from_response Json.loads [32; 10; 9; 12288]%N
  = Ok (parse_failure [32; 10; 9; 12288]%N)
  /\ (length [32; 10; 9; 12288]%N <= 500 ->
      parse_failure [32; 10; 9; 12288]%N
      = PDict [(u "error", PStr (u "JSON解析エラー"));
               (u "raw_response", PStr [32; 10; 9; 12288]%N)]).
Proof.
  apply (blank_response_is_parse_failure [32; 10; 9; 12288]%N). reflexivity.
Defined.

(** ** The excerpt of the response in the error object *)

Lemma firstn_of_cut {A} (n : nat) (l x : list A) :
  n <= length l -> firstn n (firstn n l ++ x) = firstn n l.
Proof.
  intros Hn. rewrite firstn_app, length_firstn.
  replace (n - Nat.min n (length l)) with 0 by lia.
  rewrite firstn_O, app_nil_r, firstn_firstn. f_equal. lia.
Qed.

(** X4.  The [raw_response] of the parse-failure record never has more
    than 503 characters and always starts with the first 500 characters of
    the response; cutting it again changes nothing.  It is shorter than
    the response only for a response of more than 503 characters: a
    response of 501 to 503 characters is cut to 500 and grows by the three
    dots. *)
Theorem raw_response_is_bounded (response_text : str) :
  length (raw_response response_text) <= 503
  /\ firstn 500 (raw_response response_text) = firstn 500 response_text
  /\ raw_response (raw_response response_text) = raw_response response_text
  /\ (length (raw_response response_text) < length response_text
      <-> 503 < length response_text).
Proof.
  destruct (Nat.ltb_spec 500 (length response_text)) as [Hlt | Hge].
  - pose proof (raw_response_length response_text Hlt) as Hlen.
    assert (Hraw : raw_response response_text
                   = firstn 500 response_text ++ u "...").
    { unfold raw_response. apply Nat.ltb_lt in Hlt. now rewrite Hlt. }
    split; [lia|]. split.
    { rewrite Hraw. apply firstn_of_cut. lia. }
    split; [|lia].
    unfold raw_response at 1. rewrite Hlen.
    change (500 <? 503) with true. cbv iota.
    rewrite Hraw at 1. rewrite firstn_of_cut by lia. now rewrite Hraw.
  - assert (Hraw : raw_response response_text = response_text).
    { unfold raw_response. apply Nat.ltb_ge in Hge. now rewrite Hge. }
    rewrite !Hraw. split; [lia|]. split; [reflexivity|].
    split; [reflexivity | lia].
Qed.

(** ** The adapter, step by step *)

(** X5.  When every library step succeeds, the adapter returns what the
    extractor makes of [response.text]: the decoded value, or, when the
    extractor raises (an exception of [json.loads] that is no
    [JSONDecodeError]), the error object with the text of that exception.
    The request carried the prompt of the region and the PNG encoding of
    the image it was given, and the image objects are as before. *)
Theorem adapter_returns_extracted_value
  {W Model Response : Type} (lib : library W Model Response)
  (json_loads : str -> outcome pyval) (py_repr : str -> str)
  (image : ref) (section_name : str) (c : char) (key : str)
  (model_name : str) (s : state W)
  (im : PIL.Image) (data : bytes) (model : Model) (prompt : str)
  (response : Response) (t : str) (w1 w2 w3 : W) :
  genai_configure lib (c :: key) (world s) = (Ok tt, w1) ->
  nth_error (images s) image = Some im ->
  save_png lib im = Ok data ->
  genai_GenerativeModel lib model_name w1 = (Ok model, w2) ->
  prompts_getitem py_repr section_name = Ok prompt ->
  generate_content lib model prompt (u "image/png") data w2
  = (Ok response, w3) ->
  response_text lib response = Ok t ->
  analyze_section_with_gemini lib json_loads py_repr image section_name
    (Some (c :: key)) model_name s
  = (Ok match extract_json_from_response json_loads t with
        | Ok v => v
        | Raise e =>
            PDict [(u "error", PStr (u "Gemini API エラー: " ++ exn_str e))]
        end,
     State (images s) w3
       (trace s ++ [EvConfigure (c :: key); EvSave image;
                    EvGenerativeModel model_name;
                    EvGenerateContent prompt (u "image/png") data;
                    EvText])).
Proof.
  intros H1 H2 H3 H4 H5 H6 H7.
  rewrite analyze_with_key.
  rewrite (call_gemini_remote lib json_loads py_repr image section_name
             (c :: key) model_name s im data model prompt w1 w2
             H1 H2 H3 H4 H5), H6.
  cbv zeta. rewrite H7.
  destruct (extract_json_from_response json_loads t); reflexivity.
Qed.

Lemma adapter_returns_extracted_value_witness :
  Script.analyze 0 (u "C") (Some (u "key")) (u "gemini-2.5-pro")
    (Script.start [Ok (repeat (Json.ch "1") 4301)])
  = (Ok match
          extract_json_from_response Json.loads (repeat (Json.ch "1") 4301)
        with
        | Ok v => v
        | Raise e =>
            PDict [(u "error", PStr (u "Gemini API エラー: " ++ exn_str e))]
        end,
     State [Script.image0] []
       [EvConfigure (u "key"); EvSave 0;
        EvGenerativeModel (u "gemini-2.5-pro");
        EvGenerateContent prompt_C (u "image/png") (PIL.data Script.image0);
        EvText]).
Proof.
  apply (adapter_returns_extracted_value Script.lib Json.loads Script.repr
           0 (u "C") (Json.ch "k") (u "ey") (u "gemini-2.5-pro")
           (Script.start [Ok (repeat (Json.ch "1") 4301)])
           Script.image0 (PIL.data Script.image0) (u "gemini-2.5-pro")
           prompt_C (repeat (Json.ch "1") 4301) (repeat (Json.ch "1") 4301)
           [Ok (repeat (Json.ch "1") 4301)] [Ok (repeat (Json.ch "1") 4301)]
           []); reflexivity.
Defined.

(** The calls of one run of the [try] block, in their order. *)
Lemma call_gemini_order
  {W Model Response : Type} (lib : library W Model Response)
  (json_loads : str -> outcome pyval) (py_repr : str -> str)
  (image : ref) (section_name key model_name : str) (s : state W)
  (r : outcome pyval) (s' : state W) :
  call_gemini lib json_loads py_repr image section_name key model_name s
  = (r, s') ->
  images s' = images s
  /\ exists n prompt data,
       trace s'
       = trace s
         ++ firstn n [EvConfigure key; EvSave image;
                      EvGenerativeModel model_name;
                      EvGenerateContent prompt (u "image/png") data; EvText]
       /\ 1 <= n
       /\ (4 <= n ->
           prompts_getitem py_repr section_name = Ok prompt
           /\ exists im,
                nth_error (images s) image = Some im
                /\ save_png lib im = Ok data).
Proof.
  unfold call_gemini, bind, log, call, deref, lift, ret.
  destruct s as [ims w tr]. cbn [images world trace].
  destruct (genai_configure lib key w) as [[[]|e] w1].
  2:{ intros [= <- <-]. split; [reflexivity|]. exists 1, [], [].
      cbn [images trace firstn]. repeat split; lia. }
  cbn [images world trace].
  destruct (nth_error ims image) as [im|] eqn:Him.
  2:{ intros [= <- <-]. split; [reflexivity|]. exists 2, [], [].
      cbn [images trace firstn]. rewrite <- app_assoc.
      repeat split; lia. }
  destruct (save_png lib im) as [data|e] eqn:Hsave.
  2:{ intros [= <- <-]. split; [reflexivity|]. exists 2, [], [].
      cbn [images trace firstn]. rewrite <- app_assoc.
      repeat split; lia. }
  cbn [images world trace].
  destruct (genai_GenerativeModel lib model_name w1) as [[model|e] w2].
  2:{ intros [= <- <-]. split; [reflexivity|]. exists 3, [], [].
      cbn [images trace firstn]. rewrite <- !app_assoc.
      repeat split; lia. }
  destruct (prompts_getitem py_repr section_name) as [prompt|e] eqn:Hp.
  2:{ intros [= <- <-]. split; [reflexivity|]. exists 3, [], [].
      cbn [images trace firstn]. rewrite <- !app_assoc.
      repeat split; lia. }
  cbn [images world trace].
  assert (Hfour : Ok prompt = Ok prompt
                  /\ exists im0, Some im = Some im0 /\ save_png lib im0 = Ok data)
    by (split; [reflexivity | exists im; split; [reflexivity | exact Hsave]]).
  destruct (generate_content lib model prompt (u "image/png") data w2)
    as [[response|e] w3].
  2:{ intros [= <- <-]. split; [reflexivity|]. exists 4, prompt, data.
      cbn [images trace firstn]. rewrite <- !app_assoc.
      repeat split; try lia; apply Hfour. }
  cbn [images world trace].
  assert (Hall :
    forall r0 : outcome pyval,
      (r0, State ims w3
             (((((tr ++ [EvConfigure key]) ++ [EvSave image])
                  ++ [EvGenerativeModel model_name])
                 ++ [EvGenerateContent prompt (u "image/png") data])
                ++ [EvText])) = (r, s') ->
      images s' = ims
      /\ exists n prompt0 data0,
           trace s'
           = tr ++ firstn n [EvConfigure key; EvSave image;
                             EvGenerativeModel model_name;
                             EvGenerateContent prompt0 (u "image/png") data0;
                             EvText]
           /\ 1 <= n
           /\ (4 <= n ->
               Ok prompt = Ok prompt0
               /\ exists im0,
                    Some im = Some im0 /\ save_png lib im0 = Ok data0)).
  { intros r0 [= <- <-]. split; [reflexivity|]. exists 5, prompt, data.
    cbn [images trace firstn]. rewrite <- !app_assoc.
    repeat split; try lia; apply Hfour. }
  destruct (response_text lib response) as [t|e]; [|apply Hall].
  destruct (extract_json_from_response json_loads t); apply Hall.
Qed.


(** [prompts] has an entry for the regions of [BBOX_COORDINATES] and for
    nothing else. *)
Lemma prompts_getitem_unknown (py_repr : str -> str) (section_name : str) :
  ~ In section_name (map fst BBOX_COORDINATES) ->
  prompts_getitem py_repr section_name
  = Raise (Exn KeyError (py_repr section_name)).
Proof.
  intros Hn. unfold prompts_getitem, prompts. cbn [find fst snd].
  unfold Str.eqb.
  repeat match goal with
         | |- context [list_eq_dec N.eq_dec ?k section_name] =>
             destruct (list_eq_dec N.eq_dec k section_name) as [<-|_];
             [exfalso; apply Hn; vm_compute; tauto|]
         end.
  reflexivity.
Qed.

(** X7.  A section name that is none of the regions has no prompt:
    [prompts[section_name]] raises [KeyError], which the handler of the
    adapter turns into an error object.  No request is sent for it, though
    when the steps before the prompt succeed the key has been configured,
    the image encoded and the model object built by then. *)
Theorem unknown_section_sends_nothing
  {W Model Response : Type} (lib : library W Model Response)
  (json_loads : str -> outcome pyval) (py_repr : str -> str)
  (image : ref) (section_name : str) (c : char) (key : str)
  (model_name : str) (s : state W) :
  ~ In section_name (map fst BBOX_COORDINATES) ->
  exists e s',
    analyze_section_with_gemini lib json_loads py_repr image section_name
      (Some (c :: key)) model_name s
    = (Ok (PDict [(u "error", PStr (u "Gemini API エラー: " ++ exn_str e))]),
       s')
    /\ remote_calls (trace s') = remote_calls (trace s)
    /\ (forall im data model w1 w2,
          genai_configure lib (c :: key) (world s) = (Ok tt, w1) ->
          nth_error (images s) image = Some im ->
          save_png lib im = Ok data ->
          genai_GenerativeModel lib model_name w1 = (Ok model, w2) ->
          e = Exn KeyError (py_repr section_name)
          /\ s' = State (images s) w2
                    (trace s ++ [EvConfigure (c :: key); EvSave image;
                                 EvGenerativeModel model_name])).
Proof.
  intros Hn. rewrite analyze_with_key.
  unfold call_gemini, bind, log, call, deref, lift, ret.
  rewrite (prompts_getitem_unknown py_repr section_name Hn).
  destruct s as [ims w tr]. cbn [images world trace].
  destruct (genai_configure lib (c :: key) w) as [[[]|e] w1].
  2:{ exists e. eexists. split; [reflexivity|]. cbn [trace]. split.
      - rewrite remote_calls_app. cbn. lia.
      - intros im data model w1' w2 [=]. }
  cbn [images world trace].
  destruct (nth_error ims image) as [im|].
  2:{ eexists. eexists. split; [reflexivity|]. cbn [trace]. split.
      - rewrite !remote_calls_app. cbn. lia.
      - intros im data model w1' w2 _ [=]. }
  destruct (save_png lib im) as [data|e] eqn:Hsave.
  2:{ exists e. eexists. split; [reflexivity|]. cbn [trace]. split.
      - rewrite !remote_calls_app. cbn. lia.
      - intros im' data model w1' w2 _ [= <-] Hs'. congruence. }
  cbn [images world trace].
  destruct (genai_GenerativeModel lib model_name w1) as [[model|e] w2]
    eqn:Hmodel.
  2:{ exists e. eexists. split; [reflexivity|]. cbn [trace]. split.
      - rewrite !remote_calls_app. cbn. lia.
      - intros im' data' model w1' w2' [= <-] _ _ Hm. congruence. }
  eexists. eexists. split; [reflexivity|]. cbn [trace]. split.
  - rewrite !remote_calls_app. cbn. lia.
  - intros im' data' model' w1' w2' [= <-] _ _ Hm.
    rewrite Hmodel in Hm. injection Hm as _ <-.
    split; [reflexivity|]. rewrite <- !app_assoc. reflexivity.
Qed.

Lemma unknown_section_sends_nothing_witness :
  exists e s',
    Script.analyze 0 (u "E") (Some (u "key")) (u "gemini-2.5-pro")
      (Script.start [Ok (u "unused")])
    = (Ok (PDict [(u "error", PStr (u "Gemini API エラー: " ++ exn_str e))]),
       s')
    /\ remote_calls (trace s') = 0
    /\ e = Exn KeyError (u "'E'")
    /\ world s' = [Ok (u "unused")].
Proof.
  destruct (unknown_section_sends_nothing Script.lib Json.loads Script.repr
              0 (u "E") (Json.ch "k") (u "ey") (u "gemini-2.5-pro")
              (Script.start [Ok (u "unused")]))
    as (e & s' & H & Hr & Hk).
  - vm_compute. intuition discriminate.
  - destruct (Hk Script.image0 (PIL.data Script.image0) (u "gemini-2.5-pro")
                [Ok (u "unused")] [Ok (u "unused")]
                eq_refl eq_refl eq_refl eq_refl) as [He Hs].
    exists e, s'. split; [exact H|]. split; [exact Hr|].
    split; [exact He|]. rewrite Hs. reflexivity.
Defined.

(** ** The prompts, region by region *)

Lemma prompts_getitem_cases (py_repr : str -> str) (section prompt : str) :
  prompts_getitem py_repr section = Ok prompt ->
  In (section, prompt) prompts.
Proof.
  unfold prompts_getitem.
  destruct (find _ prompts) as [[k p]|] eqn:Hf; [|discriminate].
  intros [= <-]. apply find_some in Hf as [Hin Heq]. cbn [fst snd] in Heq |- *.
  unfold Str.eqb in Heq.
  destruct (list_eq_dec N.eq_dec k section) as [<-|]; [exact Hin | discriminate].
Qed.

(** X8.  The prompt of a region is about that region and no other: its
    example object carries ["section": "<the region>"], it asks for JSON,
    and it holds the title of no other region. *)
Theorem prompts_are_region_specific
  (py_repr : str -> str) (section prompt : str) :
  prompts_getitem py_repr section = Ok prompt ->
  (exists a b,
      prompt = a ++ (u (q "section" ++ ": " ++ dq) ++ section ++ u dq) ++ b)
  /\ (exists a b, prompt = a ++ u "JSON形式で回答してください" ++ b)
  /\ forall other title,
       In (other, title) Spec.region_title -> u other <> section ->
       ~ exists a b, prompt = a ++ u title ++ b.
Proof.
  intros Hp. apply prompts_getitem_cases in Hp.
  assert (Hcheck :
    forallb
      (fun kv : str * str =>
         Str.contains (u (q "section" ++ ": " ++ dq) ++ fst kv ++ u dq)
           (snd kv)
         && Str.contains (u "JSON形式で回答してください") (snd kv)
         && forallb
              (fun r : string * string =>
                 Str.eqb (u (fst r)) (fst kv)
                 || negb (Str.contains (u (snd r)) (snd kv)))
              Spec.region_title)
      prompts = true) by (vm_compute; reflexivity).
  rewrite forallb_forall in Hcheck. specialize (Hcheck _ Hp).
  cbn [fst snd] in Hcheck.
  apply andb_true_iff in Hcheck as [Hcheck Hothers].
  apply andb_true_iff in Hcheck as [Hsection Hjson].
  split; [now apply contains_spec|]. split; [now apply contains_spec|].
  intros other title Hin Hne Hex.
  rewrite forallb_forall in Hothers. specialize (Hothers _ Hin).
  cbn [fst snd] in Hothers. apply orb_true_iff in Hothers as [Heq | Hno].
  - unfold Str.eqb in Heq.
    destruct (list_eq_dec N.eq_dec (u other) section); congruence.
  - apply negb_true_iff in Hno. apply contains_spec in Hex. congruence.
Qed.

Lemma prompts_are_region_specific_witness :
  (exists a b,
      prompt_C = a ++ (u (q "section" ++ ": " ++ dq) ++ u "C" ++ u dq) ++ b)
  /\ (exists a b, prompt_C = a ++ u "JSON形式で回答してください" ++ b)
  /\ forall other title,
       In (other, title) Spec.region_title -> u other <> u "C" ->
       ~ exists a b, prompt_C = a ++ u title ++ b.
Proof.
  apply (prompts_are_region_specific Script.repr (u "C") prompt_C).
  reflexivity.
Defined.

(** ** The cropper on any box *)



(** X10.  Whatever the image reference and the box, the cropper leaves
    every existing image object and the outside world as they are.  When
    it returns, exactly one image object has been created and the result
    refers to it; when it raises, none has. *)
Theorem crop_creates_one_image_or_none
  {W : Type} (s : state W) (image : ref) (bbox : list Z) :
  exists r s',
    crop_image_by_bbox image bbox s = (r, s')
    /\ world s' = world s
    /\ (forall i, i < length (images s) ->
                  nth_error (images s') i = nth_error (images s) i)
    /\ match r with
       | Ok cropped_image =>
           cropped_image = length (images s)
           /\ length (images s') = S (length (images s))
       | Raise _ => images s' = images s
       end.
Proof.
  destruct s as [ims w tr].
  destruct bbox as [|x1 [|y1 [|x2 [|y2 [|z bbox]]]]];
    try (eexists; eexists; split; [reflexivity|]; cbn; auto).
  unfold crop_image_by_bbox, Image_crop, bind, log, deref, lift, alloc.
  cbn [images world trace].
  destruct (nth_error ims image) as [im|];
    [|eexists; eexists; split; [reflexivity|]; cbn; auto].
  destruct (PIL.crop im (x1, y1, x2, y2)) as [cropped|e];
    eexists; eexists; (split; [reflexivity|]); cbn [images world];
    [|auto].
  split; [reflexivity|]. split.
  - intros i Hi. now rewrite nth_error_app1.
  - split; [reflexivity|]. rewrite length_app. cbn. lia.
Qed.

(** X11.  Each region of [BBOX_COORDINATES] can be cropped from an image
    of any size: the box has a positive width and height, so Pillow
    accepts it, and the crop has the size of the box whatever the size of
    the image.  Its pixel [(i, j)] is the pixel [(x1 + i, y1 + j)] of the
    image where the image has one, and zero where the box reaches beyond
    the image. *)
Theorem regions_crop_from_any_image
  {W : Type} (s : state W) (image : ref) (im : PIL.Image)
  (section : str) (bbox : list Z) :
  nth_error (images s) image = Some im ->
  In (section, bbox) BBOX_COORDINATES ->
  exists x1 y1 x2 y2 cropped,
    bbox = [x1; y1; x2; y2]
    /\ (0 < x2 - x1)%Z /\ (0 < y2 - y1)%Z
    /\ crop_image_by_bbox image bbox s
       = (Ok (length (images s)),
          State (images s ++ [cropped]) (world s)
            (trace s ++ [EvCrop image (x1, y1, x2, y2)]))
    /\ PIL.size cropped = ((x2 - x1)%Z, (y2 - y1)%Z)
    /\ PIL.well_formed cropped
    /\ forall i j,
         (0 <= i < x2 - x1)%Z -> (0 <= j < y2 - y1)%Z ->
         PIL.getpixel cropped i j
         = if PIL.inside im (x1 + i) (y1 + j)
           then PIL.getpixel im (x1 + i) (y1 + j) else 0%N.
Proof.
  intros Him Hin. rewrite BBOX_COORDINATES_items in Hin.
  assert (Hbox : exists x1 y1 x2 y2,
             bbox = [x1; y1; x2; y2] /\ (0 < x2 - x1)%Z /\ (0 < y2 - y1)%Z).
  { destruct Hin as [H | [H | [H | [H | []]]]]; injection H as _ <-;
      do 4 eexists; (split; [reflexivity|]); lia. }
  destruct Hbox as (x1 & y1 & x2 & y2 & -> & Hx & Hy).
  exists x1, y1, x2, y2,
    (PIL.MkImage (x2 - x1) (y2 - y1) (PIL.crop_data im x1 y1 x2 y2)).
  split; [reflexivity|]. split; [exact Hx|]. split; [exact Hy|]. split.
  { apply crop_image_by_bbox_run; [exact Him | lia | lia]. }
  split; [reflexivity|]. split.
  { apply crop_well_formed; lia. }
  intros i j Hi Hj. rewrite crop_getpixel by assumption.
  unfold PIL.getpixel. destruct (PIL.inside im (x1 + i) (y1 + j)); reflexivity.
Qed.

Lemma regions_crop_from_any_image_witness :
  exists x1 y1 x2 y2 cropped,
    [45; 1083; 320; 1200]%Z = [x1; y1; x2; y2]
    /\ (0 < x2 - x1)%Z /\ (0 < y2 - y1)%Z
    /\ crop_image_by_bbox 0 [45; 1083; 320; 1200]%Z (Script.start [])
       = (Ok 1,
          State ([Script.image0] ++ [cropped]) []
            ([] ++ [EvCrop 0 (x1, y1, x2, y2)]))
    /\ PIL.size cropped = ((x2 - x1)%Z, (y2 - y1)%Z)
    /\ PIL.well_formed cropped
    /\ forall i j,
         (0 <= i < x2 - x1)%Z -> (0 <= j < y2 - y1)%Z ->
         PIL.getpixel cropped i j
         = if PIL.inside Script.image0 (x1 + i) (y1 + j)
           then PIL.getpixel Script.image0 (x1 + i) (y1 + j) else 0%N.
Proof.
  apply (regions_crop_from_any_image (Script.start []) 0 Script.image0
           (u "D") [45; 1083; 320; 1200]%Z).
  - reflexivity.
  - right. right. right. left. reflexivity.
Defined.

(** X12.  The regions of [BBOX_COORDINATES] are named apart and do not
    overlap: no pixel of the image lies in the boxes of two regions, so no
    part of the questionnaire is sent with two prompts. *)
Theorem regions_do_not_overlap
  (section1 section2 : str) (a1 b1 c1 d1 a2 b2 c2 d2 x y : Z) :
  In (section1, [a1; b1; c1; d1]) BBOX_COORDINATES ->
  In (section2, [a2; b2; c2; d2]) BBOX_COORDINATES ->
  (a1 <= x < c1)%Z -> (b1 <= y < d1)%Z ->
  (a2 <= x < c2)%Z -> (b2 <= y < d2)%Z ->
  section1 = section2 /\ [a1; b1; c1; d1] = [a2; b2; c2; d2].
Proof.
  rewrite BBOX_COORDINATES_items.
  intros H1 H2 Hx1 Hy1 Hx2 Hy2.
  destruct H1 as [H1 | [H1 | [H1 | [H1 | []]]]];
    injection H1 as <- <- <- <- <-;
    destruct H2 as [H2 | [H2 | [H2 | [H2 | []]]]];
    injection H2 as <- <- <- <- <-;
    first [split; reflexivity | exfalso; lia].
Qed.

Lemma regions_do_not_overlap_witness :
  u "B" = u "B" /\ [47; 504; 880; 902]%Z = [47; 504; 880; 902]%Z.
Proof.
  apply (regions_do_not_overlap (u "B") (u "B") 47 504 880 902 47 504 880 902
           100 600).
  - right. left. reflexivity.
  - right. left. reflexivity.
  - lia.
  - lia.
  - lia.
  - lia.
Defined.

(** ** Crops of crops and the crop of the whole image *)

Lemma crop_data_whole (im : PIL.Image) :
  PIL.well_formed im ->
  PIL.crop_data im 0 0 (PIL.width im) (PIL.height im) = PIL.data im.
Proof.
  intros (Hw & Hh & Hlen).
  assert (Hlen' : length (PIL.data im)
                  = Z.to_nat (PIL.height im) * Z.to_nat (PIL.width im)).
  { rewrite Hlen, Z2Nat.inj_mul by assumption. apply Nat.mul_comm. }
  apply nth_ext with (d := 0%N) (d' := 0%N).
  - rewrite crop_data_length, !Z.sub_0_r. now rewrite Hlen'.
  - intros n Hn. rewrite crop_data_length, !Z.sub_0_r in Hn.
    set (W := Z.to_nat (PIL.width im)) in *.
    set (H := Z.to_nat (PIL.height im)) in *.
    assert (HW : W <> 0) by (intros HW0; rewrite HW0 in Hn; lia).
    pose proof (Nat.div_mod_eq n W) as Hdm.
    pose proof (Nat.mod_upper_bound n W HW) as Hi.
    assert (Hj : n / W < H).
    { apply Nat.Div0.div_lt_upper_bound. lia. }
    replace n with ((n / W) * W + n mod W) at 1 by lia.
    pose proof (crop_data_nth im 0 0 (PIL.width im) (PIL.height im)
                  (n mod W) (n / W)) as Hnth.
    rewrite !Z.sub_0_r in Hnth. fold W in Hnth. fold H in Hnth.
    rewrite (Hnth Hi Hj). unfold PIL.getpixel, PIL.inside.
    replace ((0 <=? 0 + Z.of_nat (n mod W))%Z
             && (0 + Z.of_nat (n mod W) <? PIL.width im)%Z
             && (0 <=? 0 + Z.of_nat (n / W))%Z
             && (0 + Z.of_nat (n / W) <? PIL.height im)%Z)
      with true.
    + f_equal. unfold W in *. unfold H in *. nia.
    + symmetry. rewrite !andb_true_iff, !Z.leb_le, !Z.ltb_lt.
      unfold W in *. unfold H in *. lia.
Qed.



Lemma flat_map_same {A B} (f g : A -> list B) (l : list A) :
  (forall a, In a l -> f a = g a) -> flat_map f l = flat_map g l.
Proof.
  induction l as [|a l IH]; intros H; [reflexivity|].
  cbn [flat_map]. rewrite (H a) by now left.
  rewrite IH; [reflexivity|]. intros x Hx. apply H. now right.
Qed.

Lemma crop_data_compose (im : PIL.Image) (a b c d x1 y1 x2 y2 : Z) :
  (0 <= x1)%Z -> (x1 <= x2)%Z -> (x2 <= c - a)%Z ->
  (0 <= y1)%Z -> (y1 <= y2)%Z -> (y2 <= d - b)%Z ->
  PIL.crop_data
    (PIL.MkImage (c - a) (d - b) (PIL.crop_data im a b c d)) x1 y1 x2 y2
  = PIL.crop_data im (a + x1) (b + y1) (a + x2) (b + y2).
Proof.
  intros Hx1 Hx Hx2 Hy1 Hy Hy2. unfold PIL.crop_data at 1 3.
  replace (a + x2 - (a + x1))%Z with (x2 - x1)%Z by lia.
  replace (b + y2 - (b + y1))%Z with (y2 - y1)%Z by lia.
  apply flat_map_same. intros j Hj. apply in_seq in Hj.
  apply map_ext_in. intros i Hi. apply in_seq in Hi.
  rewrite crop_getpixel by lia. f_equal; lia.
Qed.



(** ** The display of a result and the outcomes of [main] *)

Lemma existsb_str_in (k : str) (l : list pyval) :
  existsb (fun x => match x with
                    | PStr s => Str.eqb s k
                    | _ => false
                    end) l = true
  <-> In (PStr k) l.
Proof.
  rewrite existsb_exists. split.
  - intros (x & Hin & Hx). destruct x; try discriminate.
    unfold Str.eqb in Hx.
    destruct (list_eq_dec N.eq_dec s k) as [->|]; [exact Hin | discriminate].
  - intros Hin. exists (PStr k). split; [exact Hin|].
    unfold Str.eqb. destruct (list_eq_dec N.eq_dec k k); congruence.
Qed.

(** The tests and subscripts of the display raise nothing but
    [TypeError]. *)
Lemma show_result_raises_type_error (py_repr : str -> str) (result : pyval)
      (e : exn) :
  show_result py_repr result = Raise e -> exn_cls e = TypeError.
Proof.
  destruct result as [| b | z | lexeme | s | l | d];
    try (intros [= <-]; reflexivity).
  - unfold show_result, and_then, py_in, py_getitem.
    destruct (Str.contains (u "error") s); [|discriminate].
    intros [= <-]. reflexivity.
  - unfold show_result, and_then, py_in, py_getitem.
    destruct (existsb _ l); [|discriminate].
    intros [= <-]. reflexivity.
  - rewrite show_result_dict. discriminate.
Qed.

(** X15.  The loop of [main] goes on after a result exactly when the
    result is a dictionary, a list without the string ["error"] among its
    elements, or a string without the substring ["error"].  On every other
    result (a number, a truth value, [None], a list or string that holds
    ["error"]) the tests and subscripts of the display raise [TypeError];
    they raise nothing else, and a dictionary never makes them raise. *)
Theorem display_accepts_dictionaries (py_repr : str -> str) (result : pyval) :
  (show_result py_repr result = Ok tt
   <-> match result with
       | PDict _ => True
       | PList l => ~ In (PStr (u "error")) l
       | PStr s => ~ exists a b, s = a ++ u "error" ++ b
       | _ => False
       end)
  /\ (forall e, show_result py_repr result = Raise e -> exn_cls e = TypeError).
Proof.
  split; [|apply show_result_raises_type_error].
  destruct result as [| b | z | lexeme | s | l | d].
  1-4: split; [discriminate | intros []].
  - unfold show_result, and_then, py_in, py_getitem.
    destruct (Str.contains (u "error") s) eqn:Hc.
    + apply contains_spec in Hc.
      split; [discriminate | intros Hn; contradiction].
    + split; [|reflexivity].
      intros _ Hex. apply contains_spec in Hex. congruence.
  - unfold show_result, and_then, py_in, py_getitem.
    destruct (existsb _ l) eqn:Hc.
    + apply existsb_str_in in Hc.
      split; [discriminate | intros Hn; contradiction].
    + split; [|reflexivity].
      intros _ Hin. apply existsb_str_in in Hin. congruence.
  - rewrite show_result_dict. tauto.
Qed.

Section MainFacts.

Variables W Model Response : Type.
Variable lib : library W Model Response.
Variable json_loads : str -> outcome pyval.
Variable py_repr : str -> str.

(** The loop on any items whose boxes Pillow accepts: it ends with one
    entry per item, or with the [TypeError] of the display at one of
    them. *)
Lemma main_loop_outcomes image api_key model_name im items :
  Forall (fun it => exists x1 y1 x2 y2,
              snd it = [x1; y1; x2; y2] /\ (x1 <= x2)%Z /\ (y1 <= y2)%Z)
         items ->
  forall results s,
    nth_error (images s) image = Some im ->
    exists r s' new,
      main_loop lib json_loads py_repr items image api_key model_name
        results s = (r, s')
      /\ images s' = images s ++ new
      /\ remote_calls (trace s') <= remote_calls (trace s) + length new
      /\ match r with
         | Ok d =>
             length new = length items
             /\ exists entries,
                  d = fold_left (fun d kv => Dict.set d (fst kv) (snd kv))
                                entries results
                  /\ map fst entries = map fst items
                  /\ Forall (fun kv => show_result py_repr (snd kv) = Ok tt)
                            entries
                  /\ Forall (adapter_result lib json_loads py_repr api_key
                               model_name) entries
         | Raise e =>
             1 <= length new <= length items /\ exn_cls e = TypeError
         end.
Proof.
  intros Hitems. induction Hitems as [|[section bbox] items Hb _ IH];
    intros results s Him.
  - exists (Ok results), s, []. cbn [main_loop ret length].
    rewrite app_nil_r. repeat split; try lia.
    exists []. repeat split; constructor.
  - destruct Hb as (x1 & y1 & x2 & y2 & Hbox & Hx & Hy).
    cbn [snd] in Hbox. subst bbox.
    rewrite main_loop_cons.
    rewrite (crop_image_by_bbox_run s image im x1 y1 x2 y2 Him Hx Hy).
    set (cropped := PIL.MkImage _ _ _).
    set (s1 := State _ _ _).
    destruct (analyze_returns lib json_loads py_repr (length (images s))
                section api_key model_name s1) as (v & s2 & Hv).
    rewrite Hv.
    pose proof (analyze_trace _ _ _ _ _ _ _ _ _ _ Hv) as [Hims Hcalls].
    assert (Hcalls1 : remote_calls (trace s1) = remote_calls (trace s)).
    { unfold s1. cbn [trace]. rewrite remote_calls_app.
      cbv [remote_calls filter length]. lia. }
    destruct (show_result py_repr v) as [[]|e] eqn:Hshow.
    + assert (Him2 : nth_error (images s2) image = Some im).
      { rewrite Hims. unfold s1. cbn [images].
        rewrite nth_error_app1; [exact Him|].
        apply nth_error_Some. rewrite Him. discriminate. }
      destruct (IH (Dict.set results section v) s2 Him2)
        as (r & s' & new & Hrun & Hnew & Hn & Hr).
      exists r, s', (cropped :: new). split; [exact Hrun|].
      split.
      { rewrite Hnew, Hims. unfold s1. cbn [images].
        now rewrite <- app_assoc. }
      split; [cbn [length]; lia|].
      destruct r as [d|e].
      * destruct Hr as (Hlen & entries & Hd & Hkeys & Hshown & Hres).
        split; [cbn [length]; lia|].
        exists ((section, v) :: entries). split; [exact Hd|].
        split; [cbn [map fst]; now rewrite Hkeys|].
        split; [constructor; [exact Hshow | exact Hshown]|].
        constructor; [|exact Hres].
        exists (length (images s)), s1, s2. exact Hv.
      * destruct Hr as [Hlen He]. split; [cbn [length]; lia | exact He].
    + exists (Raise e), s2, [cropped]. split; [reflexivity|].
      split; [rewrite Hims; reflexivity|].
      split; [cbn [length]; lia|].
      split; [cbn [length]; lia|].
      exact (show_result_raises_type_error py_repr v e Hshow).
Qed.

End MainFacts.



(** ** What is sent for each region *)

Lemma request_in_calls (n : nat) (e1 e2 e3 e5 : event)
      (prompt mime : str) (data : bytes) (prompt' mime' : str) (data' : bytes) :
  (forall p m d, e1 <> EvGenerateContent p m d) ->
  (forall p m d, e2 <> EvGenerateContent p m d) ->
  (forall p m d, e3 <> EvGenerateContent p m d) ->
  (forall p m d, e5 <> EvGenerateContent p m d) ->
  In (EvGenerateContent prompt' mime' data')
     (firstn n [e1; e2; e3; EvGenerateContent prompt mime data; e5]) ->
  4 <= n /\ prompt' = prompt /\ mime' = mime /\ data' = data.
Proof.
  intros H1 H2 H3 H5 Hin.
  assert (Hcases : forall l,
             In (EvGenerateContent prompt' mime' data') l ->
             incl l [e1; e2; e3; EvGenerateContent prompt mime data; e5] ->
             (prompt' = prompt /\ mime' = mime /\ data' = data)
             /\ In (EvGenerateContent prompt mime data) l).
  { intros l Hl Hincl. pose proof (Hincl _ Hl) as H. cbn [In] in H.
    destruct H as [H | [H | [H | [H | [H | []]]]]];
      try (exfalso; first [exact (H1 _ _ _ H) | exact (H2 _ _ _ H)
                          | exact (H3 _ _ _ H) | exact (H5 _ _ _ H)]).
    injection H as <- <- <-. now repeat split. }
  destruct (Hcases _ Hin) as [Heq Hin'].
  { intros e He. rewrite <- (firstn_skipn n). apply in_or_app. now left. }
  split; [|exact Heq].
  destruct (le_lt_dec 4 n) as [Hn | Hn]; [exact Hn | exfalso].
  assert (Hn' : n = 0 \/ n = 1 \/ n = 2 \/ n = 3) by lia.
  destruct Hn' as [-> | [-> | [-> | ->]]]; cbn [firstn In] in Hin';
    repeat match goal with
           | H : _ \/ _ |- _ => destruct H
           end;
    try contradiction;
    match goal with
    | H : _ = EvGenerateContent _ _ _ |- _ =>
        first [exact (H1 _ _ _ H) | exact (H2 _ _ _ H) | exact (H3 _ _ _ H)]
    end.
Qed.

Section RequestFacts.

Variables W Model Response : Type.
Variable lib : library W Model Response.
Variable json_loads : str -> outcome pyval.
Variable py_repr : str -> str.

(** A request of the loop is the prompt of one of the items with the
    PNG encoding of the crop of the image by the box of that item. *)
Local Abbreviation pairs_prompt_with_crop im items ev :=
  (forall prompt mime data,
      ev = EvGenerateContent prompt mime data ->
      exists section x1 y1 x2 y2,
        In (section, [x1; y1; x2; y2]) items
        /\ prompts_getitem py_repr section = Ok prompt
        /\ mime = u "image/png"
        /\ save_png lib
             (PIL.MkImage (x2 - x1) (y2 - y1) (PIL.crop_data im x1 y1 x2 y2))
           = Ok data).

Lemma main_loop_requests image c key model_name im items :
  Forall (fun it => exists x1 y1 x2 y2,
              snd it = [x1; y1; x2; y2] /\ (x1 <= x2)%Z /\ (y1 <= y2)%Z)
         items ->
  forall results s r s',
    nth_error (images s) image = Some im ->
    main_loop lib json_loads py_repr items image (Some (c :: key)) model_name
      results s = (r, s') ->
    exists evs,
      trace s' = trace s ++ evs
      /\ Forall (fun ev => pairs_prompt_with_crop im items ev) evs.
Proof.
  intros Hitems. induction Hitems as [|[section bbox] items Hb _ IH];
    intros results s r s' Him.
  - cbn [main_loop ret]. intros [= <- <-]. exists [].
    now rewrite app_nil_r.
  - destruct Hb as (x1 & y1 & x2 & y2 & Hbox & Hx & Hy).
    cbn [snd] in Hbox. subst bbox.
    rewrite main_loop_cons.
    rewrite (crop_image_by_bbox_run s image im x1 y1 x2 y2 Him Hx Hy).
    set (cropped := PIL.MkImage _ _ _).
    set (s1 := State _ _ _).
    rewrite analyze_with_key.
    destruct (call_gemini lib json_loads py_repr (length (images s)) section
                (c :: key) model_name s1) as [r1 s2] eqn:Hcall.
    destruct (call_gemini_order lib json_loads py_repr _ _ _ _ _ _ _ Hcall)
      as (Hims & n & prompt & data & Htrace & _ & Hfour).
    assert (Hhere :
      Forall (fun ev =>
                pairs_prompt_with_crop im ((section, [x1; y1; x2; y2]) :: items)
                  ev)
        (EvCrop image (x1, y1, x2, y2)
         :: firstn n [EvConfigure (c :: key); EvSave (length (images s));
                      EvGenerativeModel model_name;
                      EvGenerateContent prompt (u "image/png") data;
                      EvText])).
    { constructor; [intros p m d; discriminate|].
      apply Forall_forall. intros ev Hin p m d ->.
      apply request_in_calls in Hin as (Hn & -> & -> & ->);
        try (intros; discriminate).
      destruct (Hfour Hn) as (Hp & im' & Him' & Hsave).
      unfold s1 in Him'. cbn [images] in Him'.
      rewrite nth_error_app2 in Him' by lia.
      rewrite Nat.sub_diag in Him'. cbn [nth_error] in Him'.
      injection Him' as <-.
      exists section, x1, y1, x2, y2. split; [now left|].
      split; [exact Hp|]. split; [reflexivity | exact Hsave]. }
    assert (Htr2 : trace s2
                   = trace s
                     ++ EvCrop image (x1, y1, x2, y2)
                        :: firstn n [EvConfigure (c :: key);
                                     EvSave (length (images s));
                                     EvGenerativeModel model_name;
                                     EvGenerateContent prompt (u "image/png")
                                       data;
                                     EvText]).
    { rewrite Htrace. unfold s1. cbn [trace]. now rewrite <- app_assoc. }
    assert (Hend : forall r0 : outcome Dict.dict,
               (r0, s2) = (r, s') ->
               exists evs,
                 trace s' = trace s ++ evs
                 /\ Forall (fun ev =>
                              pairs_prompt_with_crop im
                                ((section, [x1; y1; x2; y2]) :: items) ev)
                      evs).
    { intros r0 [= _ <-]. eexists. split; [exact Htr2 | exact Hhere]. }
    assert (Hnext : forall v,
      match show_result py_repr v with
      | Ok _ =>
          main_loop lib json_loads py_repr items image (Some (c :: key))
            model_name (Dict.set results section v) s2
      | Raise e => (Raise e, s2)
      end = (r, s') ->
      exists evs,
        trace s' = trace s ++ evs
        /\ Forall (fun ev =>
                     pairs_prompt_with_crop im
                       ((section, [x1; y1; x2; y2]) :: items) ev) evs).
    { intros v. destruct (show_result py_repr v) as [[]|e]; [|apply Hend].
      intros Hrun.
      assert (Him2 : nth_error (images s2) image = Some im).
      { rewrite Hims. unfold s1. cbn [images].
        rewrite nth_error_app1; [exact Him|].
        apply nth_error_Some. rewrite Him. discriminate. }
      destruct (IH _ _ _ _ Him2 Hrun) as (evs & Hevs & Hall).
      eexists. split.
      { rewrite Hevs, Htr2, <- app_assoc. reflexivity. }
      apply Forall_app. split; [exact Hhere|].
      apply Forall_impl with (2 := Hall).
      intros ev Hev p m d Heq.
      destruct (Hev p m d Heq) as (sec & a & b & a' & b' & Hin & Hrest).
      exists sec, a, b, a', b'. split; [now right | exact Hrest]. }
    destruct r1 as [v|e]; apply Hnext.
Qed.

End RequestFacts.

(** X17.  Every request that [main] sends pairs the prompt of a region
    with the crop of that same region: its prompt is [prompts[section]]
    for an entry [section: [x1, y1, x2, y2]] of [BBOX_COORDINATES], its
    MIME type is [image/png], and its payload is the PNG encoding of the
    crop of the uploaded image by that very box, never the uploaded image
    itself, another region's crop, or a crop of a crop. *)
Theorem requests_pair_prompt_with_crop
  {W Model Response : Type} (lib : library W Model Response)
  (json_loads : str -> outcome pyval) (py_repr : str -> str)
  (image : ref) (im : PIL.Image) (c : char) (key : str) (model_name : str)
  (s : state W) :
  nth_error (images s) image = Some im ->
  exists r s' evs,
    main lib json_loads py_repr image (Some (c :: key)) model_name s = (r, s')
    /\ trace s' = trace s ++ evs
    /\ forall prompt mime data,
         In (EvGenerateContent prompt mime data) evs ->
         exists section x1 y1 x2 y2,
           In (section, [x1; y1; x2; y2]) BBOX_COORDINATES
           /\ prompts_getitem py_repr section = Ok prompt
           /\ mime = u "image/png"
           /\ save_png lib
                (PIL.MkImage (x2 - x1) (y2 - y1)
                   (PIL.crop_data im x1 y1 x2 y2))
              = Ok data.
Proof.
  intros Him. unfold main, bind, ret.
  destruct (main_loop lib json_loads py_repr BBOX_COORDINATES image
              (Some (c :: key)) model_name [] s) as [r s'] eqn:Hrun.
  destruct (main_loop_requests W Model Response lib json_loads py_repr image
              c key model_name im BBOX_COORDINATES)
    with (results := @nil (str * pyval)) (s := s) (r := r) (s' := s')
    as (evs & Htrace & Hall).
  - rewrite BBOX_COORDINATES_items.
    repeat constructor; do 4 eexists; (split; [reflexivity | split; lia]).
  - exact Him.
  - exact Hrun.
  - assert (Hreq : forall prompt mime data,
               In (EvGenerateContent prompt mime data) evs ->
               exists section x1 y1 x2 y2,
                 In (section, [x1; y1; x2; y2]) BBOX_COORDINATES
                 /\ prompts_getitem py_repr section = Ok prompt
                 /\ mime = u "image/png"
                 /\ save_png lib
                      (PIL.MkImage (x2 - x1) (y2 - y1)
                         (PIL.crop_data im x1 y1 x2 y2))
                    = Ok data).
    { intros prompt mime data Hin. rewrite Forall_forall in Hall.
      exact (Hall _ Hin prompt mime data eq_refl). }
    destruct r as [d|e]; eexists _, s', evs; eauto.
Qed.

Lemma requests_pair_prompt_with_crop_witness :
  exists r s' evs,
    Script.run_main (Some (u "key")) [Ok (u "[1, 2]"); Ok (u "null")]
    = (r, s')
    /\ trace s' = [] ++ evs
    /\ forall prompt mime data,
         In (EvGenerateContent prompt mime data) evs ->
         exists section x1 y1 x2 y2,
           In (section, [x1; y1; x2; y2]) BBOX_COORDINATES
           /\ prompts_getitem Script.repr section = Ok prompt
           /\ mime = u "image/png"
           /\ Ok (PIL.data
                    (PIL.MkImage (x2 - x1) (y2 - y1)
                       (PIL.crop_data Script.image0 x1 y1 x2 y2)))
              = Ok data.
Proof.
  apply (requests_pair_prompt_with_crop Script.lib Json.loads Script.repr
           0 Script.image0 (Json.ch "k") (u "ey") (u "gemini-2.5-pro")
           (Script.start [Ok (u "[1, 2]"); Ok (u "null")])).
  reflexivity.
Defined.

(** ** The download decodes to the aggregate *)

(** *** Strings *)

Lemma low_char_cases (c : char) :
  (c < 32)%N ->
  In c [0; 1; 2; 3; 4; 5; 6; 7; 8; 9; 10; 11; 12; 13; 14; 15; 16; 17; 18; 19;
        20; 21; 22; 23; 24; 25; 26; 27; 28; 29; 30; 31]%N.
Proof.
  intros H. 
  destruct c as [|p]; [now left|].
  repeat match goal with
         | p : positive |- _ => destruct p; try (exfalso; lia)
         end; cbn; tauto.
Qed.

(** One character of a string, escaped, is read back as that character. *)
Lemma scanstring_escape (c : char) (tail : str) (e b : nat) (chunks : str) :
  tail <> [] ->
  exists e',
    Json.scanstring (Encoder.escape c ++ tail) e b chunks
    = Json.scanstring tail e' b (chunks ++ [c]).
Proof.
  intros Htail. unfold Encoder.escape.
  destruct (c =? Json.backslash)%N eqn:H1.
  { apply N.eqb_eq in H1. subst c. eexists. reflexivity. }
  destruct (c =? Json.quote)%N eqn:H2.
  { apply N.eqb_eq in H2. subst c. eexists. reflexivity. }
  destruct (c =? 8)%N eqn:H3.
  { apply N.eqb_eq in H3. subst c. eexists. reflexivity. }
  destruct (c =? 12)%N eqn:H4.
  { apply N.eqb_eq in H4. subst c. eexists. reflexivity. }
  destruct (c =? 10)%N eqn:H5.
  { apply N.eqb_eq in H5. subst c. eexists. reflexivity. }
  destruct (c =? 13)%N eqn:H6.
  { apply N.eqb_eq in H6. subst c. eexists. reflexivity. }
  destruct (c =? 9)%N eqn:H7.
  { apply N.eqb_eq in H7. subst c. eexists. reflexivity. }
  destruct (c <? 32)%N eqn:H8.
  - apply N.ltb_lt in H8. destruct tail as [|t0 tail]; [contradiction|].
    pose proof (low_char_cases c H8) as Hc. cbn [In] in Hc.
    repeat (destruct Hc as [<- | Hc]; [eexists; reflexivity|]).
    destruct Hc.
  - eexists. cbn [app Json.scanstring]. rewrite H2, H1, H8. reflexivity.
Qed.

Lemma escape_nonempty (c : char) : Encoder.escape c <> [].
Proof.
  unfold Encoder.escape.
  repeat match goal with
         | |- context [if ?b then _ else _] => destruct b
         end; discriminate.
Qed.

(** The body of an encoded string and its closing quote are read back as
    the string. *)
Lemma scanstring_encoded (s rest : str) (e b : nat) (chunks : str) :
  exists e',
    Json.scanstring (flat_map Encoder.escape s ++ Json.quote :: rest) e b
      chunks
    = Json.Got (chunks ++ s) rest e'.
Proof.
  revert e chunks. induction s as [|c s IH]; intros e chunks.
  - cbn [flat_map app Json.scanstring]. rewrite N.eqb_refl, app_nil_r.
    eexists. reflexivity.
  - cbn [flat_map]. rewrite <- app_assoc.
    destruct (scanstring_escape c
                (flat_map Encoder.escape s ++ Json.quote :: rest) e b chunks)
      as [e1 H1].
    { destruct (flat_map Encoder.escape s); discriminate. }
    rewrite H1. destruct (IH e1 (chunks ++ [c])) as [e2 H2].
    rewrite H2, <- app_assoc. eexists. reflexivity.
Qed.

(** *** Integers *)

Lemma digits_uint_chars (d : Decimal.uint) (rest : str) :
  ends_number rest ->
  Json.digits (Encoder.uint_chars d ++ rest) = (Encoder.uint_chars d, rest).
Proof.
  intros Hr.
  induction d; cbn [Encoder.uint_chars app Json.digits];
    try (change (Json.is_digit _) with true; cbv iota; rewrite IHd;
         reflexivity).
  destruct rest as [|c rest]; [reflexivity|].
  cbn [Json.digits].
  destruct Hr as [-> | [-> | [-> | ->]]]; reflexivity.
Qed.

Lemma number_tail (rest : str) :
  ends_number rest ->
  Json.number_frac rest = ([], rest) /\ Json.number_exp rest = ([], rest).
Proof.
  destruct rest as [|c rest]; [split; reflexivity|].
  intros [-> | [-> | [-> | ->]]]; split; reflexivity.
Qed.

Lemma match_number_uint (d : Decimal.uint) (rest : str) :
  canonical d -> ends_number rest ->
  Json.match_number (Encoder.uint_chars d ++ rest)
  = Some (Encoder.uint_chars d, [], [], rest)
  /\ Json.match_number (Json.ch "-" :: Encoder.uint_chars d ++ rest)
     = Some (Json.ch "-" :: Encoder.uint_chars d, [], [], rest).
Proof.
  intros Hd Hr.
  assert (Hdig : forall d', Json.digits (Encoder.uint_chars d' ++ rest)
                            = (Encoder.uint_chars d', rest))
    by (intros d'; now apply digits_uint_chars).
  destruct rest as [|c rest]; [|destruct Hr as [-> | [-> | [-> | ->]]]];
    (destruct d as [|d|d|d|d|d|d|d|d|d|d]; try contradiction;
     [destruct d; try contradiction; split; reflexivity | ..];
     unfold Json.match_number;
     cbn [Encoder.uint_chars app Json.number_sign Json.number_integer];
     cbn -[Json.digits]; rewrite Hdig; split; reflexivity).
Qed.

Lemma nzhead_not_zero (d d' : Decimal.uint) :
  Decimal.nzhead d <> Decimal.D0 d'.
Proof. induction d; cbn [Decimal.nzhead]; try discriminate. exact IHd. Qed.

Lemma to_uint_canonical (p : positive) : canonical (Pos.to_uint p).
Proof.
  pose proof (DecimalPos.Unsigned.to_of (Pos.to_uint p)) as H.
  rewrite DecimalPos.Unsigned.of_to in H.
  change (N.to_uint (N.pos p)) with (Pos.to_uint p) in H.
  pose proof (DecimalPos.Unsigned.to_uint_nonnil p) as Hnil.
  pose proof (DecimalPos.Unsigned.to_uint_nonzero p) as Hzero.
  destruct (Pos.to_uint p) as [|d|d|d|d|d|d|d|d|d|d] eqn:E;
    try exact I; try congruence.
  unfold Decimal.unorm in H. cbn [Decimal.nzhead] in H.
  destruct (Decimal.nzhead d) eqn:En; try discriminate H.
  - congruence.
  - exfalso. exact (nzhead_not_zero d _ En).
Qed.

Lemma int_of_digits_acc (d : Decimal.uint) (acc : positive) :
  fold_left (fun a c => (a * 10 + Z.of_N (c - 48))%Z) (Encoder.uint_chars d)
    (Z.pos acc)
  = Z.pos (Pos.of_uint_acc d acc).
Proof.
  revert acc.
  induction d; intros acc;
    cbn [Encoder.uint_chars fold_left Pos.of_uint_acc];
    [reflexivity | ..];
    rewrite <- IHd; f_equal;
    match goal with
    | |- context [Z.of_N ?x] =>
        let v := eval vm_compute in (Z.of_N x) in change (Z.of_N x) with v
    end; lia.
Qed.

Lemma int_of_digits_uint (d : Decimal.uint) :
  Json.int_of_digits (Encoder.uint_chars d) = Z.of_N (Pos.of_uint d).
Proof.
  unfold Json.int_of_digits.
  induction d; cbn [Encoder.uint_chars fold_left Pos.of_uint];
    [reflexivity | exact IHd | ..];
    match goal with
    | |- fold_left _ _ ?a = _ =>
        let v := eval vm_compute in a in change a with v
    end;
    rewrite int_of_digits_acc; reflexivity.
Qed.

Lemma uint_chars_head (d : Decimal.uint) :
  match Encoder.uint_chars d with
  | [] => True
  | c :: _ => (48 <= c <= 57)%N
  end.
Proof. destruct d; cbn; lia. Qed.

(** An integer, written by [int.__repr__], is read back as that
    integer. *)
Lemma scan_once_int (z : Z) (t rest : str) (f idx : nat) :
  Encoder.intstr z = Ok t -> ends_number rest ->
  exists e, Json.scan_once (S f) (t ++ rest) idx = Json.Got (PInt z) rest e.
Proof.
  unfold Encoder.intstr. intros Ht Hr.
  assert (Hcases :
    exists d, canonical d
      /\ ((Z.to_int z = Decimal.Pos d /\ z = Z.of_N (Pos.of_uint d))
          \/ (Z.to_int z = Decimal.Neg d /\ z = (- Z.of_N (Pos.of_uint d))%Z))).
  { destruct z as [|p|p]; cbn [Z.to_int].
    - exists (Decimal.D0 Decimal.Nil). split; [exact I|]. left. now split.
    - exists (Pos.to_uint p). split; [apply to_uint_canonical|]. left.
      split; [reflexivity|]. now rewrite DecimalPos.Unsigned.of_to.
    - exists (Pos.to_uint p). split; [apply to_uint_canonical|]. right.
      split; [reflexivity|]. now rewrite DecimalPos.Unsigned.of_to. }
  destruct Hcases as (d & Hd & Hz).
  destruct (match_number_uint d rest Hd Hr) as [Hpos Hneg].
  pose proof (uint_chars_head d) as Hhead.
  destruct Hz as [[Hto ->] | [Hto ->]]; rewrite Hto in Ht.
  - destruct (Json.int_max_str_digits <? length (Encoder.uint_chars d))
      eqn:Hlen; [discriminate|].
    injection Ht as <-. cbn [app].
    destruct (Encoder.uint_chars d) as [|c cs] eqn:Hcs.
    { destruct d; try contradiction; discriminate Hcs. }
    cbn [app Json.scan_once].
    assert (Hne : forall k : N, (k < 48 \/ 57 < k)%N -> (c =? k)%N = false).
    { intros k Hk. apply N.eqb_neq. lia. }
    assert (Hne' : forall k : N, (k < 48 \/ 57 < k)%N -> (k =? c)%N = false).
    { intros k Hk. apply N.eqb_neq. lia. }
    unfold Json.quote, Json.ch. cbn [N_of_ascii N_of_digits N.add N.mul].
    rewrite !Hne by lia.
    change (u "null") with [110; 117; 108; 108]%N.
    change (u "true") with [116; 114; 117; 101]%N.
    change (u "false") with [102; 97; 108; 115; 101]%N.
    cbn [starts_with]. rewrite !Hne' by lia. cbn [andb].
    cbn [app] in Hpos. rewrite Hpos.
    unfold Json.number_value, Json.parse_int.
    replace (c =? Json.ch "-")%N with false
      by (symmetry; apply N.eqb_neq; unfold Json.ch; cbn; lia).
    rewrite Hlen, <- Hcs, int_of_digits_uint. eexists. reflexivity.
  - destruct (Json.int_max_str_digits <? length (Encoder.uint_chars d))
      eqn:Hlen; [discriminate|].
    injection Ht as <-. cbn [app Json.scan_once].
    change (u "null") with [110; 117; 108; 108]%N.
    change (u "true") with [116; 114; 117; 101]%N.
    change (u "false") with [102; 97; 108; 115; 101]%N.
    cbn [starts_with].
    repeat match goal with
           | |- context [(?a =? ?b)%N] =>
               let v := eval vm_compute in (a =? b)%N in
               match v with
               | false => change (a =? b)%N with false
               end
           end.
    cbn [andb]. change (Json.ch "-") with 45%N in Hneg. rewrite Hneg.
    unfold Json.number_value, Json.parse_int.
    change (45 =? Json.ch "-")%N with true. cbv iota.
    rewrite Hlen, int_of_digits_uint. eexists. reflexivity.
Qed.

(** *** Values *)

Lemma pyval_nested_ind (P : pyval -> Prop) :
  P PNone -> (forall b, P (PBool b)) -> (forall z, P (PInt z)) ->
  (forall lexeme, P (PFloat lexeme)) -> (forall s, P (PStr s)) ->
  (forall l, Forall P l -> P (PList l)) ->
  (forall d, Forall (fun kv => P (snd kv)) d -> P (PDict d)) ->
  forall v, P v.
Proof.
  intros HN HB HI HF HS HL HD. fix IH 1. intros [| b | z | x | s | l | d].
  - exact HN.
  - apply HB.
  - apply HI.
  - apply HF.
  - apply HS.
  - apply HL. induction l as [|v l IHl]; constructor; [apply IH | exact IHl].
  - apply HD. induction d as [|[k v] d IHd]; constructor;
      [apply IH | exact IHd].
Qed.

Lemma skip_ws_none (s : str) (i : nat) :
  no_space_first s -> Json.skip_ws s i = (s, i).
Proof.
  destruct s as [|c s]; [reflexivity|]. cbn [no_space_first Json.skip_ws].
  now intros ->.
Qed.

Lemma skip_ws_spaces (n : nat) (s : str) (i : nat) :
  no_space_first s -> Json.skip_ws (repeat 32%N n ++ s) i = (s, i + n).
Proof.
  intros Hs. revert i. induction n as [|n IH]; intros i.
  - cbn [repeat app]. rewrite Nat.add_0_r. now apply skip_ws_none.
  - cbn [repeat app Json.skip_ws]. change (Json.is_ws 32%N) with true.
    cbv iota. rewrite IH. f_equal. lia.
Qed.

Lemma skip_ws_indent (level : nat) (s : str) (i : nat) :
  no_space_first s ->
  Json.skip_ws (Encoder.newline_indent level ++ s) i
  = (s, i + S (2 * level)).
Proof.
  intros Hs. unfold Encoder.newline_indent. cbn [app Json.skip_ws].
  change (Json.is_ws 10%N) with true. cbv iota.
  rewrite skip_ws_spaces by exact Hs. f_equal. lia.
Qed.

Lemma length_newline_indent (level : nat) :
  length (Encoder.newline_indent level) = S (2 * level).
Proof. unfold Encoder.newline_indent. cbn [length]. now rewrite repeat_length. Qed.

Lemma value_first_no_space (t s : str) : value_first t -> no_space_first (t ++ s).
Proof. destruct t as [|c t]; [intros []|]. cbn. tauto. Qed.

Lemma sequence_cons {A} (o : outcome A) (l : list (outcome A)) (r : list A) :
  Encoder.sequence (o :: l) = Ok r ->
  exists a r', r = a :: r' /\ o = Ok a /\ Encoder.sequence l = Ok r'.
Proof.
  cbn [Encoder.sequence]. unfold and_then.
  destruct o as [a|e]; [|discriminate].
  destruct (Encoder.sequence l) as [r'|e]; [|discriminate].
  intros [= <-]. eauto.
Qed.

Lemma combine_flags {A} (n : nat) (l : list A) :
  length l <= n -> combine (repeat false n) l = map (pair false) l.
Proof.
  revert n. induction l as [|a l IH]; intros n Hn.
  - destruct n; reflexivity.
  - destruct n as [|n]; [cbn in Hn; lia|].
    cbn [repeat combine map]. f_equal. apply IH. cbn in Hn. lia.
Qed.

(** The text of a container, item by item. *)
Lemma container_cons (open_ close : char) (level : nat) (item : str)
      (items : list str) :
  Encoder.container open_ close level (item :: items)
  = open_
    :: Encoder.newline_indent (S level) ++ item
       ++ concat (map (fun i => Json.ch "," :: Encoder.newline_indent (S level)
                                  ++ i) items)
       ++ Encoder.newline_indent level ++ [close].
Proof.
  unfold Encoder.container.
  change (combine (true :: repeat false (length (item :: items)))
            (item :: items))
    with ((true, item) :: combine (repeat false (S (length items))) items).
  rewrite combine_flags by lia. cbn [map concat app]. rewrite map_map.
  rewrite <- !app_assoc. reflexivity.
Qed.

(** Tests on characters that are known. *)
Ltac closed_tests :=
  repeat match goal with
         | |- context [(?a =? ?b)%N] =>
             let v := eval vm_compute in (a =? b)%N in
             match v with
             | true => change (a =? b)%N with true
             | false => change (a =? b)%N with false
             end
         end.

Section RoundTrip.

Variable floatstr : str -> str.

Local Abbreviation encode := (Encoder.iterencode floatstr).

(** The body of a container after its first item: the other items, each
    after a comma, and the closing bracket on a line of its own. *)
Local Abbreviation others close level items :=
  (concat (map (fun i => Json.ch "," :: Encoder.newline_indent (S level) ++ i)
               items)
   ++ Encoder.newline_indent level ++ [close]).

Lemma intstr_first (z : Z) (t : str) :
  Encoder.intstr z = Ok t -> value_first t.
Proof.
  unfold Encoder.intstr.
  assert (Hd : exists d, canonical d
                 /\ (Z.to_int z = Decimal.Pos d \/ Z.to_int z = Decimal.Neg d)).
  { destruct z as [|p|p]; cbn [Z.to_int].
    - exists (Decimal.D0 Decimal.Nil). split; [exact I | now left].
    - exists (Pos.to_uint p). split; [apply to_uint_canonical | now left].
    - exists (Pos.to_uint p). split; [apply to_uint_canonical | now right]. }
  destruct Hd as (d & Hc & [-> | ->]);
    destruct (Json.int_max_str_digits <? _); try discriminate;
    intros [= <-].
  - destruct d; try contradiction; cbn; repeat split; discriminate.
  - cbn. repeat split; discriminate.
Qed.

Lemma encoded_first (v : pyval) (level : nat) (t : str) :
  Encoder.plain v = true -> encode v level = Ok t -> value_first t.
Proof.
  destruct v as [| [|] | z | x | s | [|v l] | [|[k v] d]];
    cbn [Encoder.iterencode Encoder.plain]; try discriminate;
    try (intros _ [= <-]; cbn; repeat split; discriminate).
  - intros _. apply intstr_first.
  - intros _. unfold and_then.
    destruct (Encoder.sequence _) as [items|]; [|discriminate].
    intros [= <-]. cbn. repeat split; discriminate.
  - intros _. unfold and_then at 1.
    destruct (Encoder.sequence _) as [items|]; [|discriminate].
    intros [= <-]. cbn. repeat split; discriminate.
Qed.

(** What a value decodes to when its text is followed by [rest]. *)
Local Abbreviation reads_back v :=
  (Encoder.plain v = true ->
   forall level t, encode v level = Ok t ->
   forall rest idx f,
     ends_number rest -> 3 * length (t ++ rest) + 1 <= f ->
     exists e, Json.scan_once f (t ++ rest) idx = Json.Got v rest e).

Lemma others_ends_number close level items rest :
  close = Json.ch "]" \/ close = Json.ch "}" ->
  ends_number (others close level items ++ rest).
Proof.
  intros Hc. destruct items as [|i items]; cbn; [right; now left | now left].
Qed.

Lemma array_loop_items (level : nat) (vs : list pyval) :
  Forall (fun v => reads_back v) vs ->
  forallb Encoder.plain vs = true ->
  forall items,
    Encoder.sequence (map (fun v => encode v (S level)) vs) = Ok items ->
    forall v0 i0,
      reads_back v0 -> Encoder.plain v0 = true ->
      encode v0 (S level) = Ok i0 ->
      forall values rest idx f,
        3 * length (i0 ++ others (Json.ch "]") level items ++ rest) + 2 <= f ->
        exists e,
          Json.array_loop f (i0 ++ others (Json.ch "]") level items ++ rest)
            idx values
          = Json.Got (PList (values ++ v0 :: vs)) rest e.
Proof.
  intros HP. induction HP as [|v1 vs Hv1 _ IH];
    intros Hplain items Hitems v0 i0 Hv0 Hp0 Hi0 values rest idx f Hf.
  - cbn [map Encoder.sequence] in Hitems. injection Hitems as <-.
    destruct f as [|f]; [exfalso; lia|].
    cbn [Json.array_loop map concat app].
    destruct (Hv0 Hp0 (S level) i0 Hi0
                (Encoder.newline_indent level ++ [Json.ch "]"] ++ rest)
                idx f) as [e He].
    { cbn. right. now left. }
    { cbn [map concat app] in Hf. rewrite <- app_assoc in Hf. lia. }
    rewrite <- app_assoc. rewrite He.
    rewrite skip_ws_indent by (cbn; reflexivity).
    cbn [app Json.next_is skipn]. rewrite N.eqb_refl.
    eexists. reflexivity.
  - cbn [forallb] in Hplain. apply andb_true_iff in Hplain as [Hp1 Hplain].
    cbn [map] in Hitems.
    apply sequence_cons in Hitems as (i1 & items' & -> & Hi1 & Hitems).
    destruct f as [|f]; [exfalso; lia|].
    cbn [Json.array_loop map concat].
    assert (Hshape :
      i0 ++ ((Json.ch "," :: Encoder.newline_indent (S level) ++ i1)
             ++ concat (map (fun i => Json.ch ","
                                      :: Encoder.newline_indent (S level) ++ i)
                            items'))
            ++ Encoder.newline_indent level ++ [Json.ch "]"] ++ rest
      = i0 ++ Json.ch ","
           :: Encoder.newline_indent (S level)
              ++ (i1 ++ others (Json.ch "]") level items' ++ rest)).
    { cbn [app]. rewrite <- !app_assoc. reflexivity. }
    assert (Hshape' :
      i0 ++ (((Json.ch "," :: Encoder.newline_indent (S level) ++ i1)
              ++ concat (map (fun i => Json.ch ","
                                       :: Encoder.newline_indent (S level) ++ i)
                             items'))
             ++ Encoder.newline_indent level ++ [Json.ch "]"]) ++ rest
      = i0 ++ Json.ch ","
           :: Encoder.newline_indent (S level)
              ++ (i1 ++ others (Json.ch "]") level items' ++ rest)).
    { cbn [app]. rewrite <- !app_assoc. reflexivity. }
    cbn [map concat] in Hf. rewrite Hshape' in Hf. rewrite Hshape'.
    rewrite length_app in Hf. cbn [length] in Hf.
    rewrite length_app, length_newline_indent in Hf.
    destruct (Hv0 Hp0 (S level) i0 Hi0
                (Json.ch "," :: Encoder.newline_indent (S level)
                   ++ (i1 ++ others (Json.ch "]") level items' ++ rest))
                idx f) as [e He].
    { cbn. now left. }
    { rewrite length_app. cbn [length].
      rewrite length_app, length_newline_indent. lia. }
    rewrite He. rewrite skip_ws_none by (cbn; reflexivity).
    cbn [Json.next_is skipn negb].
    change (Json.ch "]" =? Json.ch ",")%N with false.
    rewrite N.eqb_refl. cbn [negb]. cbv iota.
    rewrite skip_ws_indent
      by (apply value_first_no_space;
          exact (encoded_first v1 (S level) i1 Hp1 Hi1)).
    destruct (IH Hplain items' Hitems v1 i1 Hv1 Hp1 Hi1 (values ++ [v0])
                rest (S e + S (2 * S level)) f) as [e' He'].
    { lia. }
    rewrite He', <- app_assoc. eexists. reflexivity.
Qed.

Lemma object_item (level : nat) (k : str) (v : pyval) (item : str) :
  (let '(key, value) := (k, v) in
   and_then (encode value (S level)) (fun chunk =>
   Ok (Encoder.encode_basestring key ++ u ": " ++ chunk))) = Ok item ->
  exists chunk,
    encode v (S level) = Ok chunk
    /\ item = Json.quote
              :: flat_map Encoder.escape k
                 ++ Json.quote :: Json.ch ":" :: 32%N :: chunk.
Proof.
  cbv beta iota. unfold and_then.
  destruct (encode v (S level)) as [chunk|]; [|discriminate].
  intros [= <-]. exists chunk. split; [reflexivity|].
  unfold Encoder.encode_basestring. cbn [app]. rewrite <- app_assoc.
  reflexivity.
Qed.

Lemma object_loop_items (level : nat) (d : list (str * pyval)) :
  Forall (fun kv => reads_back (snd kv)) d ->
  forallb (fun '(_, value) => Encoder.plain value) d = true ->
  forall items,
    Encoder.sequence
      (map (fun '(key, value) =>
              and_then (encode value (S level)) (fun chunk =>
              Ok (Encoder.encode_basestring key ++ u ": " ++ chunk))) d)
    = Ok items ->
    forall k0 v0 c0,
      reads_back v0 -> Encoder.plain v0 = true ->
      encode v0 (S level) = Ok c0 ->
      forall pairs rest idx f,
        3 * length (flat_map Encoder.escape k0
                      ++ Json.quote :: Json.ch ":" :: 32%N
                         :: c0 ++ others (Json.ch "}") level items ++ rest)
        + 2 <= f ->
        exists e,
          Json.object_loop f
            (flat_map Encoder.escape k0
               ++ Json.quote :: Json.ch ":" :: 32%N
                  :: c0 ++ others (Json.ch "}") level items ++ rest)
            idx pairs
          = Json.Got (PDict (Dict.of_pairs (pairs ++ (k0, v0) :: d))) rest e.
Proof.
  intros HP. induction HP as [|[k1 v1] d Hv1 _ IH];
    intros Hplain items Hitems k0 v0 c0 Hv0 Hp0 Hc0 pairs rest idx f Hf;
    (destruct f as [|f]; [exfalso; lia|]);
    cbn [Json.object_loop];
    match goal with
    | |- context [Json.scanstring (_ ++ Json.quote :: ?x) idx ?b []] =>
        destruct (scanstring_encoded k0 x idx b []) as [e1 H1]
    end;
    rewrite H1; cbn [app];
    rewrite skip_ws_none by reflexivity;
    cbn [Json.next_is skipn]; rewrite N.eqb_refl; cbn [negb]; cbv iota;
    cbn [Json.skip_ws]; change (Json.is_ws 32%N) with true; cbv iota;
    rewrite skip_ws_none
      by (apply value_first_no_space;
          exact (encoded_first v0 (S level) c0 Hp0 Hc0));
    rewrite length_app in Hf; cbn [length] in Hf.
  - cbn [map Encoder.sequence] in Hitems. injection Hitems as <-.
    cbn [map concat app] in Hf |- *.
    destruct (Hv0 Hp0 (S level) c0 Hc0
                ((Encoder.newline_indent level ++ [Json.ch "}"]) ++ rest)
                (S (S e1)) f) as [e He].
    { cbn. right. now left. }
    { lia. }
    rewrite He, <- app_assoc.
    rewrite skip_ws_indent by (cbn; reflexivity).
    cbn [app Json.next_is skipn]. rewrite N.eqb_refl.
    eexists. reflexivity.
  - cbn [snd] in Hv1. cbn [forallb] in Hplain.
    apply andb_true_iff in Hplain as [Hp1 Hplain].
    cbn [map] in Hitems.
    apply sequence_cons in Hitems as (i1 & items' & -> & Hi1 & Hitems).
    apply object_item in Hi1 as (c1 & Hc1 & ->).
    assert (Hshape :
      others (Json.ch "}") level
        ((Json.quote
            :: flat_map Encoder.escape k1
               ++ Json.quote :: Json.ch ":" :: 32%N :: c1) :: items') ++ rest
      = Json.ch ","
        :: Encoder.newline_indent (S level)
           ++ Json.quote
              :: (flat_map Encoder.escape k1
                    ++ Json.quote :: Json.ch ":" :: 32%N
                       :: c1 ++ others (Json.ch "}") level items' ++ rest)).
    { cbn [map concat app]. rewrite <- !app_assoc. cbn [app].
      rewrite <- !app_assoc. reflexivity. }
    rewrite Hshape in Hf |- *.
    rewrite length_app in Hf. cbn [length] in Hf.
    rewrite length_app, length_newline_indent in Hf. cbn [length] in Hf.
    destruct (Hv0 Hp0 (S level) c0 Hc0
                (Json.ch ","
                 :: Encoder.newline_indent (S level)
                    ++ Json.quote
                       :: (flat_map Encoder.escape k1
                             ++ Json.quote :: Json.ch ":" :: 32%N
                                :: c1 ++ others (Json.ch "}") level items'
                                   ++ rest))
                (S (S e1)) f) as [e He].
    { cbn. now left. }
    { rewrite length_app. cbn [length].
      rewrite length_app, length_newline_indent. cbn [length]. lia. }
    rewrite He. rewrite skip_ws_none by (cbn; reflexivity).
    cbn [Json.next_is skipn negb].
    change (Json.ch "}" =? Json.ch ",")%N with false.
    rewrite N.eqb_refl. cbn [negb]. cbv iota.
    rewrite skip_ws_indent by (cbn; reflexivity).
    cbn [Json.next_is skipn]. rewrite N.eqb_refl.
    destruct (IH Hplain items' Hitems k1 v1 c1 Hv1 Hp1 Hc1
                (pairs ++ [(k0, v0)]) rest
                (S (S e + S (2 * S level))) f) as [e' He'].
    { lia. }
    rewrite <- (app_assoc pairs [(k0, v0)]) in He'. exists e'. exact He'.
Qed.

Lemma set_fresh (d : Dict.dict) (k : str) (v : pyval) :
  existsb (Str.eqb k) (map fst d) = false -> Dict.set d k v = d ++ [(k, v)].
Proof.
  induction d as [|[k' v'] d IH]; [reflexivity|].
  cbn [map fst existsb Dict.set app]. intros H.
  apply orb_false_iff in H as [Hk Hd].
  replace (Str.eqb k' k) with false.
  - now rewrite IH.
  - unfold Str.eqb in *.
    destruct (list_eq_dec N.eq_dec k k'); [discriminate|].
    destruct (list_eq_dec N.eq_dec k' k); congruence.
Qed.

Lemma existsb_app_false {A} (p : A -> bool) (l1 l2 : list A) :
  existsb p (l1 ++ l2) = false
  <-> existsb p l1 = false /\ existsb p l2 = false.
Proof. rewrite existsb_app. apply orb_false_iff. Qed.

(** A list of pairs with distinct keys is the dictionary it makes. *)
Lemma of_pairs_distinct (d acc : Dict.dict) :
  Encoder.distinct (map fst (acc ++ d)) = true ->
  fold_left (fun d kv => Dict.set d (fst kv) (snd kv)) d acc = acc ++ d.
Proof.
  revert acc. induction d as [|[k v] d IH]; intros acc H.
  - cbn [fold_left]. now rewrite app_nil_r.
  - cbn [fold_left fst snd].
    assert (Hfresh : existsb (Str.eqb k) (map fst acc) = false).
    { clear IH. induction acc as [|[k' v'] acc IHa]; [reflexivity|].
      cbn [app map fst Encoder.distinct] in H.
      apply andb_true_iff in H as [Hk' H]. apply negb_true_iff in Hk'.
      rewrite map_app in Hk'. apply existsb_app_false in Hk' as [_ Hk'].
      cbn [map fst existsb] in Hk'. apply orb_false_iff in Hk' as [Hk' _].
      cbn [map fst existsb]. rewrite (IHa H), orb_false_r.
      unfold Str.eqb in *.
      destruct (list_eq_dec N.eq_dec k' k); [discriminate|].
      destruct (list_eq_dec N.eq_dec k k'); congruence. }
    rewrite (set_fresh acc k v Hfresh).
    rewrite IH; rewrite <- app_assoc; [reflexivity | exact H].
Qed.

Lemma next_is_first (c : char) (t s : str) :
  match t with [] => False | c' :: _ => c' <> c end ->
  Json.next_is c (t ++ s) = false.
Proof.
  destruct t as [|c' t]; [intros []|]. cbn. intros H.
  apply N.eqb_neq. congruence.
Qed.

(** Every value without a float is read back from its text. *)
Lemma reads_back_all (v : pyval) : reads_back v.
Proof.
  induction v as [| b | z | x | s | l IHl | d IHd] using pyval_nested_ind;
    intros Hplain level t Ht rest idx f Hrest Hf.
  - injection Ht as <-. destruct f as [|f]; [exfalso; lia|].
    eexists. reflexivity.
  - destruct b; injection Ht as <-; (destruct f as [|f]; [exfalso; lia|]);
      eexists; reflexivity.
  - destruct f as [|f]; [exfalso; lia|].
    now apply scan_once_int.
  - discriminate.
  - injection Ht as <-. destruct f as [|f]; [exfalso; lia|].
    unfold Encoder.encode_basestring. cbn [app Json.scan_once].
    rewrite N.eqb_refl. rewrite <- app_assoc. cbn [app].
    destruct (scanstring_encoded s rest (S idx) idx []) as [e He].
    rewrite He. eexists. reflexivity.
  - destruct l as [|v0 vs].
    + injection Ht as <-. cbn [length app u] in Hf.
      do 2 (destruct f as [|f]; [exfalso; cbn in Hf; lia|]).
      eexists. reflexivity.
    + cbn [Encoder.iterencode] in Ht. unfold and_then in Ht.
      destruct (Encoder.sequence _) as [items|] eqn:Hitems; [|discriminate].
      injection Ht as <-.
      cbn [map] in Hitems.
      apply sequence_cons in Hitems as (i0 & items' & -> & Hi0 & Hitems).
      cbn [Encoder.plain forallb] in Hplain.
      apply andb_true_iff in Hplain as [Hp0 Hplain].
      inversion IHl as [|? ? Hv0 Hvs]; subst.
      rewrite container_cons in Hf |- *.
      cbn [app length] in Hf |- *.
      rewrite <- !app_assoc in Hf |- *.
      rewrite length_app, length_newline_indent in Hf.
      do 2 (destruct f as [|f]; [exfalso; lia|]).
      cbn [Json.scan_once]. closed_tests. cbv iota. cbn [Json.JSONArray].
      pose proof (encoded_first v0 (S level) i0 Hp0 Hi0) as Hfirst.
      rewrite skip_ws_indent by (apply value_first_no_space; exact Hfirst).
      rewrite next_is_first
        by (destruct i0; [destruct Hfirst | cbn in Hfirst; tauto]).
      destruct (array_loop_items level vs Hvs Hplain items' Hitems v0 i0
                  Hv0 Hp0 Hi0 [] rest (S idx + S (2 * S level)) f)
        as [e He].
      { rewrite <- !app_assoc. change (Json.ch "]") with 93%N. lia. }
      repeat rewrite <- app_assoc in He. repeat rewrite <- app_assoc.
      exists e. exact He.
  - destruct d as [|[k0 v0] d].
    + injection Ht as <-. cbn [length app u] in Hf.
      do 2 (destruct f as [|f]; [exfalso; cbn in Hf; lia|]).
      eexists. reflexivity.
    + cbn [Encoder.iterencode] in Ht. unfold and_then at 1 in Ht.
      destruct (Encoder.sequence _) as [items|] eqn:Hitems; [|discriminate].
      injection Ht as <-.
      cbn [map] in Hitems.
      apply sequence_cons in Hitems as (i0 & items' & -> & Hi0 & Hitems).
      apply object_item in Hi0 as (c0 & Hc0 & ->).
      cbn [Encoder.plain] in Hplain.
      apply andb_true_iff in Hplain as [Hkeys Hplain].
      cbn [forallb] in Hplain.
      apply andb_true_iff in Hplain as [Hp0 Hplain].
      inversion IHd as [|? ? Hv0 Hvs]; subst. cbn [snd] in Hv0.
      rewrite container_cons in Hf |- *.
      cbn [app length] in Hf |- *.
      rewrite <- !app_assoc in Hf |- *. cbn [app] in Hf |- *.
      rewrite <- !app_assoc in Hf |- *. cbn [app] in Hf |- *.
      rewrite length_app, length_newline_indent in Hf. cbn [length] in Hf.
      do 2 (destruct f as [|f]; [exfalso; lia|]).
      cbn [Json.scan_once]. closed_tests. cbv iota. cbn [Json.JSONObject].
      rewrite (next_is_first Json.quote (Encoder.newline_indent (S level)))
        by (cbn; discriminate).
      rewrite skip_ws_indent by (cbn; reflexivity).
      cbn [Json.next_is skipn]. closed_tests. cbv iota.
      destruct (object_loop_items level d Hvs Hplain items' Hitems k0 v0 c0
                  Hv0 Hp0 Hc0 [] rest (S (S idx + S (2 * S level))) f)
        as [e He].
      { repeat rewrite <- app_assoc in Hf. repeat rewrite <- app_assoc.
        match type of Hf with
        | context [length ?y] =>
            match goal with
            | |- context [length ?x] => change x with y
            end
        end.
        lia. }
      assert (Hof : Dict.of_pairs ((k0, v0) :: d) = (k0, v0) :: d)
        by (apply (of_pairs_distinct ((k0, v0) :: d) []); exact Hkeys).
      change ([] ++ (k0, v0) :: d) with ((k0, v0) :: d) in He.
      rewrite Hof in He. repeat rewrite <- app_assoc in He.
      repeat rewrite <- app_assoc. exists e. exact He.
Qed.

Lemma sequence_all {A B} (f : A -> outcome B) (l : list A) :
  Forall (fun a => exists b, f a = Ok b) l ->
  exists r, Encoder.sequence (map f l) = Ok r.
Proof.
  induction 1 as [|a l [b Hb] _ [r Hr]]; [now exists []|].
  exists (b :: r). cbn [map Encoder.sequence]. now rewrite Hb, Hr.
Qed.

(** The encoder does not raise on such a value. *)
Lemma encode_plain (v : pyval) :
  Encoder.plain v = true -> forall level, exists t, encode v level = Ok t.
Proof.
  induction v as [| b | z | x | s | l IHl | d IHd] using pyval_nested_ind;
    intros Hplain level.
  - eexists. reflexivity.
  - destruct b; eexists; reflexivity.
  - cbn [Encoder.plain] in Hplain. cbn [Encoder.iterencode].
    destruct (Encoder.intstr z); [eauto | discriminate].
  - discriminate.
  - eexists. reflexivity.
  - destruct (sequence_all (fun v => encode v (S level)) l) as [items Hitems].
    { cbn [Encoder.plain] in Hplain. rewrite forallb_forall in Hplain.
      rewrite Forall_forall in IHl |- *. intros v Hin.
      apply IHl; [exact Hin | now apply Hplain]. }
    destruct l as [|v0 vs]; [eexists; reflexivity|].
    cbn [Encoder.iterencode]. rewrite Hitems. eexists. reflexivity.
  - destruct (sequence_all
                (fun '(key, value) =>
                   and_then (encode value (S level)) (fun chunk =>
                   Ok (Encoder.encode_basestring key ++ u ": " ++ chunk)))
                d) as [items Hitems].
    { cbn [Encoder.plain] in Hplain.
      apply andb_true_iff in Hplain as [_ Hplain].
      rewrite forallb_forall in Hplain.
      rewrite Forall_forall in IHd |- *. intros [k v] Hin.
      destruct (IHd (k, v) Hin (Hplain (k, v) Hin) (S level)) as [c Hc].
      cbn [snd] in Hc. rewrite Hc. eexists. reflexivity. }
    destruct d as [|kv0 d]; [eexists; reflexivity|].
    cbn [Encoder.iterencode]. rewrite Hitems. eexists. reflexivity.
Qed.

End RoundTrip.



(** *** What the decoder returns can be encoded *)

Lemma digits_are_digits (s : str) :
  forallb Json.is_digit (fst (Json.digits s)) = true.
Proof.
  induction s as [|c s IH]; [reflexivity|]. cbn [Json.digits].
  destruct (Json.is_digit c) eqn:Hc; [|reflexivity].
  destruct (Json.digits s) as [d r]. cbn [fst forallb] in *.
  now rewrite Hc, IH.
Qed.

Lemma number_integer_digits (s ip r : str) :
  Json.number_integer s = Some (ip, r) ->
  forallb Json.is_digit ip = true.
Proof.
  destruct s as [|c s]; [discriminate|]. cbn [Json.number_integer].
  destruct (c =? Json.ch "0")%N eqn:H0.
  - intros [= <- _]. apply N.eqb_eq in H0. now subst c.
  - destruct (Json.is_digit c) eqn:Hc; [|discriminate].
    pose proof (digits_are_digits s) as Hd.
    destruct (Json.digits s) as [d r']. intros [= <- _].
    cbn [fst forallb] in *. now rewrite Hc, Hd.
Qed.

Lemma digits_as_uint (ds : str) :
  forallb Json.is_digit ds = true -> exists d, Encoder.uint_chars d = ds.
Proof.
  induction ds as [|c ds IH]; [now exists Decimal.Nil|].
  cbn [forallb]. intros H. apply andb_true_iff in H as [Hc Hds].
  destruct (IH Hds) as [d <-].
  unfold Json.is_digit in Hc. apply andb_true_iff in Hc as [Hlo Hhi].
  apply N.leb_le in Hlo, Hhi.
  assert (Hcases : In c [48; 49; 50; 51; 52; 53; 54; 55; 56; 57]%N).
  { assert (Hk : exists k, (k < 10)%nat /\ c = (48 + N.of_nat k)%N)
      by (exists (N.to_nat (c - 48)); lia).
    destruct Hk as (k & Hk & ->).
    do 10 (destruct k as [|k]; [cbn; tauto|]). lia. }
  cbn [In] in Hcases.
  destruct Hcases as [<- | [<- | [<- | [<- | [<- | [<- | [<- | [<- | [<- |
                     [<- | []]]]]]]]]]].
  - now exists (Decimal.D0 d).
  - now exists (Decimal.D1 d).
  - now exists (Decimal.D2 d).
  - now exists (Decimal.D3 d).
  - now exists (Decimal.D4 d).
  - now exists (Decimal.D5 d).
  - now exists (Decimal.D6 d).
  - now exists (Decimal.D7 d).
  - now exists (Decimal.D8 d).
  - now exists (Decimal.D9 d).
Qed.

Lemma nzhead_chars_length (d : Decimal.uint) :
  length (Encoder.uint_chars (Decimal.nzhead d))
  <= length (Encoder.uint_chars d).
Proof.
  induction d; cbn [Decimal.nzhead Encoder.uint_chars length]; lia.
Qed.

(** The numeral of a value is not longer than a digit string that
    denotes it. *)
Lemma to_uint_length (d : Decimal.uint) (p : positive) :
  Pos.of_uint d = N.pos p ->
  length (Encoder.uint_chars (Pos.to_uint p))
  <= length (Encoder.uint_chars d).
Proof.
  intros H. pose proof (DecimalPos.Unsigned.to_of d) as Hto.
  rewrite H in Hto. change (N.to_uint (N.pos p)) with (Pos.to_uint p) in Hto.
  rewrite Hto.
  destruct (Decimal.nzhead d) eqn:Hn;
    [exfalso; apply (DecimalPos.Unsigned.to_uint_nonzero p);
     rewrite Hto; unfold Decimal.unorm; now rewrite Hn
    |exfalso; exact (nzhead_not_zero d _ Hn)
    |..];
    rewrite DecimalFacts.unorm_nzhead by (rewrite Hn; discriminate);
    apply nzhead_chars_length.
Qed.

Lemma intstr_of_digits (ds : str) (negative : bool) :
  forallb Json.is_digit ds = true ->
  (Json.int_max_str_digits <? length ds) = false ->
  exists t,
    Encoder.intstr (if negative then - Json.int_of_digits ds
                    else Json.int_of_digits ds) = Ok t.
Proof.
  intros Hd Hlen. destruct (digits_as_uint ds Hd) as [d <-].
  rewrite int_of_digits_uint.
  destruct (Pos.of_uint d) as [|p] eqn:Hp.
  - destruct negative; eexists; reflexivity.
  - pose proof (to_uint_length d p Hp) as Hle.
    apply Nat.ltb_ge in Hlen.
    assert (Hok : (Json.int_max_str_digits
                   <? length (Encoder.uint_chars (Pos.to_uint p))) = false)
      by (apply Nat.ltb_ge; lia).
    destruct negative; unfold Encoder.intstr;
      cbn [Z.of_N Z.opp Z.to_int]; rewrite Hok; eexists; reflexivity.
Qed.

Lemma number_sign_cases (s : str) :
  Json.number_sign s = ([], s)
  \/ exists s', s = Json.ch "-" :: s'
                /\ Json.number_sign s = ([Json.ch "-"], s').
Proof.
  destruct s as [|c s]; [now left|]. cbn [Json.number_sign].
  destruct (c =? Json.ch "-")%N eqn:Hc; [|now left].
  apply N.eqb_eq in Hc. subst c. right. eauto.
Qed.

Lemma digit_not_minus (c : char) (ds : str) :
  forallb Json.is_digit (c :: ds) = true -> (c =? Json.ch "-")%N = false.
Proof.
  cbn [forallb]. intros H. apply andb_true_iff in H as [Hc _].
  unfold Json.is_digit in Hc. apply andb_true_iff in Hc as [Hlo _].
  apply N.leb_le in Hlo. apply N.eqb_neq. unfold Json.ch. cbn. lia.
Qed.

Section Encodable.

Variable floatstr : str -> str.

(** The encoder returns on the value, at every nesting level. *)
Local Abbreviation encodes v :=
  (forall level, exists t, Encoder.iterencode floatstr v level = Ok t).

Lemma encodes_list (l : list pyval) :
  Forall (fun v => encodes v) l -> encodes (PList l).
Proof.
  intros Hl level.
  destruct (sequence_all (fun v => Encoder.iterencode floatstr v (S level)) l)
    as [items Hitems].
  { apply Forall_impl with (2 := Hl). intros v Hv. apply Hv. }
  destruct l as [|v0 vs]; [eexists; reflexivity|].
  cbn [Encoder.iterencode]. rewrite Hitems. eexists. reflexivity.
Qed.

Lemma encodes_dict (d : list (str * pyval)) :
  Forall (fun kv => encodes (snd kv)) d -> encodes (PDict d).
Proof.
  intros Hd level.
  destruct (sequence_all
              (fun '(key, value) =>
                 and_then (Encoder.iterencode floatstr value (S level))
                   (fun chunk =>
                      Ok (Encoder.encode_basestring key ++ u ": " ++ chunk)))
              d) as [items Hitems].
  { apply Forall_impl with (2 := Hd). intros [k v] Hv.
    destruct (Hv (S level)) as [c Hc]. cbn [snd] in Hc. rewrite Hc.
    eexists. reflexivity. }
  destruct d as [|kv0 d]; [eexists; reflexivity|].
  cbn [Encoder.iterencode]. rewrite Hitems. eexists. reflexivity.
Qed.

Lemma encodes_set (d : Dict.dict) (k : str) (v : pyval) :
  Forall (fun kv => encodes (snd kv)) d -> encodes v ->
  Forall (fun kv => encodes (snd kv)) (Dict.set d k v).
Proof.
  intros Hd Hv. induction Hd as [|[k' v'] d Hkv Hd IH].
  - repeat constructor. exact Hv.
  - cbn [Dict.set]. destruct (Str.eqb k' k); constructor; assumption.
Qed.

Lemma encodes_of_pairs (pairs : list (str * pyval)) :
  Forall (fun kv => encodes (snd kv)) pairs ->
  Forall (fun kv => encodes (snd kv)) (Dict.of_pairs pairs).
Proof.
  unfold Dict.of_pairs.
  assert (H : forall acc,
             Forall (fun kv => encodes (snd kv)) acc ->
             Forall (fun kv => encodes (snd kv)) pairs ->
             Forall (fun kv => encodes (snd kv))
               (fold_left (fun d kv => Dict.set d (fst kv) (snd kv))
                          pairs acc)).
  { induction pairs as [|[k v] pairs IH]; intros acc Hacc Hp; [exact Hacc|].
    inversion Hp as [|? ? Hv Hp']; subst. cbn [fold_left fst snd].
    apply IH; [|exact Hp']. now apply encodes_set. }
  intros Hp. apply H; [constructor | exact Hp].
Qed.

Lemma encodes_number (integer frac exp : str) (sign ip : str) (v : pyval) :
  integer = sign ++ ip -> sign = [] \/ sign = [Json.ch "-"] ->
  forallb Json.is_digit ip = true ->
  Json.number_value integer frac exp = Ok v -> encodes v.
Proof.
  intros -> Hsign Hip. unfold Json.number_value.
  assert (Hfloat : forall x, encodes (PFloat x))
    by (intros x level; eexists; reflexivity).
  destruct frac; [|intros [= <-]; apply Hfloat].
  destruct exp; [|intros [= <-]; apply Hfloat].
  unfold Json.parse_int.
  destruct Hsign as [-> | ->]; cbn [app].
  - assert (Hhead :
      match ip with
      | c :: d' =>
          if (c =? Json.ch "-")%N then (true, d') else (false, ip)
      | [] => (false, ip)
      end = (false, ip)).
    { destruct ip as [|c ds]; [reflexivity|].
      now rewrite (digit_not_minus c ds Hip). }
    rewrite Hhead.
    destruct (Json.int_max_str_digits <? length ip) eqn:Hlen; [discriminate|].
    intros [= <-] level. cbn [Encoder.iterencode].
    exact (intstr_of_digits ip false Hip Hlen).
  - rewrite N.eqb_refl.
    destruct (Json.int_max_str_digits <? length ip) eqn:Hlen; [discriminate|].
    intros [= <-] level. cbn [Encoder.iterencode].
    exact (intstr_of_digits ip true Hip Hlen).
Qed.

Lemma match_number_parts (s integer frac exp r : str) :
  Json.match_number s = Some (integer, frac, exp, r) ->
  exists sign ip,
    integer = sign ++ ip /\ (sign = [] \/ sign = [Json.ch "-"])
    /\ forallb Json.is_digit ip = true.
Proof.
  unfold Json.match_number.
  destruct (number_sign_cases s) as [Hs | (s' & _ & Hs)]; rewrite Hs.
  - destruct (Json.number_integer s) as [[ip s1]|] eqn:Hi; [|discriminate].
    destruct (Json.number_frac s1) as [fr s2].
    destruct (Json.number_exp s2) as [ex s3].
    intros [= <- _ _ _]. exists [], ip.
    split; [reflexivity|]. split; [now left|].
    exact (number_integer_digits _ _ _ Hi).
  - destruct (Json.number_integer s') as [[ip s1]|] eqn:Hi; [|discriminate].
    destruct (Json.number_frac s1) as [fr s2].
    destruct (Json.number_exp s2) as [ex s3].
    intros [= <- _ _ _]. exists [Json.ch "-"], ip.
    split; [reflexivity|]. split; [now right|].
    exact (number_integer_digits _ _ _ Hi).
Qed.

Ltac got_value :=
  let H := fresh "Hg" in
  intros H; injection H as <- _ _.

(** Every value that a scanning function returns can be encoded. *)
Lemma scan_encodes (f : nat) :
  (forall s i v r e, Json.scan_once f s i = Json.Got v r e -> encodes v)
  /\ (forall s i v r e, Json.JSONObject f s i = Json.Got v r e -> encodes v)
  /\ (forall s i p v r e,
        Forall (fun kv => encodes (snd kv)) p ->
        Json.object_loop f s i p = Json.Got v r e -> encodes v)
  /\ (forall s i v r e, Json.JSONArray f s i = Json.Got v r e -> encodes v)
  /\ (forall s i p v r e,
        Forall (fun v => encodes v) p ->
        Json.array_loop f s i p = Json.Got v r e -> encodes v).
Proof.
  induction f as [|f (IHs & IHo & IHol & IHa & IHal)].
  - repeat split; intros; discriminate.
  - repeat split.
    + intros s i v r e. cbn [Json.scan_once].
      destruct s as [|c s']; [discriminate|].
      head_if.
      { destruct (Json.scanstring s' (S i) i []) eqn:E; try discriminate.
        got_value. intros level. eexists. reflexivity. }
      head_if; [apply IHo|].
      head_if; [apply IHa|].
      head_if; [got_value; intros level; eexists; reflexivity|].
      head_if; [got_value; intros level; eexists; reflexivity|].
      head_if; [got_value; intros level; eexists; reflexivity|].
      destruct (Json.match_number (c :: s')) as [[[[integer frac] exp] r0]|]
        eqn:E.
      { apply match_number_parts in E as (sign & ip & Hint & Hsign & Hip).
        destruct (Json.number_value integer frac exp) as [v0|] eqn:Hv;
          [|discriminate].
        got_value.
        exact (encodes_number integer frac exp sign ip v0 Hint Hsign Hip Hv). }
      repeat (head_if; [got_value; intros level; eexists; reflexivity|]).
      discriminate.
    + intros s i v r e. cbn [Json.JSONObject].
      head_if; [apply IHol; constructor|].
      destruct (Json.skip_ws s i) as [s1 e1].
      head_if; [got_value; intros level; eexists; reflexivity|].
      head_if; [apply IHol; constructor | discriminate].
    + intros s i p v r e Hp. cbn [Json.object_loop].
      destruct (Json.scanstring s i (i - 1) []) as [key s1 e1| | |];
        try discriminate.
      destruct (Json.skip_ws s1 e1) as [s2 e2].
      head_if; [discriminate|].
      destruct (Json.skip_ws (skipn 1 s2) (S e2)) as [s3 e3].
      destruct (Json.scan_once f s3 e3) as [value s4 e4| | |] eqn:E2;
        try discriminate.
      pose proof (IHs _ _ _ _ _ E2) as Hvalue. cbv zeta.
      assert (Hp' : Forall (fun kv => encodes (snd kv)) (p ++ [(key, value)])).
      { apply Forall_app. split; [exact Hp|]. repeat constructor.
        exact Hvalue. }
      destruct (Json.skip_ws s4 e4) as [s5 e5].
      head_if.
      { got_value. apply encodes_dict, encodes_of_pairs, Hp'. }
      head_if; [discriminate|].
      destruct (Json.skip_ws (skipn 1 s5) (S e5)) as [s6 e6].
      head_if; [|discriminate].
      now apply IHol.
    + intros s i v r e. cbn [Json.JSONArray].
      destruct (Json.skip_ws s i) as [s1 e1].
      head_if; [got_value; intros level; eexists; reflexivity|].
      apply IHal. constructor.
    + intros s i p v r e Hp. cbn [Json.array_loop].
      destruct (Json.scan_once f s i) as [value s1 e1| | |] eqn:E;
        try discriminate.
      pose proof (IHs _ _ _ _ _ E) as Hvalue. cbv zeta.
      assert (Hp' : Forall (fun v => encodes v) (p ++ [value])).
      { apply Forall_app. split; [exact Hp|]. repeat constructor.
        exact Hvalue. }
      destruct (Json.skip_ws s1 e1) as [s2 e2].
      head_if.
      { got_value. now apply encodes_list. }
      head_if; [discriminate|].
      destruct (Json.skip_ws (skipn 1 s2) (S e2)) as [s3 e3].
      now apply IHal.
Qed.

(** What [json.loads] returns, [json.dumps] accepts. *)
Lemma loads_encodes (t : str) (v : pyval) :
  Json.loads t = Ok v -> encodes v.
Proof.
  unfold Json.loads. destruct (Json.next_is 65279%N t); [discriminate|].
  destruct (Json.skip_ws t 0) as [s0 i0].
  destruct (Json.scan_once (3 * length t + 1) s0 i0) as [obj s1 e1| | |] eqn:E;
    try discriminate.
  pose proof (proj1 (scan_encodes _) _ _ _ _ _ E) as Hobj.
  destruct (Json.skip_ws s1 e1) as [s2 e2].
  destruct s2; [|discriminate]. now intros [= <-].
Qed.

End Encodable.

(** *** The download of an aggregate *)

Lemma adapter_result_encodes
  {W Model Response : Type} (lib : library W Model Response)
  (py_repr : str -> str) (floatstr : str -> str)
  (api_key : option str) (model_name : str) (entry : str * pyval) :
  adapter_result lib Json.loads py_repr api_key model_name entry ->
  forall level,
    exists t, Encoder.iterencode floatstr (snd entry) level = Ok t.
Proof.
  intros (cropped_image & s & s' & H).
  destruct (analyze_cases lib Json.loads py_repr cropped_image (fst entry)
              api_key model_name s) as (v & s0 & H0 & Hcases).
  rewrite H in H0. injection H0 as <- <-.
  destruct Hcases as [(_ & _ & [-> | [[e ->] | [t ->]]]) | [t Ht]];
    try (intros level; eexists; reflexivity).
  exact (loads_encodes floatstr t _ Ht).
Qed.

(** X19.  The last step of [main] does not raise: when [main], run with
    CPython's decoder, returns the aggregate, every entry is an error
    object of the adapter or a value that [json.loads] decoded, and
    [json.dumps(results, indent=2, ensure_ascii=False)] returns a text for
    it, whatever the libraries answered. *)
Theorem download_never_raises
  {W Model Response : Type} (lib : library W Model Response)
  (py_repr : str -> str) (floatstr : str -> str)
  (image : ref) (im : PIL.Image) (c : char) (key : str) (model_name : str)
  (s s' : state W) (results : Dict.dict) :
  nth_error (images s) image = Some im ->
  main lib Json.loads py_repr image (Some (c :: key)) model_name s
  = (Ok (Some results), s') ->
  exists json_str, Encoder.dumps floatstr (PDict results) = Ok json_str.
Proof.
  intros Him. unfold main, bind, ret.
  destruct (main_loop_outcomes W Model Response lib Json.loads py_repr image
              (Some (c :: key)) model_name im BBOX_COORDINATES)
    with (results := @nil (str * pyval)) (s := s)
    as (r & s1 & new & Hrun & _ & _ & Hr).
  - rewrite BBOX_COORDINATES_items.
    repeat constructor; do 4 eexists; (split; [reflexivity | split; lia]).
  - exact Him.
  - rewrite Hrun. destruct r as [d|e]; [|discriminate].
    intros [= <- _].
    destruct Hr as (_ & entries & -> & _ & _ & Hres).
    apply (encodes_dict floatstr).
    apply (encodes_of_pairs floatstr entries).
    apply Forall_impl with (2 := Hres). intros entry.
    apply adapter_result_encodes.
Qed.

Lemma download_never_raises_witness :
  exists json_str,
    Encoder.dumps (fun lexeme => lexeme)
      (PDict
         [(u "A", Script.sample_value);
          (u "B",
           PDict [(u "error", PStr (u "Gemini API エラー: quota exceeded"))]);
          (u "C", Script.sample_value);
          (u "D", Script.sample_value)])
    = Ok json_str.
Proof.
  destruct aggregation_isolates_failed_call as (s' & Hrun & _).
  exact (download_never_raises Script.lib Script.repr (fun lexeme => lexeme)
           0 Script.image0 (Json.ch "k") (u "ey") (u "gemini-2.5-pro")
           (Script.start
              [Ok (u Script.sample_object);
               Raise (Exn Exception (u "quota exceeded"));
               Ok (u Script.sample_object); Ok (u Script.sample_object)])
           s' _ eq_refl Hrun).
Defined.
